(** * Policy reconciliation engine of the egress gateway agent
    (pkg/agent/police.go), shallow embedding and specification. *)

From Stdlib Require Import ZArith String Ascii List Bool Lia Permutation.
Import ListNotations.

(** ** Go's [net] package, as called by police.go

    The address parsing and printing of Go's [net] package (the
    implementation of the Go releases of the code's era: [parseIPv4],
    [parseIPv6], [ParseIP], [ParseCIDR], [IP.String], [IPNet.String]).
    An [IP] is a byte slice: 4 or 16 bytes, the empty list being [nil]. *)
Module GoNet.

Local Open Scope Z_scope.

Definition IP := list Z.

Definition chars (s : string) : list ascii := list_ascii_of_string s.
Definition of_chars (l : list ascii) : string := string_of_list_ascii l.

Definition code (c : ascii) : Z := Z.of_nat (nat_of_ascii c).
Definition chr (n : Z) : ascii := ascii_of_nat (Z.to_nat n).

Definition is_char (c : ascii) (k : Z) : bool := code c =? k.

(** [big] of net/parse.go: larger than any value the parsers accept. *)
Definition big : Z := 16777215.

Definition dec_val (c : ascii) : option Z :=
  let n := code c in
  if (48 <=? n) && (n <=? 57) then Some (n - 48) else None.

Definition hex_val (c : ascii) : option Z :=
  let n := code c in
  if (48 <=? n) && (n <=? 57) then Some (n - 48)
  else if (97 <=? n) && (n <=? 102) then Some (n - 87)
  else if (65 <=? n) && (n <=? 70) then Some (n - 55)
  else None.

(** [dtoi] / [xtoi]: a number in base 10 / 16 at the start of [s];
    [Some (n, i)] when [ok] ([i] characters consumed), [None] otherwise. *)
Fixpoint num_go (base : Z) (val : ascii -> option Z)
    (s : list ascii) (n : Z) (i : nat) : option (Z * nat) :=
  match s with
  | [] => if Nat.eqb i 0 then None else Some (n, i)
  | c :: s' =>
      match val c with
      | None => if Nat.eqb i 0 then None else Some (n, i)
      | Some d =>
          let n' := n * base + d in
          if big <=? n' then None else num_go base val s' n' (S i)
      end
  end.

Definition dtoi (s : list ascii) : option (Z * nat) := num_go 10 dec_val s 0 0.
Definition xtoi (s : list ascii) : option (Z * nat) := num_go 16 hex_val s 0 0.

Definition v4InV6Prefix : IP := [0; 0; 0; 0; 0; 0; 0; 0; 0; 0; 255; 255].

(** The loop of [parseIPv4]: [k] octets still to read. *)
Fixpoint p4loop (k : nat) (first : bool) (s : list ascii) (acc : IP)
    : option IP :=
  match k with
  | O => match s with [] => Some acc | _ => None end
  | S k' =>
      match s with
      | [] => None
      | c0 :: t0 =>
          let s1 := if first then Some s
                    else if is_char c0 46 then Some t0 else None in
          match s1 with
          | None => None
          | Some s1 =>
              match dtoi s1 with
              | None => None
              | Some (n, c) =>
                  if 255 <? n then None
                  else if (Nat.ltb 1 c) &&
                          (match s1 with d :: _ => is_char d 48 | [] => false end)
                  then None
                  else p4loop k' false (skipn c s1) (acc ++ [n])
              end
          end
      end
  end.

Definition parseIPv4 (s : list ascii) : option IP :=
  match p4loop 4 true s [] with
  | Some a => Some (v4InV6Prefix ++ a)
  | None => None
  end.

(** The loop of [parseIPv6]: [acc] holds the bytes parsed so far
    ([i = length acc]), [ell] the position of the ellipsis. The result is
    the unparsed rest, the bytes and the ellipsis when the loop ends. *)
Fixpoint p6loop (fuel : nat) (s : list ascii) (acc : IP) (ell : option nat)
    : option (list ascii * IP * option nat) :=
  match fuel with
  | O => Some (s, acc, ell)
  | S fuel' =>
      let i := length acc in
      match xtoi s with
      | None => None
      | Some (n, c) =>
          if 65535 <? n then None else
          let rest := skipn c s in
          match rest with
          | d :: _ =>
              if is_char d 46 then
                if (match ell with None => true | Some _ => false end)
                   && negb (Nat.eqb i 12) then None
                else if Nat.ltb 16 (i + 4) then None
                else match parseIPv4 s with
                     | Some ip4 => Some ([], acc ++ skipn 12 ip4, ell)
                     | None => None
                     end
              else
                let acc' := acc ++ [n / 256; n mod 256] in
                if negb (is_char d 58) then None else
                match rest with
                | [_] => None
                | _ :: e :: rest'' =>
                    if is_char e 58 then
                      match ell with
                      | Some _ => None
                      | None =>
                          match rest'' with
                          | [] => Some ([], acc', Some (length acc'))
                          | _ => p6loop fuel' rest'' acc' (Some (length acc'))
                          end
                      end
                    else p6loop fuel' (e :: rest'') acc' ell
                | [] => None
                end
          | [] => Some ([], acc ++ [n / 256; n mod 256], ell)
          end
      end
  end.

Definition p6finish (r : option (list ascii * IP * option nat)) : option IP :=
  match r with
  | None => None
  | Some (s, acc, ell) =>
      match s with
      | _ :: _ => None
      | [] =>
          let i := length acc in
          if Nat.ltb i 16 then
            match ell with
            | None => None
            | Some e => Some (firstn e acc ++ repeat 0 (16 - i) ++ skipn e acc)
            end
          else match ell with Some _ => None | None => Some acc end
      end
  end.

Definition parseIPv6 (s : list ascii) : option IP :=
  match s with
  | a :: b :: rest =>
      if is_char a 58 && is_char b 58 then
        match rest with
        | [] => Some (repeat 0 16)
        | _ => p6finish (p6loop 8 rest [] (Some 0%nat))
        end
      else p6finish (p6loop 8 s [] None)
  | _ => p6finish (p6loop 8 s [] None)
  end.

(** [ParseIP]: the first '.' or ':' decides the family. *)
Fixpoint parseIP_go (all : list ascii) (s : list ascii) : option IP :=
  match s with
  | [] => None
  | c :: s' =>
      if is_char c 46 then parseIPv4 all
      else if is_char c 58 then parseIPv6 all
      else parseIP_go all s'
  end.

Definition ParseIP (s : string) : option IP :=
  parseIP_go (chars s) (chars s).

Definition To4 (ip : IP) : option IP :=
  if Nat.eqb (length ip) 4 then Some ip
  else if Nat.eqb (length ip) 16 &&
          forallb (fun '(a, b) => a =? b) (combine (firstn 12 ip) v4InV6Prefix)
  then Some (skipn 12 ip)
  else None.

Definition To16 (ip : IP) : option IP :=
  if Nat.eqb (length ip) 4 then Some (v4InV6Prefix ++ ip)
  else if Nat.eqb (length ip) 16 then Some ip
  else None.

(** Decimal and hexadecimal printing. *)
Fixpoint dec_go (fuel : nat) (n : Z) (acc : list ascii) : list ascii :=
  match fuel with
  | O => acc
  | S f => let acc' := chr (48 + n mod 10) :: acc in
           if n <? 10 then acc' else dec_go f (n / 10) acc'
  end.

Definition uitoa (n : Z) : list ascii := dec_go 12 n [].

Definition hexDigit (v : Z) : ascii :=
  if v <? 10 then chr (48 + v) else chr (87 + v).

(** [appendHex]: lowercase, no leading zeros. *)
Fixpoint appendHex_go (j : nat) (i : Z) : list ascii :=
  let v := Z.shiftr i (4 * Z.of_nat j) in
  let here := if 0 <? v then [hexDigit (Z.land v 15)] else [] in
  match j with
  | O => here
  | S j' => here ++ appendHex_go j' i
  end.

Definition appendHex (i : Z) : list ascii :=
  if i =? 0 then [chr 48] else appendHex_go 7 i.

(** [hexString]: two lowercase digits per byte. *)
Definition hexString (b : list Z) : list ascii :=
  flat_map (fun x => [hexDigit (x / 16); hexDigit (x mod 16)]) b.

Definition group (p : IP) (k : nat) : Z :=
  nth (2 * k) p 0 * 256 + nth (2 * k + 1) p 0.

Fixpoint zeros_from (fuel : nat) (p : IP) (j : nat) : nat :=
  match fuel with
  | O => j
  | S f => if Nat.ltb j 8 && (group p j =? 0) then zeros_from f p (S j) else j
  end.

(** The search for the longest run of zero groups in [IP.String]
    (indices counted in groups, the Go code counts bytes). *)
Fixpoint zrun (fuel : nat) (p : IP) (i : nat) (e0 e1 : Z) : Z * Z :=
  match fuel with
  | O => (e0, e1)
  | S f =>
      if Nat.ltb i 8 then
        let j := zeros_from 8 p i in
        if Nat.ltb i j && (e1 - e0 <? Z.of_nat j - Z.of_nat i)
        then zrun f p (S j) (Z.of_nat i) (Z.of_nat j)
        else zrun f p (S i) e0 e1
      else (e0, e1)
  end.

Fixpoint pr6 (fuel : nat) (p : IP) (i : nat) (e0 e1 : Z) : list ascii :=
  match fuel with
  | O => []
  | S f =>
      if Nat.ltb i 8 then
        if Z.of_nat i =? e0 then
          let i' := Z.to_nat e1 in
          if Nat.leb 8 i' then [chr 58; chr 58]
          else chr 58 :: chr 58 :: appendHex (group p i') ++ pr6 f p (S i') e0 e1
        else (if Nat.ltb 0 i then [chr 58] else [])
               ++ appendHex (group p i) ++ pr6 f p (S i) e0 e1
      else []
  end.

Definition dotted (p4 : IP) : list ascii :=
  match p4 with
  | [a; b; c; d] =>
      uitoa a ++ [chr 46] ++ uitoa b ++ [chr 46] ++ uitoa c ++ [chr 46] ++ uitoa d
  | _ => []
  end.

Definition IP_String (ip : IP) : string :=
  of_chars
  (match ip with
   | [] => chars "<nil>"
   | _ =>
      match To4 ip with
      | Some p4 => dotted p4
      | None =>
          if negb (Nat.eqb (length ip) 16) then chr 63 :: hexString ip
          else
            let '(e0, e1) := zrun 9 ip 0 (-1) (-1) in
            let '(e0, e1) := if e1 - e0 <=? 1 then (-1, -1) else (e0, e1) in
            pr6 8 ip 0 e0 e1
      end
   end).

(** [CIDRMask], [IP.Mask] and [simpleMaskLength]. *)
Fixpoint cidr_bytes (l : nat) (n : Z) : list Z :=
  match l with
  | O => []
  | S l' =>
      if 8 <=? n then 255 :: cidr_bytes l' (n - 8)
      else (255 - Z.shiftr 255 n) :: cidr_bytes l' 0
  end.

Definition CIDRMask (ones bits : Z) : list Z :=
  if negb ((bits =? 32) || (bits =? 128)) then []
  else if (ones <? 0) || (bits <? ones) then []
  else cidr_bytes (Z.to_nat (bits / 8)) ones.

Definition Mask (ip mask : IP) : IP :=
  let mask := if Nat.eqb (length mask) 16 && Nat.eqb (length ip) 4 &&
                 forallb (fun x => x =? 255) (firstn 12 mask)
              then skipn 12 mask else mask in
  let ip := if Nat.eqb (length mask) 4 && Nat.eqb (length ip) 16 &&
               forallb (fun '(a, b) => a =? b) (combine (firstn 12 ip) v4InV6Prefix)
            then skipn 12 ip else ip in
  if negb (Nat.eqb (length ip) (length mask)) then []
  else map (fun '(a, b) => Z.land a b) (combine ip mask).

Fixpoint ones_of (fuel : nat) (v : Z) (n : Z) : Z * Z :=
  match fuel with
  | O => (v, n)
  | S f => if Z.testbit v 7 then ones_of f (Z.land (v * 2) 255) (n + 1) else (v, n)
  end.

Fixpoint simpleMaskLength_go (m : list Z) (n : Z) : Z :=
  match m with
  | [] => n
  | v :: rest =>
      if v =? 255 then simpleMaskLength_go rest (n + 8)
      else
        let '(v', n') := ones_of 8 v n in
        if negb (v' =? 0) then -1
        else if forallb (fun x => x =? 0) rest then n' else -1
  end.

Definition simpleMaskLength (m : list Z) : Z := simpleMaskLength_go m 0.

Record IPNet := mkIPNet { net_IP : IP; net_Mask : list Z }.

Definition networkNumberAndMask (n : IPNet) : option (IP * list Z) :=
  let ipo := match To4 (net_IP n) with
             | Some ip => Some ip
             | None => if Nat.eqb (length (net_IP n)) 16 then Some (net_IP n) else None
             end in
  match ipo with
  | None => None
  | Some ip =>
      let m := net_Mask n in
      if Nat.eqb (length m) 4 then
        if Nat.eqb (length ip) 4 then Some (ip, m) else None
      else if Nat.eqb (length m) 16 then
        if Nat.eqb (length ip) 4 then Some (ip, skipn 12 m) else Some (ip, m)
      else None
  end.

Definition IPNet_String (n : IPNet) : string :=
  match networkNumberAndMask n with
  | None => "<nil>"
  | Some (ip, m) =>
      let l := simpleMaskLength m in
      if l =? -1 then IP_String ip ++ "/" ++ of_chars (hexString m)
      else IP_String ip ++ "/" ++ of_chars (uitoa l)
  end.

Fixpoint split_slash (s : list ascii) : option (list ascii * list ascii) :=
  match s with
  | [] => None
  | c :: s' =>
      if is_char c 47 then Some ([], s')
      else match split_slash s' with
           | Some (a, b) => Some (c :: a, b)
           | None => None
           end
  end.

(** [ParseCIDR]: [Some (ip, net)] for a nil error. *)
Definition ParseCIDR (s : string) : option (IP * IPNet) :=
  match split_slash (chars s) with
  | None => None
  | Some (addr, mask) =>
      let '(iplen, ipo) := match parseIPv4 addr with
                           | Some ip => (4, Some ip)
                           | None => (16, parseIPv6 addr)
                           end in
      match ipo, dtoi mask with
      | Some ip, Some (n, i) =>
          if Nat.eqb i (length mask) && (0 <=? n) && (n <=? 8 * iplen) then
            let m := CIDRMask n (8 * iplen) in
            Some (ip, mkIPNet (Mask ip m) m)
          else None
      | _, _ => None
      end
  end.

End GoNet.

(** ** The diffing and destination helpers of police.go *)
Module Police.

Import GoNet.
Local Open Scope string_scope.

(** [strings.HasSuffix] and [strings.TrimSuffix]. *)
Definition HasSuffix (s suffix : string) : bool :=
  let n := String.length s in
  let m := String.length suffix in
  Nat.leb m n && String.eqb (substring (n - m) m s) suffix.

Definition TrimSuffix (s suffix : string) : string :=
  if HasSuffix s suffix then substring 0 (String.length s - String.length suffix) s
  else s.

Definition mem (s : string) (l : list string) : bool := existsb (String.eqb s) l.

(** The body of the first loop of [findDiff]: the rewriting of one entry
    of [newList]. *)
Definition findDiff_normalize (s : string) : string :=
  if HasSuffix s "/32" then TrimSuffix s "/32"
  else if HasSuffix s "/128" then
    match ParseIP (TrimSuffix s "/128") with
    | Some ip => match To16 ip with Some ip16 => IP_String ip16 | None => s end
    | None => s
    end
  else match ParseCIDR s with
       | Some (_, cidr) => IPNet_String cidr
       | None => s
       end.

(** [findDiff oldList newList = (toAdd, toDel)]; the Go maps [oldMap] and
    [newMap] are membership tests on the lists they are built from. *)
Definition findDiff (oldList newList : list string) : list string * list string :=
  let newCopy := map findDiff_normalize newList in
  (filter (fun s => negb (mem s oldList)) newCopy,
   filter (fun s => negb (mem s newCopy)) oldList).

(** The ipset backend on one set, seen as its member list: [AddEntry]
    with [ignoreExisting] adds a member once, [DelEntry] removes it. *)
Definition set_add (x : string) (members : list string) : list string :=
  if mem x members then members else members ++ [x].

Definition set_del (x : string) (members : list string) : list string :=
  filter (fun y => negb (String.eqb y x)) members.

(** The two loops of [updatePolicyIPSet] that apply a diff to a set:
    every [toAdd] entry is added, then every [toDel] entry removed. *)
Definition apply_diff (members : list string) (d : list string * list string)
    : list string :=
  fold_left (fun m x => set_del x m) (snd d)
    (fold_left (fun m x => set_add x m) (fst d) members).

(** [getDstCIDR]: [None] when the Go function returns an error. *)
Fixpoint getDstCIDR_go (l : list string) (v4 v6 : list string)
    : option (list string * list string) :=
  match l with
  | [] => Some (v4, v6)
  | item :: l' =>
      match ParseCIDR item with
      | None => None
      | Some (ip, ipNet) =>
          match ip with
          | [] => getDstCIDR_go l' v4 v6
          | _ =>
              match To4 ip with
              | Some _ => getDstCIDR_go l' (v4 ++ [IPNet_String ipNet]) v6
              | None => getDstCIDR_go l' v4 (v6 ++ [IPNet_String ipNet])
              end
          end
      end
  end.

Definition getDstCIDR (l : list string) : option (list string * list string) :=
  getDstCIDR_go l [] [].

(** The normalization of a [newList] entry as the specification words it:
    an IPv4 host prefix /32 loses its suffix, an IPv6 host prefix /128
    becomes the bare address, any other CIDR its canonical network form. *)
Definition spec_normalize (s : string) : string :=
  if HasSuffix s "/32" &&
     match parseIPv4 (chars (TrimSuffix s "/32")) with Some _ => true | None => false end
  then TrimSuffix s "/32"
  else if HasSuffix s "/128" then
    match parseIPv6 (chars (TrimSuffix s "/128")) with
    | Some ip => IP_String ip
    | None => s
    end
  else match ParseCIDR s with
       | Some (_, cidr) => IPNet_String cidr
       | None => s
       end.

(** The canonical string of a CIDR and its family, as [getDstCIDR] reads
    them from [net.ParseCIDR]. *)
Definition cidr_canonical (s : string) : string :=
  match ParseCIDR s with Some (_, n) => IPNet_String n | None => s end.

Definition cidr_is_v4 (s : string) : bool :=
  match ParseCIDR s with
  | Some (ip, _) => match To4 ip with Some _ => true | None => false end
  | None => false
  end.

Definition cidr_is_v6 (s : string) : bool :=
  match ParseCIDR s with
  | Some (ip, _) => match To4 ip with Some _ => false | None => true end
  | None => false
  end.

End Police.

(** ** SHA-1 ([crypto/sha1.Sum]) over a byte list *)
Module SHA1.

Local Open Scope Z_scope.

Definition w32 (x : Z) : Z := x mod 2 ^ 32.

Definition rotl (n x : Z) : Z :=
  w32 (Z.lor (Z.shiftl x n) (Z.shiftr x (32 - n))).

Definition be_bytes (k : nat) (x : Z) : list Z :=
  map (fun i => Z.land (Z.shiftr x (8 * Z.of_nat (k - 1 - i))) 255) (seq 0 k).

(** Padding: 0x80, zeros up to 56 mod 64, the bit length on 8 bytes. *)
Definition pad (m : list Z) : list Z :=
  let L := Z.of_nat (length m) in
  m ++ [128] ++ repeat 0 (Z.to_nat ((55 - L) mod 64)) ++ be_bytes 8 (8 * L).

Fixpoint blocks (fuel : nat) (m : list Z) : list (list Z) :=
  match fuel, m with
  | O, _ => []
  | _, [] => []
  | S f, _ => firstn 64 m :: blocks f (skipn 64 m)
  end.

Definition word_at (b : list Z) (i : nat) : Z :=
  nth (4 * i) b 0 * 16777216 + nth (4 * i + 1) b 0 * 65536
  + nth (4 * i + 2) b 0 * 256 + nth (4 * i + 3) b 0.

(** The message schedule [w[0..79]]. *)
Fixpoint extend (n : nat) (w : list Z) : list Z :=
  match n with
  | O => w
  | S n' =>
      let i := length w in
      let x := Z.lxor (Z.lxor (nth (i - 3) w 0) (nth (i - 8) w 0))
                      (Z.lxor (nth (i - 14) w 0) (nth (i - 16) w 0)) in
      extend n' (w ++ [rotl 1 x])
  end.

Definition schedule (b : list Z) : list Z :=
  extend 64 (map (word_at b) (seq 0 16)).

Definition round_fk (i : nat) (b c d : Z) : Z * Z :=
  if Nat.ltb i 20 then (Z.lor (Z.land b c) (Z.land (Z.lxor b 4294967295) d), 1518500249)
  else if Nat.ltb i 40 then (Z.lxor (Z.lxor b c) d, 1859775393)
  else if Nat.ltb i 60 then
    (Z.lor (Z.lor (Z.land b c) (Z.land b d)) (Z.land c d), 2400959708)
  else (Z.lxor (Z.lxor b c) d, 3395469782).

Definition state := (Z * Z * Z * Z * Z)%type.

Definition round (w : list Z) (st : state) (i : nat) : state :=
  let '(a, b, c, d, e) := st in
  let '(f, k) := round_fk i b c d in
  let t := w32 (rotl 5 a + f + e + k + nth i w 0) in
  (t, a, rotl 30 b, c, d).

Definition compress (h : state) (blk : list Z) : state :=
  let w := schedule blk in
  let '(a, b, c, d, e) := fold_left (round w) (seq 0 80) h in
  let '(h0, h1, h2, h3, h4) := h in
  (w32 (h0 + a), w32 (h1 + b), w32 (h2 + c), w32 (h3 + d), w32 (h4 + e)).

Definition h_init : state :=
  (1732584193, 4023233417, 2562383102, 271733878, 3285377520).

(** [sha1.Sum]: the 20-byte digest. *)
Definition Sum (m : list Z) : list Z :=
  let p := pad m in
  let '(h0, h1, h2, h3, h4) := fold_left compress (blocks (length p) p) h_init in
  be_bytes 4 h0 ++ be_bytes 4 h1 ++ be_bytes 4 h2 ++ be_bytes 4 h3 ++ be_bytes 4 h4.

End SHA1.

(** ** Set names, the set cache and the ipset backend *)
Module IPSets.

Import GoNet.
Local Open Scope string_scope.

(** [[]byte(name)]. *)
Definition bytes_of (s : string) : list Z := map code (chars s).

(** [fmt.Sprintf("%x", sha1.Sum([]byte(name)))]. *)
Definition sha1_hex (name : string) : list ascii :=
  hexString (SHA1.Sum (bytes_of name)).

(** [formatIPSetName]; [None] is the panic of the slice [hash[:i]] when
    [i] is out of range. *)
Definition formatIPSetName (prefix name : string) : option string :=
  let hash := sha1_hex name in
  let i := (31 - Z.of_nat (String.length prefix))%Z in
  if (i <? 0)%Z || (Z.of_nat (length hash) <? i)%Z then None
  else Some (prefix ++ of_chars (firstn (Z.to_nat i) hash)).

(** The set name as the callers use it: they only pass the four prefixes
    below, for which [formatIPSetName] never panics
    ([formatIPSetName_total]). *)
Definition ipsetName (prefix name : string) : string :=
  match formatIPSetName prefix name with Some s => s | None => "" end.

Inductive IPStack := IPv4 | IPv6.
Inductive IPKind := IPSrc | IPDst.

Record SetName := mkSetName { Name : string; Stack : IPStack; Kind : IPKind }.

Definition HashFamily (stack : IPStack) : string :=
  match stack with IPv4 => "inet" | IPv6 => "inet6" end.

(** [buildIPSetNamesByPolicy]. *)
Definition buildIPSetNamesByPolicy (ns name : string) (enableIPv4 enableIPv6 : bool)
    : list SetName :=
  let name := if negb (String.eqb ns "") then ns ++ "-" ++ name else name in
  (if enableIPv4 then
     [mkSetName (ipsetName "egress-src-v4-" name) IPv4 IPSrc;
      mkSetName (ipsetName "egress-dst-v4-" name) IPv4 IPDst]
   else [])
  ++
  (if enableIPv6 then
     [mkSetName (ipsetName "egress-src-v6-" name) IPv6 IPSrc;
      mkSetName (ipsetName "egress-dst-v6-" name) IPv6 IPDst]
   else []).

Record IPSet := mkIPSet { SetNameOf : string; SetType : string; SetFamily : string }.

(** The calls made to the ipset backend. *)
Inductive IpsetCall :=
| CreateSet (s : IPSet)
| DestroySet (name : string)
| AddEntry (entry : string) (set : string)
| DelEntry (entry : string) (set : string).

(** The reconciler's view of ipsets: the in-memory cache [ipsetMap]
    (a [SyncMap] from set name to set), the sets of the kernel and the
    log of backend calls. *)
Record IpsetState := mkIpsetState {
  ipsetMap : list (string * IPSet);
  kernelSets : list string;
  ipsetCalls : list IpsetCall }.

Definition map_load (k : string) (m : list (string * IPSet)) : option IPSet :=
  match find (fun kv => String.eqb (fst kv) k) m with
  | Some (_, v) => Some v
  | None => None
  end.

Definition map_delete (k : string) (m : list (string * IPSet)) : list (string * IPSet) :=
  filter (fun kv => negb (String.eqb (fst kv) k)) m.

(** [DestroySet] of the backend: [destroy_err name] tells whether the
    kernel refuses (for instance a set still referenced by a rule). *)
Definition backendDestroySet (destroy_err : string -> bool) (name : string)
    (st : IpsetState) : IpsetState * bool :=
  let calls := (ipsetCalls st ++ [DestroySet name])%list in
  if destroy_err name then (mkIpsetState (ipsetMap st) (kernelSets st) calls, true)
  else (mkIpsetState (ipsetMap st)
          (filter (fun s => negb (String.eqb s name)) (kernelSets st)) calls, false).

(** [removeIPSet]: no error is returned, a failed destroy is only logged. *)
Definition removeIPSet (destroy_err : string -> bool) (name : string)
    (st : IpsetState) : IpsetState :=
  match map_load name (ipsetMap st) with
  | Some _ =>
      let '(st1, _) := backendDestroySet destroy_err name st in
      mkIpsetState (map_delete name (ipsetMap st1)) (kernelSets st1) (ipsetCalls st1)
  | None => st
  end.

End IPSets.

(** ** Rules and tables of the rule backend *)
Module IPTables.

Local Open Scope string_scope.

Inductive MatchCriterion :=
| SourceIPSet (set : string)
| DestIPSet (set : string)
| NotDestIPSet (set : string)
| CTDirectionOriginal
| MarkMatchesWithMask (mark mask : Z).

Inductive Action :=
| AcceptAction
| JumpAction (target : string)
| SetMaskedMarkAction (mark mask : Z)
| SNATAction (toAddr : string).

Record Rule := mkRule { Match : list MatchCriterion; RuleAction : Action;
                        Comment : list string }.

Definition MatchCriterion_eq_dec (a b : MatchCriterion) : {a = b} + {a <> b}.
Proof. decide equality; first [apply string_dec | apply Z.eq_dec]. Defined.

Definition Action_eq_dec (a b : Action) : {a = b} + {a <> b}.
Proof. decide equality; first [apply string_dec | apply Z.eq_dec]. Defined.

Definition Rule_eq_dec (a b : Rule) : {a = b} + {a <> b}.
Proof.
  decide equality;
    first [apply (list_eq_dec string_dec) | apply Action_eq_dec
          | apply (list_eq_dec MatchCriterion_eq_dec)].
Defined.

Record Chain := mkChain { ChainName : string; Rules : list Rule }.

(** A table handle of one (table, IP family): the rules of the chains the
    engine owns ([UpdateChain]) and the rules placed in built-in chains
    ([InsertOrAppendRules]). *)
Record Table := mkTable {
  TableName : string;
  IPVersion : Z;
  chains : list (string * list Rule);
  inserted : list (string * list Rule) }.

Definition assoc_get (k : string) (l : list (string * list Rule)) : list Rule :=
  match find (fun kv => String.eqb (fst kv) k) l with
  | Some (_, v) => v
  | None => []
  end.

Fixpoint assoc_set (k : string) (v : list Rule) (l : list (string * list Rule))
    : list (string * list Rule) :=
  match l with
  | [] => [(k, v)]
  | (k', v') :: l' =>
      if String.eqb k' k then (k, v) :: l' else (k', v') :: assoc_set k v l'
  end.

(** Modelled from the spec: [Table.UpdateChain] of pkg/iptables (not among
    the sources) replaces the rule list of an engine-owned chain. *)
Definition UpdateChain (c : Chain) (t : Table) : Table :=
  mkTable (TableName t) (IPVersion t) (assoc_set (ChainName c) (Rules c) (chains t))
    (inserted t).

(** Modelled from the spec: [Table.InsertOrAppendRules] of pkg/iptables
    (not among the sources) places rules in a built-in chain idempotently:
    a rule equal to one already in the chain is not added again; the
    others go in front (the agent runs the backend in insert mode). *)
Definition InsertOrAppendRules (chainName : string) (rules : list Rule) (t : Table)
    : Table :=
  let old := assoc_get chainName (inserted t) in
  let fresh := filter (fun r => if in_dec Rule_eq_dec r old then false else true) rules in
  mkTable (TableName t) (IPVersion t) (chains t)
    (assoc_set chainName (fresh ++ old) (inserted t)).

(** [for chain, rules := range chainMapRules { table.InsertOrAppendRules(chain, rules) }] *)
Definition insertAll (chainMapRules : list (string * list Rule)) (t : Table) : Table :=
  fold_left (fun t cr => InsertOrAppendRules (fst cr) (snd cr) t) chainMapRules t.

End IPTables.

(** ** The reconciler: rule builders and the full rebuild [initApplyPolicy] *)
Module Agent.

Import IPSets IPTables.
Local Open Scope string_scope.

Definition EgressClusterCIDRIPv4 : string := "egress-cluster-cidr-ipv4".
Definition EgressClusterCIDRIPv6 : string := "egress-cluster-cidr-ipv6".

(** [egressv1.Policy]: the key of the maps of [initApplyPolicy]. *)
Record Policy := mkPolicy { PName : string; PNamespace : string }.

Definition Policy_eq_dec (a b : Policy) : {a = b} + {a <> b}.
Proof. decide equality; apply string_dec. Defined.

Record Eip := mkEip { EIPv4 : string; EIPv6 : string; EPolicies : list Policy }.
Record EgressIPStatus := mkEgressIPStatus { NName : string; NEips : list Eip }.
Record EgressGateway := mkEgressGateway { NodeList : list EgressIPStatus }.

Record IP := mkIP { V4 : string; V6 : string }.

Record PolicyCommon := mkPolicyCommon { NodeName : string; DestSubnet : list string;
                                        PIP : IP }.

(** A Go [map[egressv1.Policy]*PolicyCommon]: one binding per key, a new
    assignment replaces the old value. *)
Definition PMap := list (Policy * PolicyCommon).

Fixpoint pmap_set (k : Policy) (v : PolicyCommon) (m : PMap) : PMap :=
  match m with
  | [] => [(k, v)]
  | (k', v') :: m' =>
      if Policy_eq_dec k' k then (k, v) :: m' else (k', v') :: pmap_set k v m'
  end.

Fixpoint pmap_get (k : Policy) (m : PMap) : option PolicyCommon :=
  match m with
  | [] => None
  | (k', v') :: m' => if Policy_eq_dec k' k then Some v' else pmap_get k m'
  end.

Local Open Scope Z_scope.

(** [strings.ReplaceAll(mark, "0x", "")]. *)
Fixpoint remove_0x (s : list ascii) : list ascii :=
  match s with
  | a :: ((b :: s') as t) =>
      if GoNet.is_char a 48 && GoNet.is_char b 120 then remove_0x s'
      else a :: remove_0x t
  | _ => s
  end.

Fixpoint hex_digits (s : list ascii) (n : Z) : option Z :=
  match s with
  | [] => Some n
  | c :: s' =>
      match GoNet.hex_val c with
      | Some d => hex_digits s' (n * 16 + d)
      | None => None
      end
  end.

(** [strconv.ParseInt(tmp, 16, 32)]: optional sign, at least one hex
    digit, the value in [-2^31, 2^31). *)
Definition ParseInt16_32 (s : list ascii) : option Z :=
  let '(neg, body) := match s with
                      | c :: t => if GoNet.is_char c 45 then (true, t)
                                  else if GoNet.is_char c 43 then (false, t)
                                  else (false, s)
                      | [] => (false, s)
                      end in
  match body with
  | [] => None
  | _ =>
      match hex_digits body 0 with
      | None => None
      | Some u =>
          if neg then (if 2 ^ 31 <? u then None else Some (- u))
          else (if 2 ^ 31 <=? u then None else Some u)
      end
  end.

(** [parseMark]: the result is [uint32(i64)]. *)
Definition parseMark (mark : string) : option Z :=
  match ParseInt16_32 (remove_0x (GoNet.chars mark)) with
  | Some i => Some (i mod 2 ^ 32)
  | None => None
  end.

Local Open Scope string_scope.

Definition family (version : Z) : string :=
  if (version =? 6)%Z then "v6-" else "v4-".

Definition ignoreSetName (version : Z) : string :=
  if (version =? 6)%Z then EgressClusterCIDRIPv6 else EgressClusterCIDRIPv4.

(** [buildPolicyRule]: the mark rule of a policy whose EIP is on another
    node. *)
Definition buildPolicyRule (policyName : string) (mark version : Z)
    (isIgnoreInternalCIDR : bool) : Rule :=
  let srcName := ipsetName ("egress-src-" ++ family version) policyName in
  let dstName := ipsetName ("egress-dst-" ++ family version) policyName in
  let matchCriteria :=
    if isIgnoreInternalCIDR
    then [SourceIPSet srcName; NotDestIPSet (ignoreSetName version); CTDirectionOriginal]
    else [SourceIPSet srcName; DestIPSet dstName; CTDirectionOriginal] in
  mkRule matchCriteria (SetMaskedMarkAction mark 4294967295) [].

(** [buildEipRule]: the SNAT rule of a policy whose EIP is on the local
    node; [None] is the nil rule returned when the EIP has no address. *)
Definition buildEipRule (policyName : string) (eip : IP) (version : Z)
    (isIgnoreInternalCIDR : bool) : option Rule :=
  if String.eqb (V4 eip) "" && String.eqb (V6 eip) "" then None else
  let ip := if (version =? 6)%Z then V6 eip else V4 eip in
  let srcName := ipsetName ("egress-src-" ++ family version) policyName in
  let dstName := ipsetName ("egress-dst-" ++ family version) policyName in
  let matchCriteria :=
    if isIgnoreInternalCIDR
    then [SourceIPSet srcName; NotDestIPSet (ignoreSetName version); CTDirectionOriginal]
    else [SourceIPSet srcName; DestIPSet dstName; CTDirectionOriginal] in
  Some (mkRule matchCriteria (SNATAction ip) []).

Definition buildNatStaticRule (base : Z) : list (string * list Rule) :=
  [("POSTROUTING",
    [mkRule [MarkMatchesWithMask base 4294967295] AcceptAction [];
     mkRule [] (JumpAction "EGRESSGATEWAY-SNAT-EIP") []])].

Definition buildFilterStaticRule (base : Z) : list (string * list Rule) :=
  [("FORWARD", [mkRule [MarkMatchesWithMask base 4294967295] AcceptAction []]);
   ("OUTPUT", [mkRule [MarkMatchesWithMask base 4294967295] AcceptAction []])].

Definition buildMangleStaticRule (base : Z) : list (string * list Rule) :=
  [("FORWARD", [mkRule [MarkMatchesWithMask base 4278190080]
                       (SetMaskedMarkAction base 4294967295) []]);
   ("POSTROUTING", [mkRule [MarkMatchesWithMask base 4294967295] AcceptAction []]);
   ("PREROUTING", [mkRule [] (JumpAction "EGRESSGATEWAY-MARK-REQUEST") []])].

(** [isIgnoreInternalCIDR := len(val.DestSubnet) <= 0]. *)
Definition isIgnoreInternalCIDR (destSubnet : list string) : bool :=
  Nat.leb (length destSubnet) 0.

(** The policy name used in rule and set names. *)
Definition policyName (p : Policy) : string :=
  if negb (String.eqb (PNamespace p) "") then PNamespace p ++ "-" ++ PName p
  else PName p.

Inductive GetResult (A : Type) := Found (a : A) | NotFound | GetError.
Arguments Found {A} a.
Arguments NotFound {A}.
Arguments GetError {A}.

(** What [initApplyPolicy] reads: the configuration, the answers of the
    API server and the outcome of the calls it makes. [updatePolicyIPSet]
    is the success ([true]) or failure of the ipset refresh of one policy,
    [applyFails] that of [Table.Apply]. *)
Record Env := mkEnv {
  cfgNodeName : string;
  cfgMark : string;
  listGateways : option (list EgressGateway);
  getEgressPolicy : string -> string -> GetResult (list string);
  getEgressClusterPolicy : string -> string -> GetResult (list string);
  getEgressNodeMark : string -> option string;
  updatePolicyIPSet : string -> string -> bool -> list string -> bool;
  applyFails : Table -> bool }.

Record Tables := mkTables {
  mangleTables : list Table;
  natTables : list Table;
  filterTables : list Table }.

(** The first loop of [initApplyPolicy]: [(unSnatPolicies, snatPolicies)]. *)
Definition addEip (local : string) (nodeName : string)
    (acc : PMap * PMap) (eip : Eip) : PMap * PMap :=
  fold_left (fun '(un, sn) policy =>
      if String.eqb nodeName local
      then (un, pmap_set policy (mkPolicyCommon nodeName [] (mkIP (EIPv4 eip) (EIPv6 eip))) sn)
      else (pmap_set policy (mkPolicyCommon nodeName [] (mkIP "" "")) un, sn))
    (EPolicies eip) acc.

Definition partitionPolicies (local : string) (gateways : list EgressGateway)
    : PMap * PMap :=
  fold_left (fun acc item =>
      fold_left (fun acc list => fold_left (addEip local (NName list)) (NEips list) acc)
        (NodeList item) acc)
    gateways ([], []).

(** The [DestSubnet] of a policy: [Get] of the policy object; a missing
    object leaves the zero value (no subnet), another error is returned. *)
Definition policyDestSubnet (env : Env) (policy : Policy) : option (list string) :=
  let r := if negb (String.eqb (PNamespace policy) "")
           then getEgressPolicy env (PNamespace policy) (PName policy)
           else getEgressClusterPolicy env (PNamespace policy) (PName policy) in
  match r with
  | Found ds => Some ds
  | NotFound => Some []
  | GetError => None
  end.

(** The second and third loops: fetch [DestSubnet], refresh the sets. *)
Fixpoint refreshPolicies (env : Env) (isEipNodeSet : bool) (m : PMap) : option PMap :=
  match m with
  | [] => Some []
  | (policy, val) :: m' =>
      match policyDestSubnet env policy with
      | None => None
      | Some ds =>
          if updatePolicyIPSet env (PNamespace policy) (PName policy) isEipNodeSet ds
          then match refreshPolicies env isEipNodeSet m' with
               | Some r => Some ((policy, mkPolicyCommon (NodeName val) ds (PIP val)) :: r)
               | None => None
               end
          else None
      end
  end.

(** The rules of [EGRESSGATEWAY-MARK-REQUEST] for one mangle table: a
    policy whose [EgressNode] cannot be read is skipped. *)
Fixpoint markRules (env : Env) (version : Z) (m : PMap) : option (list Rule) :=
  match m with
  | [] => Some []
  | (policy, val) :: m' =>
      match getEgressNodeMark env (NodeName val) with
      | None => markRules env version m'
      | Some nodeMark =>
          match parseMark nodeMark with
          | None => None
          | Some mark =>
              match markRules env version m' with
              | Some rs => Some (buildPolicyRule (policyName policy) mark version
                                   (isIgnoreInternalCIDR (DestSubnet val)) :: rs)
              | None => None
              end
          end
      end
  end.

(** The rules of [EGRESSGATEWAY-SNAT-EIP] for one nat table. *)
Fixpoint snatRules (version : Z) (m : PMap) : list Rule :=
  match m with
  | [] => []
  | (policy, val) :: m' =>
      match buildEipRule (policyName policy) (PIP val) version
              (isIgnoreInternalCIDR (DestSubnet val)) with
      | Some r => r :: snatRules version m'
      | None => snatRules version m'
      end
  end.

Fixpoint map_option {A B : Type} (f : A -> option B) (l : list A) : option (list B) :=
  match l with
  | [] => Some []
  | x :: l' =>
      match f x, map_option f l' with
      | Some y, Some r => Some (y :: r)
      | _, _ => None
      end
  end.

Definition MarkChain : string := "EGRESSGATEWAY-MARK-REQUEST".
Definition SnatChain : string := "EGRESSGATEWAY-SNAT-EIP".

(** [initApplyPolicy]: [Some ts'] when it returns nil, [ts'] being the
    tables as applied; [None] when it returns an error. Each [range] over
    a map visits it in the order of its list; [GoMapOrder.initApplyPolicyIn]
    lets each loop visit it in any order, as Go's runtime does. *)
Definition initApplyPolicy (env : Env) (ts : Tables) : option Tables :=
  match listGateways env with
  | None => None
  | Some [] => Some ts
  | Some gateways =>
      let '(unSnat0, snat0) := partitionPolicies (cfgNodeName env) gateways in
      match refreshPolicies env false unSnat0 with
      | None => None
      | Some unSnat =>
      match refreshPolicies env true snat0 with
      | None => None
      | Some snat =>
      match parseMark (cfgMark env) with
      | None => None
      | Some baseMark =>
      let filters := map (insertAll (buildFilterStaticRule baseMark)) (filterTables ts) in
      let mangles0 := map (fun t => insertAll (buildMangleStaticRule baseMark)
                                      (UpdateChain (mkChain MarkChain []) t))
                          (mangleTables ts) in
      match map_option (fun t =>
              match markRules env (IPVersion t) unSnat with
              | Some rules => Some (UpdateChain (mkChain MarkChain rules) t)
              | None => None
              end) mangles0 with
      | None => None
      | Some mangles =>
      let nats := map (fun t => insertAll (buildNatStaticRule baseMark)
                                  (UpdateChain (mkChain SnatChain
                                     (snatRules (IPVersion t) snat)) t))
                      (natTables ts) in
      if forallb (fun t => negb (applyFails env t)) (nats ++ filters ++ mangles)
      then Some (mkTables mangles nats filters)
      else None
      end
      end
      end
      end
  end.

End Agent.

(** ** Go's map iteration order in [initApplyPolicy]

    [for k, v := range m] over a Go map visits the entries in an order the
    runtime picks anew at every loop, so the same loop may visit them in
    another order in each table and in each run. A [MapOrder] names the
    order of every [range] over a map of one run of [initApplyPolicy]: the
    loop, the position of the table in its slice, and a rank per key; the
    loop visits the entries by increasing rank. The keys of these maps are
    distinct, so every order the runtime can pick is the order of some
    ranking. *)
Module GoMapOrder.

Import IPTables Agent.
Local Open Scope string_scope.

(** The [range] loops over [unSnatPolicies] and [snatPolicies]: the two
    refresh loops, the rule loop of each mangle table and of each nat table. *)
Inductive PolicyLoop := LoopUnSnat | LoopSnat | LoopMarkRules | LoopSnatRules.

(** The [range chainMapRules] loops of the filter, mangle and nat tables. *)
Inductive ChainLoop := LoopFilterStatic | LoopMangleStatic | LoopNatStatic.

Record MapOrder := mkMapOrder {
  policyRank : PolicyLoop -> nat -> Policy -> nat;
  chainRank : ChainLoop -> nat -> string -> nat }.

Fixpoint insertBy {K V : Type} (rank : K -> nat) (x : K * V) (l : list (K * V))
    : list (K * V) :=
  match l with
  | [] => [x]
  | y :: l' => if Nat.leb (rank (fst x)) (rank (fst y)) then x :: l
               else y :: insertBy rank x l'
  end.

(** The entries of a map in the order a [range] loop visits them. *)
Definition rangeBy {K V : Type} (rank : K -> nat) (m : list (K * V)) : list (K * V) :=
  fold_right (insertBy rank) [] m.

(** [for i, table := range tables]: the body sees the position. *)
Fixpoint mapi {A B : Type} (f : nat -> A -> B) (n : nat) (l : list A) : list B :=
  match l with
  | [] => []
  | x :: l' => f n x :: mapi f (S n) l'
  end.

(** A loop over a slice whose body may return an error. *)
Fixpoint map_optioni {A B : Type} (f : nat -> A -> option B) (n : nat) (l : list A)
    : option (list B) :=
  match l with
  | [] => Some []
  | x :: l' =>
      match f n x with
      | None => None
      | Some y =>
          match map_optioni f (S n) l' with
          | Some r => Some (y :: r)
          | None => None
          end
      end
  end.

(** The body of [for _, table := range r.filterTables]. *)
Definition filterStatic (o : MapOrder) (baseMark : Z) (i : nat) (t : Table) : Table :=
  insertAll (rangeBy (chainRank o LoopFilterStatic i) (buildFilterStaticRule baseMark)) t.

(** The body of the first [for _, table := range r.mangleTables]. *)
Definition mangleStatic (o : MapOrder) (baseMark : Z) (i : nat) (t : Table) : Table :=
  insertAll (rangeBy (chainRank o LoopMangleStatic i) (buildMangleStaticRule baseMark))
    (UpdateChain (mkChain MarkChain []) t).

(** The body of the second [for _, table := range r.mangleTables]. *)
Definition mangleMarkRules (o : MapOrder) (env : Env) (unSnat : PMap) (i : nat) (t : Table)
    : option Table :=
  match markRules env (IPVersion t) (rangeBy (policyRank o LoopMarkRules i) unSnat) with
  | Some rules => Some (UpdateChain (mkChain MarkChain rules) t)
  | None => None
  end.

(** The body of [for _, table := range r.natTables]. *)
Definition natSnatRules (o : MapOrder) (baseMark : Z) (snat : PMap) (i : nat) (t : Table)
    : Table :=
  let t := UpdateChain (mkChain SnatChain
             (snatRules (IPVersion t) (rangeBy (policyRank o LoopSnatRules i) snat))) t in
  insertAll (rangeBy (chainRank o LoopNatStatic i) (buildNatStaticRule baseMark)) t.

(** [initApplyPolicy] with each [range] over a map visiting it in the order
    [o] picks: [Some ts'] when it returns nil, [ts'] being the tables as
    applied; [None] when it returns an error. *)
Definition initApplyPolicyIn (o : MapOrder) (env : Env) (ts : Tables) : option Tables :=
  match listGateways env with
  | None => None
  | Some [] => Some ts
  | Some gateways =>
      let '(unSnat0, snat0) := partitionPolicies (cfgNodeName env) gateways in
      match refreshPolicies env false (rangeBy (policyRank o LoopUnSnat 0) unSnat0) with
      | None => None
      | Some unSnat =>
      match refreshPolicies env true (rangeBy (policyRank o LoopSnat 0) snat0) with
      | None => None
      | Some snat =>
      match parseMark (cfgMark env) with
      | None => None
      | Some baseMark =>
      let filters := mapi (filterStatic o baseMark) 0 (filterTables ts) in
      let mangles0 := mapi (mangleStatic o baseMark) 0 (mangleTables ts) in
      match map_optioni (mangleMarkRules o env unSnat) 0 mangles0 with
      | None => None
      | Some mangles =>
      let nats := mapi (natSnatRules o baseMark snat) 0 (natTables ts) in
      if forallb (fun t => negb (applyFails env t)) (nats ++ filters ++ mangles)
      then Some (mkTables mangles nats filters)
      else None
      end
      end
      end
      end
  end.

End GoMapOrder.

(** ** Definitions that follow the specification's words *)
Module ClusterInfo.

Import GoNet IPSets.
Local Open Scope string_scope.

(** Go's [<] on strings: byte-wise lexicographic order. *)
Fixpoint str_ltb (a b : string) : bool :=
  match a, b with
  | EmptyString, String _ _ => true
  | String x a', String y b' =>
      if Nat.ltb (nat_of_ascii x) (nat_of_ascii y) then true
      else if Nat.eqb (nat_of_ascii x) (nat_of_ascii y) then str_ltb a' b'
      else false
  | _, EmptyString => false
  end.

(** A [sets.String], kept as the sorted list of its members, which is what
    its [List()] returns. *)
Fixpoint set_insert (x : string) (s : list string) : list string :=
  match s with
  | [] => [x]
  | y :: s' =>
      if String.eqb x y then s
      else if str_ltb x y then x :: s
      else y :: set_insert x s'
  end.

Definition NewString (items : list string) : list string :=
  fold_left (fun s x => set_insert x s) items [].

Definition Has (s : list string) (key : string) : bool := existsb (String.eqb key) s.

Definition Delete (key : string) (s : list string) : list string :=
  filter (fun y => negb (String.eqb y key)) s.

(** [for _, key := range keys { if err := f(key); err != nil { return err } }] *)
Fixpoint forEach {S : Type} (f : string -> S -> option S) (keys : list string) (st : S)
    : option S :=
  match keys with
  | [] => Some st
  | key :: keys' =>
      match f key st with
      | Some st' => forEach f keys' st'
      | None => None
      end
  end.

(** The [process] closure of [reconcileClusterInfo]. *)
Definition process {S : Type} (gotList expList : list string)
    (toAdd toDel : string -> S -> option S) (st : S) : option S :=
  let got := NewString gotList in
  let exp := NewString expList in
  let exp := fold_left (fun exp key => if Has exp key then Delete key exp else exp) got exp in
  let exp := fold_left (fun exp' key => if Has got key then Delete key exp' else exp') exp exp in
  match forEach toAdd exp st with
  | Some st' => forEach toDel got st'
  | None => None
  end.

(** [info.Status.EgressIgnoreCIDR]. *)
Record EgressIgnoreCIDR := mkEgressIgnoreCIDR {
  NodeIPv4 : list string; NodeIPv6 : list string;
  PodCIDRv4 : list string; PodCIDRv6 : list string;
  ClusterIPv4 : list string; ClusterIPv6 : list string }.

(** The [addIP] closure: [(ipv4, ipv6)] extended. *)
Definition addIP (items : list string) (acc : list string * list string)
    : list string * list string :=
  fold_left (fun '(ipv4, ipv6) item =>
      match ParseIP item with
      | Some ip =>
          match To4 ip with
          | Some _ => ((ipv4 ++ [IP_String ip])%list, ipv6)
          | None =>
              match To16 ip with
              | Some _ => (ipv4, (ipv6 ++ [IP_String ip])%list)
              | None => (ipv4, ipv6)
              end
          end
      | None => (ipv4, ipv6)
      end) items acc.

(** The [addCIDR] closure. *)
Definition addCIDR (items : list string) (acc : list string * list string)
    : list string * list string :=
  fold_left (fun '(ipv4, ipv6) item =>
      match ParseCIDR item with
      | None => (ipv4, ipv6)
      | Some (ip, cidr) =>
          match To4 ip with
          | Some _ => ((ipv4 ++ [IPNet_String cidr])%list, ipv6)
          | None =>
              match To16 ip with
              | Some _ => (ipv4, (ipv6 ++ [IPNet_String cidr])%list)
              | None => (ipv4, ipv6)
              end
          end
      end) items acc.

(** The lists [ipv4] and [ipv6] built by [reconcileClusterInfo]. *)
Definition wantLists (status : EgressIgnoreCIDR) (custom : list string)
    : list string * list string :=
  addCIDR custom
    (addCIDR (ClusterIPv6 status) (addCIDR (ClusterIPv4 status)
      (addCIDR (PodCIDRv6 status) (addCIDR (PodCIDRv4 status)
        (addIP (NodeIPv6 status) (addIP (NodeIPv4 status) ([], []))))))).

(** Modelled from the spec: the set backend of pkg/ipset (not among the
    sources). The kernel's sets with their members, and the calls made. *)
Record SetBackend := mkSetBackend {
  setEntries : list (string * list string);
  backendCalls : list IpsetCall }.

Definition lookupSet (name : string) (st : SetBackend) : option (list string) :=
  match find (fun kv => String.eqb (fst kv) name) (setEntries st) with
  | Some (_, v) => Some v
  | None => None
  end.

Fixpoint replaceSet (name : string) (v : list string) (l : list (string * list string))
    : list (string * list string) :=
  match l with
  | [] => []
  | (k, w) :: l' => if String.eqb k name then (k, v) :: l' else (k, w) :: replaceSet name v l'
  end.

(** Modelled from the spec: [CreateSet(set, ignoreExist = true)]. *)
Definition backendCreateSet (s : IPSet) (st : SetBackend) : option SetBackend :=
  let calls := (backendCalls st ++ [CreateSet s])%list in
  match lookupSet (SetNameOf s) st with
  | Some _ => Some (mkSetBackend (setEntries st) calls)
  | None => Some (mkSetBackend ((setEntries st ++ [(SetNameOf s, [])])%list) calls)
  end.

(** Modelled from the spec: [ListEntries(name)]; a missing set is an
    error. *)
Definition ListEntries (name : string) (st : SetBackend) : option (list string) :=
  lookupSet name st.

(** Modelled from the spec: [AddEntry(member, set, ignoreExist = true)]. *)
Definition backendAddEntry (item : string) (set : string) (st : SetBackend)
    : option SetBackend :=
  let calls := (backendCalls st ++ [AddEntry item set])%list in
  match lookupSet set st with
  | Some members =>
      let members' := if existsb (String.eqb item) members then members
                      else (members ++ [item])%list in
      Some (mkSetBackend (replaceSet set members' (setEntries st)) calls)
  | None => None
  end.

(** Modelled from the spec: [DelEntry(member, set)]; deleting a member
    that is not in the set is an error. *)
Definition backendDelEntry (item : string) (set : string) (st : SetBackend)
    : option SetBackend :=
  let calls := (backendCalls st ++ [DelEntry item set])%list in
  match lookupSet set st with
  | Some members =>
      if existsb (String.eqb item) members
      then Some (mkSetBackend (replaceSet set (filter (fun m => negb (String.eqb m item)) members)
                                 (setEntries st)) calls)
      else None
  | None => None
  end.

Definition EgressClusterCIDRIPv4 : string := "egress-cluster-cidr-ipv4".
Definition EgressClusterCIDRIPv6 : string := "egress-cluster-cidr-ipv6".

(** The result of [r.client.Get] of the EgressClusterInfo. *)
Inductive InfoLookup :=
| InfoFound (deletionTimestampSet : bool) (status : EgressIgnoreCIDR)
| InfoAbsent
| InfoLookupError.

(** [reconcileClusterInfo]: [Some st'] when it returns nil, [None] when it
    returns an error. *)
Definition reconcileClusterInfo (lookup : InfoLookup) (custom : list string)
    (st : SetBackend) : option SetBackend :=
  match lookup with
  | InfoLookupError => None
  | InfoAbsent => Some st
  | InfoFound true _ => Some st
  | InfoFound false status =>
      let '(ipv4, ipv6) := wantLists status custom in
      let ipSet4 := mkIPSet EgressClusterCIDRIPv4 "hash:net" "inet" in
      let ipSet6 := mkIPSet EgressClusterCIDRIPv6 "hash:net" "inet6" in
      match backendCreateSet ipSet4 st with
      | None => None
      | Some st =>
      match backendCreateSet ipSet6 st with
      | None => None
      | Some st =>
      match ListEntries EgressClusterCIDRIPv4 st, ListEntries EgressClusterCIDRIPv6 st with
      | Some gotIPv4, Some gotIPv6 =>
          match process gotIPv4 ipv4 (fun item => backendAddEntry item EgressClusterCIDRIPv4)
                  (fun item => backendDelEntry item EgressClusterCIDRIPv4) st with
          | None => None
          | Some st =>
              process gotIPv6 ipv6 (fun item => backendAddEntry item EgressClusterCIDRIPv6)
                (fun item => backendDelEntry item EgressClusterCIDRIPv6) st
          end
      | _, _ => None
      end
      end
      end
  end.

End ClusterInfo.

Module PolicyReconcile.

Import IPSets Agent.
Local Open Scope string_scope.

(** The result of [r.client.Get] of the EgressPolicy. *)
Inductive PolicyLookup :=
| PolicyFound (deletionTimestampSet : bool)
| PolicyAbsent
| PolicyLookupError.

(** What the agent owns on the node: the ipsets (with the reconciler's
    cache) and the rule tables. *)
Record AgentState := mkAgentState { ipsets : IpsetState; ruleTables : Tables }.

(** [reconcilePolicy]: the new state and whether it returns nil. The path
    of a live policy (the gateway lookup and [updatePolicyIPSet]) is the
    argument [updatePath]. *)
Definition reconcilePolicy (destroy_err : string -> bool) (lookup : PolicyLookup)
    (updatePath : AgentState -> AgentState * bool) (ns name : string) (st : AgentState)
    : AgentState * bool :=
  let deleted := match lookup with
                 | PolicyLookupError => None
                 | PolicyAbsent => Some true
                 | PolicyFound ts => Some ts
                 end in
  match deleted with
  | None => (st, false)
  | Some true =>
      let setNames := buildIPSetNamesByPolicy ns name true true in
      (mkAgentState (fold_left (fun s set => removeIPSet destroy_err (Name set) s)
                       setNames (ipsets st))
                    (ruleTables st), true)
  | Some false => updatePath st
  end.

End PolicyReconcile.

Module PolicyRules.

Import IPSets IPTables.
Local Open Scope string_scope.

(** A [utils.SyncMap[string, iptables.Rule]]: [Store] replaces the value
    of a key or adds the key, [Delete] removes it, [Range] visits the
    entries (here in list order). *)
Definition RuleMap := list (string * Rule).

Definition rm_load (k : string) (m : RuleMap) : option Rule :=
  match find (fun kv => String.eqb (fst kv) k) m with
  | Some (_, v) => Some v
  | None => None
  end.

Fixpoint rm_store (k : string) (v : Rule) (m : RuleMap) : RuleMap :=
  match m with
  | [] => [(k, v)]
  | (k', v') :: m' => if String.eqb k' k then (k, v) :: m' else (k', v') :: rm_store k v m'
  end.

Definition rm_delete (k : string) (m : RuleMap) : RuleMap :=
  filter (fun kv => negb (String.eqb (fst kv) k)) m.

(** [buildRuleList]. *)
Definition buildRuleList (m : RuleMap) : list Rule := map snd m.

Record RuleMaps := mkRuleMaps { ruleV4Map : RuleMap; ruleV6Map : RuleMap }.

(** [updatePolicyRule]: [None] is the panic on a version other than 4
    and 6; otherwise the rule list, [changed] and the new maps. *)
Definition updatePolicyRule (policyName : string) (mark version : Z) (st : RuleMaps)
    : option (list Rule * bool * RuleMaps) :=
  let sel := if (version =? 4)%Z then Some (ruleV4Map st, "v4-")
             else if (version =? 6)%Z then Some (ruleV6Map st, "v6-")
             else None in
  match sel with
  | None => None
  | Some (ruleMap, tmp) =>
      match rm_load policyName ruleMap with
      | Some _ => Some ([], false, st)
      | None =>
          let matchCriteria :=
            [SourceIPSet (ipsetName ("egress-src-" ++ tmp) policyName);
             DestIPSet (ipsetName ("egress-dst-" ++ tmp) policyName);
             CTDirectionOriginal] in
          let rule := mkRule matchCriteria (SetMaskedMarkAction mark 4294967295) [] in
          let ruleMap' := rm_store policyName rule ruleMap in
          let st' := if (version =? 4)%Z then mkRuleMaps ruleMap' (ruleV6Map st)
                     else mkRuleMaps (ruleV4Map st) ruleMap' in
          Some (buildRuleList ruleMap', true, st')
      end
  end.

(** [removePolicyRule]; [None] is the panic on an unsupported version. *)
Definition removePolicyRule (policyName : string) (version : Z) (st : RuleMaps)
    : option (list Rule * bool * RuleMaps) :=
  let sel := if (version =? 4)%Z then Some (ruleV4Map st)
             else if (version =? 6)%Z then Some (ruleV6Map st)
             else None in
  match sel with
  | None => None
  | Some ruleMap =>
      match rm_load policyName ruleMap with
      | None => Some ([], false, st)
      | Some _ =>
          let ruleMap' := rm_delete policyName ruleMap in
          let st' := if (version =? 4)%Z then mkRuleMaps ruleMap' (ruleV6Map st)
                     else mkRuleMaps (ruleV4Map st) ruleMap' in
          Some (buildRuleList ruleMap', true, st')
      end
  end.

(** The rule map of a version. *)
Definition ruleMapOf (version : Z) (st : RuleMaps) : RuleMap :=
  if (version =? 4)%Z then ruleV4Map st else ruleV6Map st.

End PolicyRules.

Module PolicyIPSet.

Import GoNet Police IPSets Agent.
Local Open Scope string_scope.

(** [SetNames.Map] and the [for ... { if err != nil { return err } }]
    loops: the state and whether an error was returned. *)
Fixpoint mapErr {A S : Type} (f : A -> S -> S * bool) (l : list A) (s : S) : S * bool :=
  match l with
  | [] => (s, false)
  | x :: l' =>
      let '(s1, err) := f x s in
      if err then (s1, true) else mapErr f l' s1
  end.

(** [SyncMap.Store] on the set cache. *)
Fixpoint map_store (k : string) (v : IPSet) (m : list (string * IPSet))
    : list (string * IPSet) :=
  match m with
  | [] => [(k, v)]
  | (k', v') :: m' => if String.eqb k' k then (k, v) :: m' else (k', v') :: map_store k v m'
  end.

(** The kernel's sets with their members, beside the cache, the kernel's
    set names and the calls of [IpsetState]. *)
Record Kernel := mkKernel {
  kstate : IpsetState;
  members : list (string * list string) }.

Definition lookup_members (n : string) (ms : list (string * list string)) : list string :=
  match find (fun kv => String.eqb (fst kv) n) ms with
  | Some (_, v) => v
  | None => []
  end.

Fixpoint set_members (n : string) (v : list string) (ms : list (string * list string))
    : list (string * list string) :=
  match ms with
  | [] => [(n, v)]
  | (k, w) :: ms' => if String.eqb k n then (n, v) :: ms' else (k, w) :: set_members n v ms'
  end.

Definition withCalls (k : Kernel) (c : IpsetCall) : IpsetState :=
  mkIpsetState (ipsetMap (kstate k)) (kernelSets (kstate k))
    (ipsetCalls (kstate k) ++ [c])%list.

(** Modelled from the spec: [CreateSet(set, ignoreExist = true)];
    [create_err] tells whether the kernel refuses. A new set is empty. *)
Definition backendCreateSet (create_err : string -> bool) (s : IPSet) (k : Kernel)
    : Kernel * bool :=
  let n := SetNameOf s in
  let st := withCalls k (CreateSet s) in
  if create_err n then (mkKernel st (members k), true)
  else if mem n (kernelSets st) then (mkKernel st (members k), false)
  else (mkKernel (mkIpsetState (ipsetMap st) (kernelSets st ++ [n])%list (ipsetCalls st))
                 (set_members n [] (members k)), false).

(** Modelled from the spec: [ListEntries(name)]; [None] is the error of a
    set that does not exist. *)
Definition ListEntries (n : string) (k : Kernel) : option (list string) :=
  if mem n (kernelSets (kstate k)) then Some (lookup_members n (members k)) else None.

(** Modelled from the spec: [AddEntry(member, set, ignoreExist = true)];
    adding to a set that does not exist fails. *)
Definition backendAddEntry (ip : string) (s : IPSet) (k : Kernel) : Kernel * bool :=
  let n := SetNameOf s in
  let st := withCalls k (AddEntry ip n) in
  if mem n (kernelSets st)
  then (mkKernel st (set_members n (set_add ip (lookup_members n (members k))) (members k)),
        false)
  else (mkKernel st (members k), true).

(** Modelled from the spec: [DelEntry(member, set)]; deleting a member
    that is not there, or from a set that does not exist, fails. *)
Definition backendDelEntry (ip : string) (n : string) (k : Kernel) : Kernel * bool :=
  let st := withCalls k (DelEntry ip n) in
  if mem n (kernelSets st) && mem ip (lookup_members n (members k))
  then (mkKernel st (set_members n (set_del ip (lookup_members n (members k))) (members k)),
        false)
  else (mkKernel st (members k), true).

(** [removeIPSet] on the kernel with members. *)
Definition removeIPSetK (destroy_err : string -> bool) (name : string) (k : Kernel) : Kernel :=
  mkKernel (removeIPSet destroy_err name (kstate k)) (members k).

(** [createIPSet]: the new state and whether it returns an error. *)
Definition createIPSet (create_err : string -> bool) (enableIPv4 enableIPv6 : bool)
    (set : SetName) (k : Kernel) : Kernel * bool :=
  match map_load (Name set) (ipsetMap (kstate k)) with
  | Some _ => (k, false)
  | None =>
      if (match Stack set with IPv4 => true | IPv6 => false end) && negb enableIPv4
      then (k, false)
      else if (match Stack set with IPv4 => false | IPv6 => true end) && negb enableIPv6
      then (k, false)
      else
        let ipSet := mkIPSet (Name set) "hash:net" (HashFamily (Stack set)) in
        let '(k1, err) := backendCreateSet create_err ipSet k in
        if err then (k1, true)
        else (mkKernel (mkIpsetState (map_store (Name set) ipSet (ipsetMap (kstate k1)))
                          (kernelSets (kstate k1)) (ipsetCalls (kstate k1)))
                       (members k1), false)
  end.

(** [egressv1.EgressEndpoint] and the endpoint slices (namespaced or
    cluster-scoped) with their policy-name label. *)
Record EgressEndpoint := mkEgressEndpoint {
  EpNode : string; EpIPv4 : list string; EpIPv6 : list string }.

Record EndpointSlice := mkEndpointSlice {
  SliceNamespace : string;
  SlicePolicyLabel : option string;
  SliceDeleting : bool;
  Endpoints : list EgressEndpoint }.

(** What [updatePolicyIPSet] reads besides the kernel: the configuration
    and the [List] answers of the API server for EgressClusterEndpointSlice
    ([true]) and EgressEndpointSlice ([false]) objects, [None] being an
    error. *)
Record IPSetEnv := mkIPSetEnv {
  envNodeName : string;
  envEnableIPv4 : bool;
  envEnableIPv6 : bool;
  envCreateErr : string -> bool;
  listSlices : bool -> option (list EndpointSlice) }.

(** [r.client.List(ctx, eps, opt)] with the label selector
    [LabelPolicyName = policyName] and no namespace option. *)
Definition listByLabel (env : IPSetEnv) (clusterScoped : bool) (policyName : string)
    : option (list EndpointSlice) :=
  match listSlices env clusterScoped with
  | Some items =>
      Some (filter (fun ep => match SlicePolicyLabel ep with
                              | Some l => String.eqb l policyName
                              | None => false
                              end) items)
  | None => None
  end.

(** [getPolicySrcIPs]. *)
Definition getPolicySrcIPs (env : IPSetEnv) (policyNs policyName : string)
    (filter : EgressEndpoint -> bool) : option (list string * list string) :=
  match listByLabel env (String.eqb policyNs "") policyName with
  | None => None
  | Some items =>
      Some (fold_left (fun acc ep =>
              if negb (SliceDeleting ep) then
                fold_left (fun '(ipv4List, ipv6List) e =>
                    if filter e then ((ipv4List ++ EpIPv4 e)%list, (ipv6List ++ EpIPv6 e)%list)
                    else (ipv4List, ipv6List))
                  (Endpoints ep) acc
              else acc) items ([], []))
  end.

(** The filter of [updatePolicyIPSet]: endpoints of this node, or all of
    them when the EIP is on this node. *)
Definition srcFilter (nodeName : string) (isEipNodeSet : bool) (e : EgressEndpoint) : bool :=
  if String.eqb (EpNode e) nodeName then true
  else if isEipNodeSet then true
  else false.

(** The second [setNames.Map] of [updatePolicyIPSet]: the entries of
    [toAddList] and [toDelList] it sets, in the order of [setNames]. *)
Definition diffOf (env : IPSetEnv) (src4 src6 dst4 dst6 : list string) (k : Kernel)
    (set : SetName) : option (string * (list string * list string)) :=
  let oldIPList := match ListEntries (Name set) k with Some l => l | None => [] end in
  let isV4 := match Stack set with IPv4 => true | IPv6 => false end in
  match Kind set with
  | IPSrc =>
      if isV4 && envEnableIPv4 env then Some (Name set, findDiff oldIPList src4)
      else if envEnableIPv6 env then Some (Name set, findDiff oldIPList src6)
      else None
  | IPDst =>
      if isV4 && envEnableIPv4 env then Some (Name set, findDiff oldIPList dst4)
      else if envEnableIPv6 env then Some (Name set, findDiff oldIPList dst6)
      else None
  end.

Fixpoint filter_some {A : Type} (l : list (option A)) : list A :=
  match l with
  | [] => []
  | Some x :: l' => x :: filter_some l'
  | None :: l' => filter_some l'
  end.

(** The loop over [toAddList]: a set missing from the cache is skipped. *)
Definition addEntries (toAddList : list (string * list string)) (k : Kernel) : Kernel * bool :=
  mapErr (fun '(set, ips) k =>
      match map_load set (ipsetMap (kstate k)) with
      | None => (k, false)
      | Some ipSet => mapErr (fun ip k => backendAddEntry ip ipSet k) ips k
      end) toAddList k.

(** The loop over [toDelList]. *)
Definition delEntries (toDelList : list (string * list string)) (k : Kernel) : Kernel * bool :=
  mapErr (fun '(name, ips) k => mapErr (fun ip k => backendDelEntry ip name k) ips k)
    toDelList k.

(** [updatePolicyIPSet]: the new state and whether it returns an error.
    Go visits the maps [toAddList] and [toDelList] in an unspecified
    order; the model visits them in the order of [setNames]. *)
Definition updatePolicyIPSet (env : IPSetEnv) (policyNs policyName : string)
    (isEipNodeSet : bool) (destSubnet : list string) (k : Kernel) : Kernel * bool :=
  match getPolicySrcIPs env policyNs policyName (srcFilter (envNodeName env) isEipNodeSet) with
  | None => (k, true)
  | Some (srcIPv4List, srcIPv6List) =>
  match getDstCIDR destSubnet with
  | None => (k, true)
  | Some (dstIPv4List, dstIPv6List) =>
  let setNames := buildIPSetNamesByPolicy policyNs policyName
                    (envEnableIPv4 env) (envEnableIPv6 env) in
  let '(k1, err) := mapErr (createIPSet (envCreateErr env) (envEnableIPv4 env)
                              (envEnableIPv6 env)) setNames k in
  if err then (k1, true) else
  let diffs := filter_some (map (diffOf env srcIPv4List srcIPv6List dstIPv4List dstIPv6List k1)
                              setNames) in
  let '(k2, err) := addEntries (map (fun d => (fst d, fst (snd d))) diffs) k1 in
  if err then (k2, true) else
  delEntries (map (fun d => (fst d, snd (snd d))) diffs) k2
  end
  end.

(** [findElements]: [parentCopy] is made with the length of [parent] but
    never filled, so [parentMap] holds at most the empty string. *)
Definition findElements (include : bool) (parent sub : list string) : list string :=
  let parentCopy := repeat "" (length parent) in
  filter (fun s => Bool.eqb (mem s parentCopy) include) sub.

(** [parseMarkToInt]: the [int(i64)] of the parsed mark. *)
Definition parseMarkToInt (mark : string) : option Z :=
  ParseInt16_32 (remove_0x (GoNet.chars mark)).

(** The loop of [reconcilePolicy] (and [reconcileClusterPolicy]) that
    looks for the node of the policy's EIP in the gateway status. *)
Definition policyNodeName (pName pNamespace : string) (gateway : EgressGateway) : string :=
  fold_left (fun nodeName node =>
      fold_left (fun nodeName eip =>
          fold_left (fun nodeName p =>
              if String.eqb (PName p) pName && String.eqb (PNamespace p) pNamespace
              then NName node else nodeName) (EPolicies eip) nodeName)
        (NEips node) nodeName)
    (NodeList gateway) "".

(** The update path of [reconcilePolicy] and [reconcileClusterPolicy],
    once the policy was found and is not being deleted: the EgressGateway
    is fetched under the policy's own namespace and name ([None] is an
    error of the [Get]), then [updatePolicyIPSet] runs with [flag]; the
    boolean is whether a requeue with an error is returned. *)
Definition reconcilePolicyUpdate (env : IPSetEnv)
    (getGateway : string -> string -> option EgressGateway)
    (policyNs policyName : string) (destSubnet : list string) (k : Kernel) : Kernel * bool :=
  match getGateway policyNs policyName with
  | None => (k, true)
  | Some gateway =>
      let nodeName := policyNodeName policyName policyNs gateway in
      let flag := if String.eqb nodeName (envNodeName env) then true else false in
      updatePolicyIPSet env policyNs policyName flag destSubnet k
  end.

(** Whether a node of the gateway status lists the policy. *)
Definition listsPolicy (pName pNamespace : string) (node : EgressIPStatus) : bool :=
  existsb (fun eip => existsb (fun p => String.eqb (PName p) pName &&
                                        String.eqb (PNamespace p) pNamespace)
                        (EPolicies eip)) (NEips node).

(** Whether [createIPSet] creates sets of a family. *)
Definition familyEnabled (stack : IPStack) (enableIPv4 enableIPv6 : bool) : bool :=
  match stack with IPv4 => enableIPv4 | IPv6 => enableIPv6 end.

(** The cache only holds sets under their own name, and they are in the
    kernel. *)
Definition cacheOK (k : Kernel) : Prop :=
  forall n v, map_load n (ipsetMap (kstate k)) = Some v ->
              SetNameOf v = n /\ In n (kernelSets (kstate k)).

(** The entries a set of the policy should hold. *)
Definition desiredOf (src4 src6 dst4 dst6 : list string) (set : SetName) : list string :=
  match Stack set, Kind set with
  | IPv4, IPSrc => src4
  | IPv6, IPSrc => src6
  | IPv4, IPDst => dst4
  | IPv6, IPDst => dst6
  end.

(** The entries for a set name in a list of [(set, entries)]. *)
Definition assocL (n : string) (l : list (string * list string)) : list string :=
  match find (fun p => String.eqb (fst p) n) l with
  | Some (_, ips) => ips
  | None => []
  end.

End PolicyIPSet.

Module Spec.

Import IPSets.
Local Open Scope string_scope.

(** The canonical key of a policy: its name when cluster-scoped, else
    namespace-name. *)
Definition policy_key (ns name : string) : string :=
  if String.eqb ns "" then name else ns ++ "-" ++ name.

(** The prefix of each of the four set names. *)
Definition set_prefix (stack : IPStack) (kind : IPKind) : string :=
  match stack, kind with
  | IPv4, IPSrc => "egress-src-v4-"
  | IPv6, IPSrc => "egress-src-v6-"
  | IPv4, IPDst => "egress-dst-v4-"
  | IPv6, IPDst => "egress-dst-v6-"
  end.

Import IPTables Agent.

(** Every policy named by an EIP of a gateway status, in listing order. *)
Definition listedPolicies (gateways : list EgressGateway) : list Policy :=
  flat_map (fun g => flat_map (fun n => flat_map EPolicies (NEips n)) (NodeList g))
    gateways.

(** The source set of a policy for an IP family. *)
Definition srcSetOf (version : Z) (p : Policy) : string :=
  ipsetName ("egress-src-" ++ family version) (policyName p).

(** How many rules of a chain match on the source set [set]. *)
Definition rulesMatchingSrc (set : string) (rules : list Rule) : nat :=
  length (filter (fun r => if in_dec MatchCriterion_eq_dec (SourceIPSet set) (Match r)
                           then true else false) rules).

(** The EIP has an IPv4 or an IPv6 address. *)
Definition eipHasAddress (ip : Agent.IP) : bool :=
  negb (String.eqb (V4 ip) "" && String.eqb (V6 ip) "").

(** Every rule of [chainRules] is in its built-in chain of [t]. *)
Definition glueIn (chainRules : list (string * list Rule)) (t : Table) : Prop :=
  forall c rs r, In (c, rs) chainRules -> In r rs -> In r (assoc_get c (inserted t)).

(** Two tables that differ at most in the order of the rules of each
    engine-owned chain: same name, family and built-in chain rules, the
    same chains in the same order, each with a permutation of the rules. *)
Definition sameUpToRuleOrder (t1 t2 : Table) : Prop :=
  TableName t1 = TableName t2 /\ IPVersion t1 = IPVersion t2 /\
  inserted t1 = inserted t2 /\
  Forall2 (fun c1 c2 => fst c1 = fst c2 /\ Permutation (snd c1) (snd c2))
    (chains t1) (chains t2).

End Spec.

(** ** Concrete cluster states used by the examples below *)
Module Scenarios.

Import IPTables Agent GoMapOrder.
Local Open Scope string_scope.

Definition app : Policy := mkPolicy "app" "ns1".

Definition web : Policy := mkPolicy "web" "ns1".

(** The gateway status binds the EIP 192.168.10.5 of [app] and of [web]
    to [node]. *)
Definition gatewayTwoOn (node : string) : EgressGateway :=
  mkEgressGateway [mkEgressIPStatus node [mkEip "192.168.10.5" "" [app; web]]].

(** Every map visited in the order of its list. *)
Definition listOrder : MapOrder := mkMapOrder (fun _ _ _ => 0%nat) (fun _ _ _ => 0%nat).

(** [web] before [app], and the FORWARD chain last. *)
Definition webFirst : MapOrder :=
  mkMapOrder (fun _ _ p => if String.eqb (PName p) "app" then 1%nat else 0%nat)
             (fun _ _ c => if String.eqb c "FORWARD" then 1%nat else 0%nat).

(** The gateway status binds the EIP 192.168.10.5 of [app] to [node]. *)
Definition gatewayOn (node : string) : EgressGateway :=
  mkEgressGateway [mkEgressIPStatus node [mkEip "192.168.10.5" "" [app]]].

(** The agent of nodeA; [nodeMark] is what reading the [EgressNode] of the
    EIP's node gives. *)
Definition envOf (gateways : list EgressGateway) (nodeMark : option string) : Env :=
  mkEnv "nodeA" "0x26000000" (Some gateways)
    (fun _ _ => Found ["10.6.1.92/32"]) (fun _ _ => NotFound)
    (fun _ => nodeMark) (fun _ _ _ _ => true) (fun _ => false).

(** IPv4 only: one mangle, one nat and one filter table, all empty. *)
Definition emptyTables : Tables :=
  mkTables [mkTable "mangle" 4 [] []] [mkTable "nat" 4 [] []] [mkTable "filter" 4 [] []].

(** Whether a rule of the tables matches on the set [n]: the kernel
    refuses to destroy such a set. *)
Definition referencedBy (ts : Tables) (n : string) : bool :=
  existsb (fun t => existsb (fun cr => existsb (fun r =>
      existsb (fun m => match m with
                        | SourceIPSet s | DestIPSet s | NotDestIPSet s => String.eqb s n
                        | _ => false
                        end) (Match r)) (snd cr)) (chains t ++ inserted t))
    (mangleTables ts ++ natTables ts ++ filterTables ts).

End Scenarios.

(** * Properties *)

Import GoNet Police IPSets Spec IPTables Agent Scenarios ClusterInfo PolicyReconcile
  PolicyRules GoMapOrder.
Local Open Scope string_scope.

(** ** Helper facts on lists of strings *)

Lemma mem_In (s : string) (l : list string) : mem s l = true <-> In s l.
Proof.
  unfold mem. rewrite existsb_exists. split.
  - intros [y [Hy Heq]]. apply String.eqb_eq in Heq. subst. exact Hy.
  - intros H. exists s. split; [exact H | apply String.eqb_refl].
Qed.

Lemma mem_false_not_In (s : string) (l : list string) :
  mem s l = false <-> ~ In s l.
Proof.
  rewrite <- mem_In. destruct (mem s l); split; congruence.
Qed.

Lemma In_fold_set_add (L M : list string) (x : string) :
  In x (fold_left (fun m y => set_add y m) L M) <-> In x M \/ In x L.
Proof.
  revert M. induction L as [|y L IH]; intros M; simpl.
  - tauto.
  - rewrite IH. unfold set_add. destruct (mem y M) eqn:Hm.
    + apply mem_In in Hm. split; [tauto|]. intros [H|[H|H]]; subst; tauto.
    + rewrite in_app_iff. simpl. tauto.
Qed.

Lemma In_fold_set_del (L M : list string) (x : string) :
  In x (fold_left (fun m y => set_del y m) L M) <-> In x M /\ ~ In x L.
Proof.
  revert M. induction L as [|y L IH]; intros M; simpl.
  - tauto.
  - rewrite IH. unfold set_del. rewrite filter_In.
    destruct (String.eqb x y) eqn:He; simpl.
    + apply String.eqb_eq in He. subst. split; [intuition discriminate|].
      intros [_ H]. exfalso. apply H. left. reflexivity.
    + apply String.eqb_neq in He. split; [|tauto]. intros [[H1 _] H2].
      split; [exact H1|]. intros [H3|H3]; [congruence|tauto].
Qed.

Lemma In_filter_not_mem (x : string) (l ref : list string) :
  In x (filter (fun s => negb (mem s ref)) l) <-> In x l /\ ~ In x ref.
Proof.
  rewrite filter_In. rewrite negb_true_iff, mem_false_not_In. tauto.
Qed.

Lemma filter_not_mem_nil (l ref : list string) :
  (forall x, In x l -> In x ref) -> filter (fun s => negb (mem s ref)) l = [].
Proof.
  induction l as [|y l IH]; intros H; simpl; [reflexivity|].
  assert (Hy : mem y ref = true) by (apply mem_In, H; left; reflexivity).
  rewrite Hy. simpl. apply IH. intros x Hx. apply H. right. exact Hx.
Qed.

Lemma In_dec_string (x : string) (l : list string) : In x l \/ ~ In x l.
Proof.
  destruct (mem x l) eqn:H; [left; apply mem_In | right; apply mem_false_not_In];
    exact H.
Qed.

(** ** Facts on [net.ParseCIDR] *)

Lemma p6finish_nonnil r ip : p6finish r = Some ip -> ip <> [].
Proof.
  unfold p6finish. destruct r as [[[s acc] ell]|]; [|discriminate].
  destruct s; [|discriminate].
  destruct (Nat.ltb (length acc) 16) eqn:Hl.
  - destruct ell as [e|]; [|discriminate]. intros H. injection H as <-.
    apply Nat.ltb_lt in Hl. intros Hc.
    apply app_eq_nil in Hc. destruct Hc as [_ Hc].
    apply app_eq_nil in Hc. destruct Hc as [Hc _].
    apply (f_equal (@length Z)) in Hc. rewrite repeat_length in Hc.
    change ((16 - length acc)%nat = 0%nat) in Hc. lia.
  - destruct ell; [discriminate|]. intros H. inversion H. subst.
    apply Nat.ltb_ge in Hl. intros Hc. subst. simpl in Hl. lia.
Qed.

Lemma parseIPv6_nonnil s ip : parseIPv6 s = Some ip -> ip <> [].
Proof.
  unfold parseIPv6. destruct s as [|a [|b rest]]; try apply p6finish_nonnil.
  destruct (is_char a 58 && is_char b 58); [|apply p6finish_nonnil].
  destruct rest; [|apply p6finish_nonnil].
  intros H. inversion H. discriminate.
Qed.

Lemma ParseCIDR_ip_nonnil s ip n : ParseCIDR s = Some (ip, n) -> ip <> [].
Proof.
  unfold ParseCIDR. destruct (split_slash (chars s)) as [[addr mask]|];
    [|discriminate].
  destruct (parseIPv4 addr) as [ip4|] eqn:H4.
  - destruct (dtoi mask) as [[k i]|]; [|discriminate].
    destruct (_ && _ && _); [|discriminate]. intros H. inversion H. subst.
    unfold parseIPv4 in H4. destruct (p4loop 4 true addr []); inversion H4.
    discriminate.
  - destruct (parseIPv6 addr) as [ip6|] eqn:H6; [|discriminate].
    destruct (dtoi mask) as [[k i]|]; [|discriminate].
    destruct (_ && _ && _); [|discriminate]. intros H. inversion H. subst.
    eapply parseIPv6_nonnil; eassumption.
Qed.

Definition cidr_parses (s : string) : bool :=
  match ParseCIDR s with Some _ => true | None => false end.

Lemma getDstCIDR_go_eq (l v4 v6 : list string) :
  getDstCIDR_go l v4 v6 =
  if forallb cidr_parses l
  then Some ((v4 ++ map cidr_canonical (filter cidr_is_v4 l))%list,
             (v6 ++ map cidr_canonical (filter cidr_is_v6 l))%list)
  else None.
Proof.
  revert v4 v6. induction l as [|item l IH]; intros v4 v6; simpl.
  - rewrite !app_nil_r. reflexivity.
  - unfold cidr_parses at 1. unfold cidr_is_v4 at 1. unfold cidr_is_v6 at 1.
    destruct (ParseCIDR item) as [[ip ipNet]|] eqn:Hp; simpl; [|reflexivity].
    pose proof (ParseCIDR_ip_nonnil _ _ _ Hp) as Hnn.
    assert (Hc : cidr_canonical item = IPNet_String ipNet)
      by (unfold cidr_canonical; rewrite Hp; reflexivity).
    destruct ip as [|b ip']; [congruence|].
    destruct (To4 (b :: ip')); simpl; rewrite IH;
      destruct (forallb cidr_parses l); try reflexivity;
      rewrite Hc; repeat rewrite <- app_assoc; reflexivity.
Qed.

(** ** Claim C5: the normalization and the diff of [findDiff] *)

(** C5 (code defect). [findDiff] strips the suffix "/32" from every entry
    of [newList], also from an IPv6 prefix of length 32 such as
    "2001:db8::/32": the entry becomes the single host "2001:db8::",
    whereas the canonical network form of that CIDR is "2001:db8::/32". *)
Theorem findDiff_strips_ipv6_prefix32 :
  findDiff [] ["2001:db8::/32"] = (["2001:db8::"], []) /\
  cidr_canonical "2001:db8::/32" = "2001:db8::/32" /\
  spec_normalize "2001:db8::/32" = "2001:db8::/32" /\
  ~ In (spec_normalize "2001:db8::/32") (fst (findDiff [] ["2001:db8::/32"])).
Proof.
  vm_compute. split; [reflexivity|]. split; [reflexivity|].
  split; [reflexivity|]. intros [H|H]; [discriminate|contradiction].
Qed.

(** ** Claim C6: [findDiff] on equal lists, and applying a diff *)

(** C6 (counterexample). [findDiff A A] is not empty when an entry of [A]
    is rewritten by the normalization of the new list. *)
Lemma findDiff_self_not_empty :
  findDiff ["10.0.0.1/32"] ["10.0.0.1/32"] = (["10.0.0.1"], ["10.0.0.1/32"]) /\
  findDiff ["10.0.0.1/32"] ["10.0.0.1/32"] <> ([], []).
Proof.
  vm_compute. split; [reflexivity|discriminate].
Qed.

(** C6 (amended). [findDiff A A] returns two empty lists for every list
    [A] whose entries the normalization leaves unchanged (as the entries
    listed from a kernel set are); and for all [A] and [B], adding the
    entries of [toAdd] to a set holding [A] and then removing those of
    [toDel] leaves exactly the normalized entries of [B]. *)
Theorem findDiff_self_and_apply (A B : list string) :
  ((forall a, In a A -> findDiff_normalize a = a) -> findDiff A A = ([], [])) /\
  (forall x, In x (apply_diff A (findDiff A B)) <->
             In x (map findDiff_normalize B)).
Proof.
  split.
  - intros Hfix. unfold findDiff.
    assert (Hm : map findDiff_normalize A = A).
    { rewrite <- (map_id A) at 2. apply map_ext_in. exact Hfix. }
    rewrite Hm. rewrite !filter_not_mem_nil; auto.
  - intros x. unfold apply_diff, findDiff. simpl.
    rewrite In_fold_set_del, In_fold_set_add, !In_filter_not_mem.
    destruct (In_dec_string x A); destruct (In_dec_string x (map findDiff_normalize B));
      tauto.
Qed.

Lemma findDiff_self_and_apply_witness :
  (forall a, In a ["10.0.0.1"; "10.0.0.0/8"] -> findDiff_normalize a = a) /\
  findDiff ["10.0.0.1"; "10.0.0.0/8"] ["10.0.0.1"; "10.0.0.0/8"] = ([], []).
Proof.
  assert (Hfix : forall a, In a ["10.0.0.1"; "10.0.0.0/8"] -> findDiff_normalize a = a).
  { intros a [<-|[<-|[]]]; vm_compute; reflexivity. }
  split; [exact Hfix|].
  exact (proj1 (findDiff_self_and_apply ["10.0.0.1"; "10.0.0.0/8"] []) Hfix).
Defined.

(** ** Claim C8: [getDstCIDR] *)

(** C8 (counterexample). A destination entry that is a bare IP address
    makes [getDstCIDR] fail: [net.ParseCIDR] rejects it. *)
Lemma getDstCIDR_rejects_bare_ip : getDstCIDR ["10.6.1.92"] = None.
Proof. vm_compute. reflexivity. Qed.

(** C8 (amended). [getDstCIDR] returns an error exactly when some entry
    does not parse as a CIDR (a bare IP address among them); otherwise the
    canonical network string of every entry lands, in order, in the list of
    its family: IPv4 (including IPv4-mapped addresses) or IPv6. *)
Theorem getDstCIDR_families (l : list string) :
  (getDstCIDR l = None <-> exists item, In item l /\ ParseCIDR item = None) /\
  (forall v4 v6, getDstCIDR l = Some (v4, v6) ->
     v4 = map cidr_canonical (filter cidr_is_v4 l) /\
     v6 = map cidr_canonical (filter cidr_is_v6 l)).
Proof.
  unfold getDstCIDR. rewrite getDstCIDR_go_eq. split.
  - destruct (forallb cidr_parses l) eqn:Hf.
    + split; [discriminate|]. intros [item [Hin Hp]].
      rewrite forallb_forall in Hf. specialize (Hf item Hin).
      unfold cidr_parses in Hf. rewrite Hp in Hf. discriminate.
    + split; [|reflexivity]. intros _.
      apply Bool.not_true_iff_false in Hf. rewrite forallb_forall in Hf.
      destruct (existsb (fun s => negb (cidr_parses s)) l) eqn:He.
      * apply existsb_exists in He. destruct He as [item [Hin Hn]].
        exists item. split; [exact Hin|]. unfold cidr_parses in Hn.
        destruct (ParseCIDR item); [discriminate|reflexivity].
      * exfalso. apply Hf. intros item Hin.
        destruct (cidr_parses item) eqn:Hc; [reflexivity|].
        assert (Hx : existsb (fun s => negb (cidr_parses s)) l = true).
        { apply existsb_exists. exists item. rewrite Hc. auto. }
        congruence.
  - intros v4 v6. destruct (forallb cidr_parses l); [|discriminate].
    intros H. injection H as <- <-. split; reflexivity.
Qed.

(** ** Claim C7: the set names *)

Lemma length_hexString (b : list Z) : length (hexString b) = (2 * length b)%nat.
Proof. induction b as [|x b IH]; simpl; [reflexivity|]. rewrite IH. lia. Qed.

Lemma length_be_bytes k x : length (SHA1.be_bytes k x) = k.
Proof. unfold SHA1.be_bytes. rewrite length_map, length_seq. reflexivity. Qed.

Lemma sha1_hex_length (name : string) : length (sha1_hex name) = 40%nat.
Proof.
  unfold sha1_hex, SHA1.Sum. cbv zeta.
  destruct (fold_left SHA1.compress _ SHA1.h_init) as [[[[h0 h1] h2] h3] h4].
  rewrite length_hexString, !length_app, !length_be_bytes. reflexivity.
Qed.

Lemma string_length_append (s1 s2 : string) :
  String.length (s1 ++ s2) = (String.length s1 + String.length s2)%nat.
Proof. induction s1 as [|c s1 IH]; simpl; [reflexivity|]. rewrite IH. reflexivity. Qed.

Lemma string_length_of_chars (l : list ascii) :
  String.length (of_chars l) = length l.
Proof. induction l as [|c l IH]; simpl; [reflexivity|]. rewrite IH. reflexivity. Qed.

Lemma formatIPSetName_prefix (stack : IPStack) (kind : IPKind) (name : string) :
  formatIPSetName (set_prefix stack kind) name =
  Some (set_prefix stack kind ++ of_chars (firstn 17 (sha1_hex name))).
Proof.
  unfold formatIPSetName. cbv zeta. rewrite sha1_hex_length.
  destruct stack, kind; reflexivity.
Qed.

Lemma formatIPSetName_prefix_length (stack : IPStack) (kind : IPKind) (name : string) :
  String.length (set_prefix stack kind ++ of_chars (firstn 17 (sha1_hex name))) = 31%nat.
Proof.
  rewrite string_length_append, string_length_of_chars, length_firstn,
    sha1_hex_length.
  destruct stack, kind; reflexivity.
Qed.

(** C7. Every set name of a policy is its prefix followed by the first
    [31 - len(prefix)] hexadecimal digits of the SHA-1 of the policy's
    canonical key; [formatIPSetName] is defined (no out-of-range slice) on
    the four prefixes, every name has length 31, and each enabled family
    contributes its source and destination set. *)
Theorem ipset_names_of_policy (ns name : string) (enableIPv4 enableIPv6 : bool) :
  (forall stack kind key,
     exists s, formatIPSetName (set_prefix stack kind) key = Some s /\
               String.length s = 31%nat) /\
  (forall sn, In sn (buildIPSetNamesByPolicy ns name enableIPv4 enableIPv6) ->
     let prefix := set_prefix (Stack sn) (Kind sn) in
     formatIPSetName prefix (policy_key ns name) = Some (Name sn) /\
     Name sn = prefix ++ of_chars (firstn (31 - String.length prefix)
                                          (sha1_hex (policy_key ns name))) /\
     String.length (Name sn) = 31%nat) /\
  (forall (stack : IPStack) (kind : IPKind),
     (if stack then enableIPv4 else enableIPv6) = true ->
     exists sn, In sn (buildIPSetNamesByPolicy ns name enableIPv4 enableIPv6) /\
                Stack sn = stack /\ Kind sn = kind).
Proof.
  assert (Hkey : (if negb (String.eqb ns "") then ns ++ "-" ++ name else name)
                 = policy_key ns name).
  { unfold policy_key. destruct (String.eqb ns ""); reflexivity. }
  assert (Hname : forall stack kind,
             ipsetName (set_prefix stack kind) (policy_key ns name) =
             set_prefix stack kind ++ of_chars (firstn 17 (sha1_hex (policy_key ns name)))).
  { intros stack kind. unfold ipsetName. rewrite formatIPSetName_prefix. reflexivity. }
  split; [|split].
  - intros stack kind key. eexists. split; [apply formatIPSetName_prefix|].
    apply formatIPSetName_prefix_length.
  - intros sn Hin. unfold buildIPSetNamesByPolicy in Hin. rewrite Hkey in Hin.
    assert (Hsn : exists stack kind, sn = mkSetName
                    (ipsetName (set_prefix stack kind) (policy_key ns name)) stack kind).
    { apply in_app_or in Hin. destruct Hin as [Hin|Hin];
        [destruct enableIPv4|destruct enableIPv6]; simpl in Hin;
        repeat (destruct Hin as [<-|Hin];
                [match goal with |- exists _ _, mkSetName _ ?a ?b = _ =>
                   exists a, b; reflexivity end|]);
        contradiction. }
    destruct Hsn as [stack [kind ->]]. simpl. rewrite Hname.
    split; [apply formatIPSetName_prefix|].
    split; [destruct stack, kind; reflexivity|].
    apply formatIPSetName_prefix_length.
  - intros stack kind Hen. unfold buildIPSetNamesByPolicy. rewrite Hkey.
    destruct stack; rewrite Hen; [exists (mkSetName (ipsetName
      (set_prefix IPv4 kind) (policy_key ns name)) IPv4 kind)
      | exists (mkSetName (ipsetName (set_prefix IPv6 kind) (policy_key ns name)) IPv6 kind)];
      (split; [|split; reflexivity]); destruct kind; simpl; rewrite ?in_app_iff;
      simpl; tauto.
Qed.

(** ** Claim C10: [removeIPSet] *)

Lemma map_load_delete (k : string) (m : list (string * IPSet)) :
  map_load k (map_delete k m) = None.
Proof.
  unfold map_load, map_delete. induction m as [|[k' v] m IH]; simpl; [reflexivity|].
  destruct (String.eqb k' k) eqn:He; simpl; [exact IH|]. rewrite He. exact IH.
Qed.

(** C10. [removeIPSet] calls [DestroySet] exactly when the name is in the
    [ipsetMap] cache: for an absent name it makes no backend call and
    changes nothing; for a present name it makes one [DestroySet] call
    and removes the name from the cache whatever [DestroySet] returns.
    It has no error result. *)
Theorem removeIPSet_cache_gated (destroy_err : string -> bool) (name : string)
    (st : IpsetState) :
  (map_load name (ipsetMap st) = None -> removeIPSet destroy_err name st = st) /\
  (forall v, map_load name (ipsetMap st) = Some v ->
     ipsetCalls (removeIPSet destroy_err name st) = (ipsetCalls st ++ [DestroySet name])%list /\
     ipsetMap (removeIPSet destroy_err name st) = map_delete name (ipsetMap st) /\
     map_load name (ipsetMap (removeIPSet destroy_err name st)) = None).
Proof.
  unfold removeIPSet. split.
  - intros H. rewrite H. reflexivity.
  - intros v H. rewrite H. unfold backendDestroySet.
    destruct (destroy_err name); simpl;
      (split; [reflexivity|split; [reflexivity|apply map_load_delete]]).
Qed.

(** ** Claim C4: the destination match of the policy rules *)

(** C4. The rule built for a policy (mark rule or SNAT rule, for the
    table's family) matches "destination not in the cluster-ignore set of
    the family" when the policy's [destSubnet] is empty, and "destination
    in the policy's own dst set" when it is not. *)
Theorem policy_rule_destination_match (policyName : string) (mark version : Z)
    (eip : Agent.IP) (destSubnet : list string) :
  let src := ipsetName ("egress-src-" ++ family version) policyName in
  let dst := ipsetName ("egress-dst-" ++ family version) policyName in
  let expected :=
    match destSubnet with
    | [] => [SourceIPSet src; NotDestIPSet (ignoreSetName version); CTDirectionOriginal]
    | _ => [SourceIPSet src; DestIPSet dst; CTDirectionOriginal]
    end in
  ignoreSetName version =
    (if (version =? 6)%Z then "egress-cluster-cidr-ipv6" else "egress-cluster-cidr-ipv4") /\
  Match (buildPolicyRule policyName mark version (isIgnoreInternalCIDR destSubnet))
    = expected /\
  (forall r, buildEipRule policyName eip version (isIgnoreInternalCIDR destSubnet) = Some r ->
             Match r = expected).
Proof.
  cbv zeta. split; [reflexivity|]. split.
  - destruct destSubnet; reflexivity.
  - intros r. unfold buildEipRule.
    destruct (String.eqb (V4 eip) "" && String.eqb (V6 eip) ""); [discriminate|].
    intros H. injection H as <-. destruct destSubnet; reflexivity.
Qed.

(** ** Claim C1: one rule per policy in the mark chain or the SNAT chain *)

(** C1 (counterexample). The EIP of [app] is on nodeB, but the
    [EgressNode] of nodeB cannot be read: [initApplyPolicy] succeeds, and
    [app] has no rule in the mark chain nor in the SNAT chain. *)
Lemma initApplyPolicy_policy_without_node_has_no_rule :
  match initApplyPolicy (envOf [gatewayOn "nodeB"] None) emptyTables with
  | Some ts' =>
      map (fun t => assoc_get MarkChain (chains t)) (mangleTables ts') = [[]] /\
      map (fun t => assoc_get SnatChain (chains t)) (natTables ts') = [[]]
  | None => False
  end.
Proof. vm_compute. split; reflexivity. Qed.

Lemma fold_left_inv {A B : Type} (P : A -> Prop) (f : A -> B -> A) (l : list B) :
  (forall a x, In x l -> P a -> P (f a x)) -> forall a, P a -> P (fold_left f l a).
Proof.
  induction l as [|x l IH]; intros Hf a Ha; simpl; [exact Ha|].
  apply IH; [intros; apply Hf; simpl; auto | apply Hf; simpl; auto].
Qed.

Lemma pmap_get_set (k q : Policy) (v : PolicyCommon) (m : PMap) :
  pmap_get q (pmap_set k v m) = if Policy_eq_dec k q then Some v else pmap_get q m.
Proof.
  induction m as [|[k' v'] m IH]; simpl.
  - destruct (Policy_eq_dec k q); reflexivity.
  - destruct (Policy_eq_dec k' k) as [->|Hne]; simpl.
    + destruct (Policy_eq_dec k q); reflexivity.
    + destruct (Policy_eq_dec k' q) as [->|Hne'].
      * destruct (Policy_eq_dec k q); [congruence|reflexivity].
      * exact IH.
Qed.

Lemma pmap_set_keys (k q : Policy) (v : PolicyCommon) (m : PMap) :
  In q (map fst (pmap_set k v m)) <-> q = k \/ In q (map fst m).
Proof.
  induction m as [|[k' v'] m IH]; simpl.
  - split; intros H; [destruct H as [<-|[]]; auto | destruct H as [->|[]]; auto].
  - destruct (Policy_eq_dec k' k) as [->|Hne]; simpl.
    + split; intros H; [destruct H as [<-|H]; auto | destruct H as [->|[->|H]]; auto].
    + rewrite IH. split; intros H; [destruct H as [<-|[->|H]] | destruct H as [->|[<-|H]]];
        auto.
Qed.

Lemma pmap_set_nodup (k : Policy) (v : PolicyCommon) (m : PMap) :
  NoDup (map fst m) -> NoDup (map fst (pmap_set k v m)).
Proof.
  induction m as [|[k' v'] m IH]; simpl; intros Hn.
  - constructor; [intros []|constructor].
  - inversion Hn as [|? ? Hnot Hn']; subst.
    destruct (Policy_eq_dec k' k) as [->|Hne]; simpl.
    + constructor; assumption.
    + constructor; [|apply IH; exact Hn'].
      rewrite pmap_set_keys. intros [H|H]; [congruence|contradiction].
Qed.

Lemma pmap_get_notin (p : Policy) (m : PMap) :
  ~ In p (map fst m) -> pmap_get p m = None.
Proof.
  induction m as [|[k v] m IH]; simpl; intros Hn; [reflexivity|].
  destruct (Policy_eq_dec k p); [exfalso; auto|apply IH; auto].
Qed.

(** The invariant of the partition loop: the two maps have distinct keys,
    all of them listed policies. *)
Definition partInv (L : list Policy) (acc : PMap * PMap) : Prop :=
  NoDup (map fst (fst acc)) /\ NoDup (map fst (snd acc)) /\
  (forall q, In q (map fst (fst acc)) \/ In q (map fst (snd acc)) -> In q L).

Lemma addEip_inv (L : list Policy) (local nodeName : string) (eip : Eip) (acc : PMap * PMap) :
  (forall q, In q (EPolicies eip) -> In q L) ->
  partInv L acc -> partInv L (addEip local nodeName acc eip).
Proof.
  intros HL. unfold addEip. apply fold_left_inv.
  intros [un sn] q Hq [H1 [H2 H3]]. simpl in *.
  destruct (String.eqb nodeName local); unfold partInv; simpl.
  - split; [exact H1|]. split; [apply pmap_set_nodup; exact H2|].
    intros x [Hx|Hx]; [apply H3; auto|].
    apply pmap_set_keys in Hx. destruct Hx as [->|Hx]; [apply HL; exact Hq|apply H3; auto].
  - split; [apply pmap_set_nodup; exact H1|]. split; [exact H2|].
    intros x [Hx|Hx]; [|apply H3; auto].
    apply pmap_set_keys in Hx. destruct Hx as [->|Hx]; [apply HL; exact Hq|apply H3; auto].
Qed.

Lemma partitionPolicies_inv (local : string) (gateways : list EgressGateway) :
  partInv (listedPolicies gateways) (partitionPolicies local gateways).
Proof.
  unfold partitionPolicies. apply fold_left_inv.
  - intros acc g Hg Hacc. apply fold_left_inv; [|exact Hacc].
    intros acc' n Hn Hacc'. apply fold_left_inv; [|exact Hacc'].
    intros acc'' e He Hacc''. apply addEip_inv; [|exact Hacc''].
    intros q Hq. unfold listedPolicies. apply in_flat_map. exists g. split; [exact Hg|].
    apply in_flat_map. exists n. split; [exact Hn|].
    apply in_flat_map. exists e. split; assumption.
  - unfold partInv. simpl. split; [constructor|]. split; [constructor|].
    intros q [[]|[]].
Qed.

Lemma refreshPolicies_shape (env : Env) (b : bool) (m m' : PMap) :
  refreshPolicies env b m = Some m' ->
  map fst m' = map fst m /\
  (forall q, match pmap_get q m, pmap_get q m' with
             | Some v, Some v' => NodeName v' = NodeName v /\ PIP v' = PIP v
             | None, None => True
             | _, _ => False
             end).
Proof.
  revert m'. induction m as [|[k v] m IH]; simpl; intros m' H.
  - injection H as <-. split; [reflexivity|]. intros q. exact I.
  - destruct (policyDestSubnet env k); [|discriminate].
    destruct (updatePolicyIPSet env (PNamespace k) (PName k) b l); [|discriminate].
    destruct (refreshPolicies env b m) as [r|] eqn:Hr; [|discriminate].
    injection H as <-. destruct (IH r eq_refl) as [Hk Hq]. simpl.
    split; [rewrite Hk; reflexivity|]. intros q.
    destruct (Policy_eq_dec k q); [simpl; split; reflexivity|apply Hq].
Qed.

Lemma rulesMatchingSrc_cons (set : string) (r : Rule) (rules : list Rule) :
  rulesMatchingSrc set (r :: rules) =
  ((if in_dec MatchCriterion_eq_dec (SourceIPSet set) (Match r) then 1 else 0)
   + rulesMatchingSrc set rules)%nat.
Proof.
  unfold rulesMatchingSrc. simpl.
  destruct (in_dec MatchCriterion_eq_dec (SourceIPSet set) (Match r)); reflexivity.
Qed.

Lemma buildPolicyRule_src (x n : string) (mark version : Z) (b : bool) :
  In (SourceIPSet x) (Match (buildPolicyRule n mark version b)) <->
  x = ipsetName ("egress-src-" ++ family version) n.
Proof.
  unfold buildPolicyRule. destruct b; simpl;
    split; [intros [H|[H|[H|[]]]]; congruence | intros ->; auto
           |intros [H|[H|[H|[]]]]; congruence | intros ->; auto].
Qed.

Lemma buildEipRule_src (x n : string) (eip : Agent.IP) (version : Z) (b : bool) (r : Rule) :
  buildEipRule n eip version b = Some r ->
  (In (SourceIPSet x) (Match r) <-> x = ipsetName ("egress-src-" ++ family version) n).
Proof.
  unfold buildEipRule. destruct (String.eqb (V4 eip) "" && String.eqb (V6 eip) "");
    [discriminate|]. intros H. injection H as <-. destruct b; simpl;
    split; [intros [H|[H|[H|[]]]]; congruence | intros ->; auto
           |intros [H|[H|[H|[]]]]; congruence | intros ->; auto].
Qed.

Lemma markRules_count (env : Env) (version : Z) (m : PMap) (rs : list Rule) (p : Policy) :
  markRules env version m = Some rs -> NoDup (map fst m) ->
  (forall q, In q (map fst m) -> srcSetOf version q = srcSetOf version p -> q = p) ->
  rulesMatchingSrc (srcSetOf version p) rs =
  match pmap_get p m with
  | Some v => match getEgressNodeMark env (NodeName v) with Some _ => 1 | None => 0 end
  | None => 0
  end.
Proof.
  revert rs. induction m as [|[q v] m IH]; simpl; intros rs H Hn Hinj.
  - injection H as <-. reflexivity.
  - inversion Hn as [|? ? Hnot Hn']; subst.
    assert (Hinj' : forall q', In q' (map fst m) ->
                      srcSetOf version q' = srcSetOf version p -> q' = p)
      by (intros; apply Hinj; auto).
    destruct (getEgressNodeMark env (NodeName v)) as [nm|] eqn:Hm.
    + destruct (parseMark nm); [|discriminate].
      destruct (markRules env version m) as [l|] eqn:Hl; [|discriminate].
      injection H as <-. rewrite rulesMatchingSrc_cons, (IH l eq_refl Hn' Hinj').
      destruct (in_dec MatchCriterion_eq_dec (SourceIPSet (srcSetOf version p)) _) as [Hin|Hin];
        rewrite buildPolicyRule_src in Hin; destruct (Policy_eq_dec q p) as [->|Hne].
      * rewrite Hm, (pmap_get_notin p m Hnot). reflexivity.
      * exfalso. apply Hne, Hinj; [left; reflexivity|symmetry; exact Hin].
      * exfalso. apply Hin. reflexivity.
      * reflexivity.
    + rewrite (IH rs H Hn' Hinj').
      destruct (Policy_eq_dec q p) as [->|Hne]; [|reflexivity].
      rewrite Hm, (pmap_get_notin p m Hnot). reflexivity.
Qed.

Lemma snatRules_count (version : Z) (m : PMap) (p : Policy) :
  NoDup (map fst m) ->
  (forall q, In q (map fst m) -> srcSetOf version q = srcSetOf version p -> q = p) ->
  rulesMatchingSrc (srcSetOf version p) (snatRules version m) =
  match pmap_get p m with
  | Some v => if eipHasAddress (PIP v) then 1 else 0
  | None => 0
  end.
Proof.
  induction m as [|[q v] m IH]; simpl; intros Hn Hinj; [reflexivity|].
  inversion Hn as [|? ? Hnot Hn']; subst.
  assert (Hinj' : forall q', In q' (map fst m) ->
                    srcSetOf version q' = srcSetOf version p -> q' = p)
    by (intros; apply Hinj; auto).
  destruct (buildEipRule (policyName q) (PIP v) version (isIgnoreInternalCIDR (DestSubnet v)))
    as [r|] eqn:Hr.
  - assert (Ha : eipHasAddress (PIP v) = true).
    { revert Hr. unfold buildEipRule, eipHasAddress.
      destruct (String.eqb (V4 (PIP v)) "" && String.eqb (V6 (PIP v)) ""); [discriminate|].
      reflexivity. }
    rewrite rulesMatchingSrc_cons, (IH Hn' Hinj').
    destruct (in_dec MatchCriterion_eq_dec (SourceIPSet (srcSetOf version p)) _) as [Hin|Hin];
      rewrite (buildEipRule_src _ _ _ _ _ _ Hr) in Hin;
      destruct (Policy_eq_dec q p) as [->|Hne].
    + rewrite Ha, (pmap_get_notin p m Hnot). reflexivity.
    + exfalso. apply Hne, Hinj; [left; reflexivity|symmetry; exact Hin].
    + exfalso. apply Hin. reflexivity.
    + reflexivity.
  - assert (Ha : eipHasAddress (PIP v) = false).
    { revert Hr. unfold buildEipRule, eipHasAddress.
      destruct (String.eqb (V4 (PIP v)) "" && String.eqb (V6 (PIP v)) ""); [|discriminate].
      reflexivity. }
    rewrite (IH Hn' Hinj').
    destruct (Policy_eq_dec q p) as [->|Hne]; [|reflexivity].
    rewrite Ha, (pmap_get_notin p m Hnot). reflexivity.
Qed.

Lemma assoc_get_set_same (k : string) (v : list Rule) (l : list (string * list Rule)) :
  assoc_get k (assoc_set k v l) = v.
Proof.
  unfold assoc_get. induction l as [|[k' v'] l IH]; simpl.
  - rewrite String.eqb_refl. reflexivity.
  - destruct (String.eqb k' k) eqn:E; simpl.
    + rewrite String.eqb_refl. reflexivity.
    + rewrite E. exact IH.
Qed.

Lemma insertAll_fields (l : list (string * list Rule)) (t : Table) :
  TableName (insertAll l t) = TableName t /\ IPVersion (insertAll l t) = IPVersion t /\
  chains (insertAll l t) = chains t.
Proof.
  unfold insertAll. revert t. induction l as [|cr l IH]; intros t; simpl;
    [auto|]. destruct (IH (InsertOrAppendRules (fst cr) (snd cr) t)) as [H1 [H2 H3]].
  rewrite H1, H2, H3. auto.
Qed.

Lemma map_option_In {A B : Type} (f : A -> option B) (l : list A) (l' : list B) (y : B) :
  map_option f l = Some l' -> In y l' -> exists x, In x l /\ f x = Some y.
Proof.
  revert l'. induction l as [|x l IH]; simpl; intros l' H Hy.
  - injection H as <-. destruct Hy.
  - destruct (f x) as [fx|] eqn:Hfx; [|discriminate].
    destruct (map_option f l) as [r|] eqn:Hr; [|discriminate].
    injection H as <-. destruct Hy as [<-|Hy].
    + exists x. auto.
    + destruct (IH r eq_refl Hy) as [x' [Hx' Hf]]. exists x'. auto.
Qed.

(** C1 (amended). Suppose [initApplyPolicy] succeeds, and distinct listed
    policies have distinct source sets. Then each listed policy [p] has at
    most one rule in each chain. In the mark chain of every mangle table it
    has exactly one rule when it is in [unSnatPolicies] (its EIP is on
    another node) and the [EgressNode] of that node can be read, and none
    otherwise. In the SNAT chain of every nat table it has exactly one rule
    when it is in [snatPolicies] (its EIP is on this node) and the EIP has
    an IPv4 or IPv6 address, and none otherwise. *)
Theorem initApplyPolicy_one_rule_per_policy (env : Env) (ts ts' : Tables)
    (gateways : list EgressGateway) :
  listGateways env = Some gateways ->
  initApplyPolicy env ts = Some ts' ->
  (forall version p q, In p (listedPolicies gateways) -> In q (listedPolicies gateways) ->
     srcSetOf version p = srcSetOf version q -> p = q) ->
  forall p, In p (listedPolicies gateways) ->
  forall unSnat0 snat0, partitionPolicies (cfgNodeName env) gateways = (unSnat0, snat0) ->
  (forall t, In t (mangleTables ts') ->
     rulesMatchingSrc (srcSetOf (IPVersion t) p) (assoc_get MarkChain (chains t)) =
     match pmap_get p unSnat0 with
     | Some v => match getEgressNodeMark env (NodeName v) with Some _ => 1 | None => 0 end
     | None => 0
     end) /\
  (forall t, In t (natTables ts') ->
     rulesMatchingSrc (srcSetOf (IPVersion t) p) (assoc_get SnatChain (chains t)) =
     match pmap_get p snat0 with
     | Some v => if eipHasAddress (PIP v) then 1 else 0
     | None => 0
     end).
Proof.
  intros Hgw Hrun Hinj p Hp unSnat0 snat0 Hpart.
  pose proof (partitionPolicies_inv (cfgNodeName env) gateways) as Hinv.
  rewrite Hpart in Hinv. destruct Hinv as [Hnu [Hns Hkeys]]. simpl in Hnu, Hns, Hkeys.
  unfold initApplyPolicy in Hrun. rewrite Hgw in Hrun.
  destruct gateways as [|g gs]; [destruct Hp|].
  rewrite Hpart in Hrun.
  destruct (refreshPolicies env false unSnat0) as [unSnat|] eqn:Hu; [|discriminate].
  destruct (refreshPolicies env true snat0) as [snat|] eqn:Hs; [|discriminate].
  destruct (parseMark (cfgMark env)) as [base|]; [|discriminate].
  match type of Hrun with
  | context [map_option ?f ?l] => destruct (map_option f l) as [mangles|] eqn:Hm
  end; [|discriminate].
  match type of Hrun with
  | context [if ?c then _ else _] => destruct c
  end; [|discriminate].
  injection Hrun as <-.
  destruct (refreshPolicies_shape _ _ _ _ Hu) as [Hku Hvu].
  destruct (refreshPolicies_shape _ _ _ _ Hs) as [Hks Hvs].
  split; intros t Ht; cbn [mangleTables natTables] in Ht.
  - destruct (map_option_In _ _ _ _ Hm Ht) as [t0 [_ Ht0]].
    destruct (markRules env (IPVersion t0) unSnat) as [rules|] eqn:Hr; [|discriminate].
    injection Ht0 as <-. unfold UpdateChain. simpl. rewrite assoc_get_set_same.
    rewrite (markRules_count env (IPVersion t0) unSnat rules p Hr).
    + specialize (Hvu p).
      destruct (pmap_get p unSnat0) as [v|], (pmap_get p unSnat) as [v'|];
        try contradiction; [|reflexivity].
      destruct Hvu as [-> _]. reflexivity.
    + rewrite Hku. exact Hnu.
    + intros q Hq Heq. rewrite Hku in Hq. apply (Hinj (IPVersion t0)); auto.
  - apply in_map_iff in Ht. destruct Ht as [t0 [<- _]].
    unfold insertAll, InsertOrAppendRules, UpdateChain. simpl. rewrite assoc_get_set_same.
    rewrite snatRules_count.
    + specialize (Hvs p).
      destruct (pmap_get p snat0) as [v|], (pmap_get p snat) as [v'|];
        try contradiction; [|reflexivity].
      destruct Hvs as [_ ->]. reflexivity.
    + rewrite Hks. exact Hns.
    + intros q Hq Heq. rewrite Hks in Hq. apply (Hinj (IPVersion t0)); auto.
Qed.

Lemma initApplyPolicy_one_rule_per_policy_witness :
  match initApplyPolicy (envOf [gatewayOn "nodeB"] (Some "0x26000001")) emptyTables with
  | Some ts' =>
      forall t, In t (mangleTables ts') ->
        rulesMatchingSrc (srcSetOf (IPVersion t) app) (assoc_get MarkChain (chains t)) = 1%nat
  | None => False
  end.
Proof.
  destruct (initApplyPolicy (envOf [gatewayOn "nodeB"] (Some "0x26000001")) emptyTables)
    as [ts'|] eqn:E; [|vm_compute in E; discriminate].
  intros t Ht.
  assert (Hinj : forall version p q,
             In p (listedPolicies [gatewayOn "nodeB"]) ->
             In q (listedPolicies [gatewayOn "nodeB"]) ->
             srcSetOf version p = srcSetOf version q -> p = q).
  { intros version p q Hp Hq _. simpl in Hp, Hq.
    destruct Hp as [<-|[]]. destruct Hq as [<-|[]]. reflexivity. }
  destruct (initApplyPolicy_one_rule_per_policy (envOf [gatewayOn "nodeB"] (Some "0x26000001"))
              emptyTables ts' [gatewayOn "nodeB"] eq_refl E Hinj app (or_introl eq_refl)
              _ _ (surjective_pairing _)) as [Hm _].
  rewrite (Hm t Ht). vm_compute. reflexivity.
Defined.

(** ** Claim C9: the glue rules *)

Lemma table_eq (t1 t2 : Table) :
  TableName t1 = TableName t2 -> IPVersion t1 = IPVersion t2 ->
  chains t1 = chains t2 -> inserted t1 = inserted t2 -> t1 = t2.
Proof. destruct t1, t2; simpl; intros; subst; reflexivity. Qed.

Lemma assoc_set_assoc_set (k : string) (v w : list Rule) (l : list (string * list Rule)) :
  assoc_set k v (assoc_set k w l) = assoc_set k v l.
Proof.
  induction l as [|[k' v'] l IH]; simpl.
  - rewrite String.eqb_refl. reflexivity.
  - destruct (String.eqb k' k) eqn:E; simpl.
    + rewrite String.eqb_refl. reflexivity.
    + rewrite E, IH. reflexivity.
Qed.

Lemma assoc_get_set_other (k k' : string) (v : list Rule) (l : list (string * list Rule)) :
  k' <> k -> assoc_get k (assoc_set k' v l) = assoc_get k l.
Proof.
  intros Hne. unfold assoc_get. induction l as [|[k0 v0] l IH]; simpl.
  - apply String.eqb_neq in Hne. rewrite Hne. reflexivity.
  - destruct (String.eqb k0 k') eqn:E; simpl.
    + apply String.eqb_eq in E. subst k0.
      apply String.eqb_neq in Hne. rewrite Hne. reflexivity.
    + destruct (String.eqb k0 k); [reflexivity|exact IH].
Qed.

Lemma assoc_set_keys (k k' : string) (v : list Rule) (l : list (string * list Rule)) :
  In k (map fst (assoc_set k' v l)) <-> k = k' \/ In k (map fst l).
Proof.
  induction l as [|[k0 v0] l IH]; simpl.
  - split; intros H; [destruct H as [<-|[]]; auto | destruct H as [->|[]]; auto].
  - destruct (String.eqb k0 k') eqn:E; simpl.
    + apply String.eqb_eq in E. subst k0.
      split; intros H; [destruct H as [<-|H]; auto | destruct H as [->|[->|H]]; auto].
    + rewrite IH. split; intros H; [destruct H as [<-|[->|H]] | destruct H as [->|[<-|H]]];
        auto.
Qed.

Lemma assoc_set_get_same (k : string) (l : list (string * list Rule)) :
  In k (map fst l) -> assoc_set k (assoc_get k l) l = l.
Proof.
  unfold assoc_get. induction l as [|[k0 v0] l IH]; simpl; intros Hk; [destruct Hk|].
  destruct (String.eqb k0 k) eqn:E.
  - apply String.eqb_eq in E. subst k0. reflexivity.
  - destruct Hk as [->|Hk]; [rewrite String.eqb_refl in E; discriminate|].
    rewrite (IH Hk). reflexivity.
Qed.

(** [InsertOrAppendRules] only adds: a chain and a rule already there stay. *)
Lemma InsertOrAppendRules_mono (c c' : string) (rs : list Rule) (t : Table) (r : Rule) :
  (In c (map fst (inserted t)) -> In c (map fst (inserted (InsertOrAppendRules c' rs t)))) /\
  (In r (assoc_get c (inserted t)) ->
   In r (assoc_get c (inserted (InsertOrAppendRules c' rs t)))).
Proof.
  unfold InsertOrAppendRules. simpl. split.
  - intros H. apply assoc_set_keys. auto.
  - intros H. destruct (string_dec c' c) as [<-|Hne].
    + rewrite assoc_get_set_same. apply in_or_app. auto.
    + rewrite (assoc_get_set_other _ _ _ _ Hne). exact H.
Qed.

Lemma insertAll_mono (c : string) (l : list (string * list Rule)) (t : Table) (r : Rule) :
  (In c (map fst (inserted t)) -> In c (map fst (inserted (insertAll l t)))) /\
  (In r (assoc_get c (inserted t)) -> In r (assoc_get c (inserted (insertAll l t)))).
Proof.
  unfold insertAll. revert t. induction l as [|[c' rs] l IH]; intros t; simpl; [auto|].
  destruct (InsertOrAppendRules_mono c c' rs t r) as [H1 H2].
  destruct (IH (InsertOrAppendRules c' rs t)) as [H3 H4]. auto.
Qed.

Lemma InsertOrAppendRules_adds (c : string) (rs : list Rule) (t : Table) :
  In c (map fst (inserted (InsertOrAppendRules c rs t))) /\
  (forall r, In r rs -> In r (assoc_get c (inserted (InsertOrAppendRules c rs t)))).
Proof.
  unfold InsertOrAppendRules. simpl. split.
  - apply assoc_set_keys. auto.
  - intros r Hr. rewrite assoc_get_set_same. apply in_or_app.
    destruct (in_dec Rule_eq_dec r (assoc_get c (inserted t))) as [Hin|Hin]; [right; exact Hin|].
    left. apply filter_In. split; [exact Hr|].
    destruct (in_dec Rule_eq_dec r (assoc_get c (inserted t))); [contradiction|reflexivity].
Qed.

(** After [insertAll], every chain of the list is there with all its rules. *)
Lemma insertAll_adds (l : list (string * list Rule)) (t : Table) :
  forall c rs, In (c, rs) l ->
  In c (map fst (inserted (insertAll l t))) /\
  (forall r, In r rs -> In r (assoc_get c (inserted (insertAll l t)))).
Proof.
  unfold insertAll. revert t. induction l as [|[c' rs'] l IH]; intros t c rs Hin;
    simpl in *; [destruct Hin|].
  destruct Hin as [Heq|Hin].
  - injection Heq as <- <-.
    destruct (InsertOrAppendRules_adds c' rs' t) as [Hk Hr].
    split.
    + apply (proj1 (insertAll_mono c' l _ (mkRule [] AcceptAction []))). exact Hk.
    + intros r Hr'. apply (proj2 (insertAll_mono c' l _ r)). apply Hr. exact Hr'.
  - apply IH. exact Hin.
Qed.

Lemma InsertOrAppendRules_present (c : string) (rs : list Rule) (t : Table) :
  In c (map fst (inserted t)) -> (forall r, In r rs -> In r (assoc_get c (inserted t))) ->
  InsertOrAppendRules c rs t = t.
Proof.
  intros Hk Hr. unfold InsertOrAppendRules.
  assert (Hf : filter (fun r => if in_dec Rule_eq_dec r (assoc_get c (inserted t))
                                then false else true) rs = []).
  { induction rs as [|r rs IH]; simpl; [reflexivity|].
    destruct (in_dec Rule_eq_dec r (assoc_get c (inserted t))) as [_|Hn].
    - apply IH. intros; apply Hr; simpl; auto.
    - exfalso. apply Hn, Hr. simpl; auto. }
  rewrite Hf. simpl. rewrite (assoc_set_get_same _ _ Hk). destruct t; reflexivity.
Qed.

(** [insertAll] of rules already in place changes nothing. *)
Lemma insertAll_present (l : list (string * list Rule)) (t : Table) :
  (forall c rs, In (c, rs) l ->
     In c (map fst (inserted t)) /\ (forall r, In r rs -> In r (assoc_get c (inserted t)))) ->
  insertAll l t = t.
Proof.
  unfold insertAll. revert t. induction l as [|[c rs] l IH]; intros t H; simpl; [reflexivity|].
  destruct (H c rs (or_introl eq_refl)) as [Hk Hr].
  rewrite (InsertOrAppendRules_present c rs t Hk Hr). apply IH.
  intros; apply H; simpl; auto.
Qed.

Lemma insertAll_twice (l : list (string * list Rule)) (t : Table) :
  insertAll l (insertAll l t) = insertAll l t.
Proof. apply insertAll_present. apply insertAll_adds. Qed.

Lemma insertAll_glue (l : list (string * list Rule)) (t : Table) : glueIn l (insertAll l t).
Proof. intros c rs r Hin Hr. apply (proj2 (insertAll_adds l t c rs Hin)). exact Hr. Qed.

Lemma UpdateChain_IPVersion (c : Chain) (t : Table) : IPVersion (UpdateChain c t) = IPVersion t.
Proof. reflexivity. Qed.

Lemma UpdateChain_inserted (c : Chain) (t : Table) : inserted (UpdateChain c t) = inserted t.
Proof. reflexivity. Qed.

Lemma insertAll_UpdateChain (l : list (string * list Rule)) (c : Chain) (t : Table) :
  insertAll l (UpdateChain c t) = UpdateChain c (insertAll l t).
Proof.
  unfold insertAll. revert t. induction l as [|cr l IH]; intros t; simpl; [reflexivity|].
  rewrite <- IH. f_equal.
Qed.

(** A [range] loop visits every entry of the map once. *)
Lemma insertBy_perm {K V : Type} (rank : K -> nat) (x : K * V) (l : list (K * V)) :
  Permutation (insertBy rank x l) (x :: l).
Proof.
  induction l as [|y l IH]; simpl; [apply Permutation_refl|].
  destruct (Nat.leb _ _); [apply Permutation_refl|].
  eapply perm_trans; [apply perm_skip, IH|apply perm_swap].
Qed.

Lemma rangeBy_perm {K V : Type} (rank : K -> nat) (m : list (K * V)) :
  Permutation (rangeBy rank m) m.
Proof.
  induction m as [|x m IH]; simpl; [apply perm_nil|].
  eapply perm_trans; [apply insertBy_perm|]. apply perm_skip, IH.
Qed.

(** The refresh loops succeed or fail whatever the order, and give the same
    entries. *)
Lemma refreshPolicies_perm (env : Env) (b : bool) (m1 m2 : PMap) :
  Permutation m1 m2 ->
  match refreshPolicies env b m1, refreshPolicies env b m2 with
  | Some a, Some c => Permutation a c
  | None, None => True
  | _, _ => False
  end.
Proof.
  induction 1 as [| [p x] l1 l2 _ IH | [p x] [q y] l | l1 l2 l3 _ IH1 _ IH2]; simpl.
  - apply perm_nil.
  - destruct (policyDestSubnet env p); [|exact I].
    destruct (updatePolicyIPSet env _ _ b _); [|exact I].
    destruct (refreshPolicies env b l1), (refreshPolicies env b l2); cbn in IH |- *;
      try contradiction; [apply perm_skip; exact IH|exact I].
  - destruct (policyDestSubnet env p) as [d1|], (policyDestSubnet env q) as [d2|];
      cbn; try exact I;
      try destruct (updatePolicyIPSet env (PNamespace p) (PName p) b d1);
      try destruct (updatePolicyIPSet env (PNamespace q) (PName q) b d2);
      cbn; try exact I; destruct (refreshPolicies env b l); cbn; try exact I.
    + apply perm_swap.
  - destruct (refreshPolicies env b l1), (refreshPolicies env b l2),
      (refreshPolicies env b l3); cbn in IH1, IH2 |- *; try contradiction; try exact I.
    eapply perm_trans; eassumption.
Qed.

(** The same for the rule loop of a mangle table. *)
Lemma markRules_perm (env : Env) (v : Z) (m1 m2 : PMap) :
  Permutation m1 m2 ->
  match markRules env v m1, markRules env v m2 with
  | Some a, Some c => Permutation a c
  | None, None => True
  | _, _ => False
  end.
Proof.
  induction 1 as [| [p x] l1 l2 _ IH | [p x] [q y] l | l1 l2 l3 _ IH1 _ IH2]; simpl.
  - apply perm_nil.
  - destruct (getEgressNodeMark env (NodeName x)); [|exact IH].
    destruct (parseMark _); [|exact I].
    destruct (markRules env v l1), (markRules env v l2); cbn in IH |- *;
      try contradiction; [apply perm_skip; exact IH|exact I].
  - destruct (getEgressNodeMark env (NodeName x)) as [n1|],
      (getEgressNodeMark env (NodeName y)) as [n2|]; cbn;
      try destruct (parseMark n1); try destruct (parseMark n2); cbn; try exact I;
      destruct (markRules env v l); cbn; try exact I;
      first [apply perm_swap | apply Permutation_refl].
  - destruct (markRules env v l1), (markRules env v l2),
      (markRules env v l3); cbn in IH1, IH2 |- *; try contradiction; try exact I.
    eapply perm_trans; eassumption.
Qed.

Lemma snatRules_perm (v : Z) (m1 m2 : PMap) :
  Permutation m1 m2 -> Permutation (snatRules v m1) (snatRules v m2).
Proof.
  induction 1 as [| [p x] l1 l2 _ IH | [p x] [q y] l | l1 l2 l3 _ IH1 _ IH2]; simpl.
  - apply perm_nil.
  - destruct (buildEipRule _ _ _ _); [apply perm_skip|]; exact IH.
  - destruct (buildEipRule (policyName p) _ _ _), (buildEipRule (policyName q) _ _ _);
      try apply perm_swap; apply Permutation_refl.
  - eapply perm_trans; eassumption.
Qed.

Lemma mapi_In {A B : Type} (f : nat -> A -> B) (n : nat) (l : list A) (y : B) :
  In y (mapi f n l) -> exists i x, In x l /\ y = f i x.
Proof.
  revert n. induction l as [|x l IH]; simpl; intros n Hy; [destruct Hy|].
  destruct Hy as [<-|Hy].
  - exists n, x. auto.
  - destruct (IH (S n) Hy) as [i [x' [Hx ->]]]. exists i, x'. auto.
Qed.

Lemma map_optioni_In {A B : Type} (f : nat -> A -> option B) (n : nat) (l : list A)
    (l' : list B) (y : B) :
  map_optioni f n l = Some l' -> In y l' -> exists i x, In x l /\ f i x = Some y.
Proof.
  revert n l'. induction l as [|x l IH]; simpl; intros n l' H Hy.
  - injection H as <-. destruct Hy.
  - destruct (f n x) as [fx|] eqn:Hfx; [|discriminate].
    destruct (map_optioni f (S n) l) as [r|] eqn:Hr; [|discriminate].
    injection H as <-. destruct Hy as [<-|Hy].
    + exists n, x. auto.
    + destruct (IH (S n) r Hr Hy) as [i [x' [Hx Hf]]]. exists i, x'. auto.
Qed.

Lemma glueIn_perm (l1 l2 : list (string * list Rule)) (t : Table) :
  Permutation l1 l2 -> glueIn l1 t -> glueIn l2 t.
Proof.
  intros Hp H c rs r Hin Hr. apply (H c rs r); [|exact Hr].
  apply (Permutation_in _ (Permutation_sym Hp) Hin).
Qed.

(** Rules placed by a loop over the same chains, in any order, are
    already there: a second [insertAll] changes nothing. *)
Lemma insertAll_again (l1 l2 : list (string * list Rule)) (t u : Table) :
  inserted u = inserted (insertAll l1 t) -> (forall cr, In cr l2 -> In cr l1) ->
  insertAll l2 u = u.
Proof.
  intros Hu Hincl. apply insertAll_present. intros c rs Hin. rewrite Hu.
  apply insertAll_adds. apply Hincl. exact Hin.
Qed.

Lemma assoc_set_perm (k : string) (v w : list Rule) (l : list (string * list Rule)) :
  Permutation v w ->
  Forall2 (fun c1 c2 => fst c1 = fst c2 /\ Permutation (snd c1) (snd c2))
    (assoc_set k v l) (assoc_set k w l).
Proof.
  intros Hp. induction l as [|[k' v'] l IH]; simpl.
  - constructor; [simpl; auto|constructor].
  - destruct (String.eqb k' k).
    + constructor; [simpl; auto|].
      clear IH. induction l as [|c l IH']; constructor;
        [split; [reflexivity|apply Permutation_refl]|exact IH'].
    + constructor; [simpl; split; [reflexivity|apply Permutation_refl]|exact IH].
Qed.

(** What a successful [initApplyPolicyIn] over a non-empty gateway list
    computed. *)
Lemma initApplyPolicyIn_success (o : MapOrder) (env : Env) (ts ts' : Tables)
    (g : EgressGateway) (gs : list EgressGateway) :
  listGateways env = Some (g :: gs) -> initApplyPolicyIn o env ts = Some ts' ->
  exists unSnat snat base mangles,
    refreshPolicies env false (rangeBy (policyRank o LoopUnSnat 0)
      (fst (partitionPolicies (cfgNodeName env) (g :: gs)))) = Some unSnat /\
    refreshPolicies env true (rangeBy (policyRank o LoopSnat 0)
      (snd (partitionPolicies (cfgNodeName env) (g :: gs)))) = Some snat /\
    parseMark (cfgMark env) = Some base /\
    map_optioni (mangleMarkRules o env unSnat) 0 (mapi (mangleStatic o base) 0 (mangleTables ts))
      = Some mangles /\
    ts' = mkTables mangles (mapi (natSnatRules o base snat) 0 (natTables ts))
            (mapi (filterStatic o base) 0 (filterTables ts)).
Proof.
  intros Hgw Hrun. unfold initApplyPolicyIn in Hrun. rewrite Hgw in Hrun.
  destruct (partitionPolicies (cfgNodeName env) (g :: gs)) as [unSnat0 snat0]. simpl.
  destruct (refreshPolicies env false _) as [unSnat|]; [|discriminate].
  destruct (refreshPolicies env true _) as [snat|]; [|discriminate].
  destruct (parseMark (cfgMark env)) as [base|]; [|discriminate].
  destruct (map_optioni _ 0 _) as [mangles|] eqn:Hm; [|discriminate].
  match type of Hrun with
  | context [if ?c then _ else _] => destruct c
  end; [|discriminate].
  injection Hrun as <-.
  exists unSnat, snat, base, mangles. auto.
Qed.

(** Second run of the filter loop: nothing changes. *)
Lemma filterStatic_rerun (o o' : MapOrder) (base : Z) (l : list Table) :
  forall n, mapi (filterStatic o' base) n (mapi (filterStatic o base) n l)
            = mapi (filterStatic o base) n l.
Proof.
  induction l as [|x l IH]; intros n; simpl; [reflexivity|].
  rewrite IH. f_equal. unfold filterStatic at 1.
  apply (insertAll_again (rangeBy (chainRank o LoopFilterStatic n) (buildFilterStaticRule base))
           _ x); [reflexivity|].
  intros cr Hin. apply (Permutation_in _ (Permutation_sym (rangeBy_perm _ _))).
  apply (Permutation_in _ (rangeBy_perm _ _) Hin).
Qed.

(** Second run on one mangle table: only the order of the mark rules may
    change. *)
Lemma mangle_rerun (o o' : MapOrder) (env : Env) (base : Z) (u1 u2 : PMap) (i j : nat)
    (x T1 T2 : Table) :
  Permutation u1 u2 ->
  mangleMarkRules o env u1 i (mangleStatic o base i x) = Some T1 ->
  mangleMarkRules o' env u2 j (mangleStatic o' base j T1) = Some T2 ->
  sameUpToRuleOrder T2 T1.
Proof.
  intros Hp H1 H2. unfold mangleMarkRules in H1, H2.
  set (X := mangleStatic o base i x) in H1.
  destruct (markRules env (IPVersion X) _) as [r1|] eqn:E1; [|discriminate].
  injection H1 as <-.
  assert (HX : mangleStatic o' base j (UpdateChain (mkChain MarkChain r1) X)
               = UpdateChain (mkChain MarkChain []) (UpdateChain (mkChain MarkChain r1) X)).
  { unfold mangleStatic at 1. rewrite insertAll_UpdateChain. f_equal.
    apply (insertAll_again (rangeBy (chainRank o LoopMangleStatic i) (buildMangleStaticRule base))
             _ (UpdateChain (mkChain MarkChain []) x)); [reflexivity|].
    intros cr Hin. apply (Permutation_in _ (Permutation_sym (rangeBy_perm _ _))).
    apply (Permutation_in _ (rangeBy_perm _ _) Hin). }
  rewrite HX in H2. cbn [IPVersion UpdateChain] in H2.
  destruct (markRules env (IPVersion X) (rangeBy (policyRank o' LoopMarkRules j) u2))
    as [r2|] eqn:E2; [|discriminate].
  injection H2 as <-.
  assert (Hr : Permutation r2 r1).
  { pose proof (markRules_perm env (IPVersion X)
                  (rangeBy (policyRank o LoopMarkRules i) u1)
                  (rangeBy (policyRank o' LoopMarkRules j) u2)) as HP.
    rewrite E1, E2 in HP. apply Permutation_sym, HP.
    eapply perm_trans; [apply rangeBy_perm|].
    eapply perm_trans; [exact Hp|]. apply Permutation_sym, rangeBy_perm. }
  unfold sameUpToRuleOrder. cbn [TableName IPVersion inserted chains UpdateChain ChainName Rules].
  split; [reflexivity|]. split; [reflexivity|]. split; [reflexivity|].
  rewrite !assoc_set_assoc_set. apply assoc_set_perm. exact Hr.
Qed.

(** Second run on one nat table: only the order of the SNAT rules may
    change. *)
Lemma nat_rerun (o o' : MapOrder) (base : Z) (s1 s2 : PMap) (i j : nat) (x : Table) :
  Permutation s1 s2 ->
  sameUpToRuleOrder (natSnatRules o' base s2 j (natSnatRules o base s1 i x))
                    (natSnatRules o base s1 i x).
Proof.
  intros Hp. set (T1 := natSnatRules o base s1 i x).
  assert (HV : IPVersion T1 = IPVersion x).
  { unfold T1, natSnatRules. rewrite (proj1 (proj2 (insertAll_fields _ _))). reflexivity. }
  unfold natSnatRules at 1. rewrite insertAll_UpdateChain.
  rewrite (insertAll_again (rangeBy (chainRank o LoopNatStatic i) (buildNatStaticRule base))
             _ (UpdateChain (mkChain SnatChain
                  (snatRules (IPVersion x) (rangeBy (policyRank o LoopSnatRules i) s1))) x)
             T1); [| reflexivity |].
  2:{ intros cr Hin. apply (Permutation_in _ (Permutation_sym (rangeBy_perm _ _))).
      apply (Permutation_in _ (rangeBy_perm _ _) Hin). }
  rewrite HV.
  assert (HT1 : T1 = UpdateChain (mkChain SnatChain
                  (snatRules (IPVersion x) (rangeBy (policyRank o LoopSnatRules i) s1)))
                  (insertAll (rangeBy (chainRank o LoopNatStatic i) (buildNatStaticRule base)) x)).
  { unfold T1, natSnatRules. apply insertAll_UpdateChain. }
  rewrite HT1. unfold sameUpToRuleOrder.
  cbn [TableName IPVersion inserted chains UpdateChain ChainName Rules].
  split; [reflexivity|]. split; [reflexivity|]. split; [reflexivity|].
  rewrite assoc_set_assoc_set. apply assoc_set_perm.
  apply snatRules_perm.
  eapply perm_trans; [apply rangeBy_perm|].
  eapply perm_trans; [exact (Permutation_sym Hp)|]. apply Permutation_sym, rangeBy_perm.
Qed.

Lemma mangles_rerun (o o' : MapOrder) (env : Env) (base : Z) (u1 u2 : PMap) (l : list Table) :
  Permutation u1 u2 ->
  forall n M1 M2,
  map_optioni (mangleMarkRules o env u1) n (mapi (mangleStatic o base) n l) = Some M1 ->
  map_optioni (mangleMarkRules o' env u2) n (mapi (mangleStatic o' base) n M1) = Some M2 ->
  Forall2 sameUpToRuleOrder M2 M1.
Proof.
  intros Hp. induction l as [|x l IH]; intros n M1 M2 H1 H2; simpl in H1.
  - injection H1 as <-. simpl in H2. injection H2 as <-. constructor.
  - destruct (mangleMarkRules o env u1 n (mangleStatic o base n x)) as [T1|] eqn:E1;
      [|discriminate].
    destruct (map_optioni (mangleMarkRules o env u1) (S n) _) as [R1|] eqn:ER1; [|discriminate].
    injection H1 as <-. simpl in H2.
    destruct (mangleMarkRules o' env u2 n (mangleStatic o' base n T1)) as [T2|] eqn:E2;
      [|discriminate].
    destruct (map_optioni (mangleMarkRules o' env u2) (S n) _) as [R2|] eqn:ER2; [|discriminate].
    injection H2 as <-. constructor.
    + exact (mangle_rerun o o' env base u1 u2 n n x T1 T2 Hp E1 E2).
    + exact (IH (S n) R1 R2 ER1 ER2).
Qed.

Lemma nats_rerun (o o' : MapOrder) (base : Z) (s1 s2 : PMap) (l : list Table) :
  Permutation s1 s2 ->
  forall n, Forall2 sameUpToRuleOrder
              (mapi (natSnatRules o' base s2) n (mapi (natSnatRules o base s1) n l))
              (mapi (natSnatRules o base s1) n l).
Proof.
  intros Hp. induction l as [|x l IH]; intros n; simpl; constructor.
  - apply nat_rerun. exact Hp.
  - apply IH.
Qed.

(** C9 (counterexample). With no EgressGateway at all, [initApplyPolicy]
    returns nil right away and installs none of the glue rules. *)
Lemma initApplyPolicy_no_gateway_no_glue :
  initApplyPolicyIn listOrder (envOf [] None) emptyTables = Some emptyTables /\
  (forall t, In t (filterTables emptyTables ++ mangleTables emptyTables
                   ++ natTables emptyTables) -> inserted t = []).
Proof.
  split; [reflexivity|].
  simpl. intros t [<-|[<-|[<-|[]]]]; reflexivity.
Qed.

(** C9 (amended). When the gateway list is not empty and [initApplyPolicy]
    succeeds, whatever order its loops visit Go's maps in, the glue rules
    built from the base mark are in their built-in chains: the FORWARD and
    OUTPUT accept rules of every filter table, the FORWARD, POSTROUTING and
    PREROUTING rules of every mangle table, the POSTROUTING accept and jump
    rules of every nat table. Running it again from the resulting tables,
    in any order, leaves the filter tables as they are and the rules of the
    built-in chains of every table as they are, so no rule is added twice;
    the rules of EGRESSGATEWAY-MARK-REQUEST and EGRESSGATEWAY-SNAT-EIP may
    only come in another order. *)
Theorem initApplyPolicy_glue_rules (o o' : MapOrder) (env : Env) (ts ts' : Tables)
    (gateways : list EgressGateway) :
  listGateways env = Some gateways -> gateways <> [] ->
  initApplyPolicyIn o env ts = Some ts' ->
  exists base, parseMark (cfgMark env) = Some base /\
    (forall t, In t (filterTables ts') -> glueIn (buildFilterStaticRule base) t) /\
    (forall t, In t (mangleTables ts') -> glueIn (buildMangleStaticRule base) t) /\
    (forall t, In t (natTables ts') -> glueIn (buildNatStaticRule base) t) /\
    (forall ts'', initApplyPolicyIn o' env ts' = Some ts'' ->
       filterTables ts'' = filterTables ts' /\
       Forall2 sameUpToRuleOrder (mangleTables ts'') (mangleTables ts') /\
       Forall2 sameUpToRuleOrder (natTables ts'') (natTables ts')).
Proof.
  intros Hgw Hne Hrun. destruct gateways as [|g gs]; [contradiction|].
  destruct (initApplyPolicyIn_success o env ts ts' g gs Hgw Hrun)
    as [unSnat [snat [base [mangles [Hu [Hs [Hb [Hm ->]]]]]]]].
  exists base. split; [exact Hb|]. cbn [filterTables mangleTables natTables].
  split; [|split; [|split]].
  - intros t Ht. destruct (mapi_In _ _ _ _ Ht) as [i [x [_ ->]]].
    unfold filterStatic. apply (glueIn_perm (rangeBy (chainRank o LoopFilterStatic i)
                                               (buildFilterStaticRule base))).
    + apply rangeBy_perm.
    + apply insertAll_glue.
  - intros t Ht. destruct (map_optioni_In _ _ _ _ _ Hm Ht) as [i [x0 [Hx0 Hf]]].
    destruct (mapi_In _ _ _ _ Hx0) as [j [x [_ ->]]].
    unfold mangleMarkRules in Hf.
    destruct (markRules env _ _) as [rules|]; [|discriminate]. injection Hf as <-.
    intros c rs r Hin Hr. rewrite UpdateChain_inserted. unfold mangleStatic.
    refine (glueIn_perm (rangeBy (chainRank o LoopMangleStatic j) (buildMangleStaticRule base))
              _ _ (rangeBy_perm _ _) (insertAll_glue _ _) c rs r Hin Hr).
  - intros t Ht. destruct (mapi_In _ _ _ _ Ht) as [i [x [_ ->]]].
    unfold natSnatRules. apply (glueIn_perm (rangeBy (chainRank o LoopNatStatic i)
                                               (buildNatStaticRule base))).
    + apply rangeBy_perm.
    + apply insertAll_glue.
  - intros ts'' Hrun2.
    destruct (initApplyPolicyIn_success o' env _ ts'' g gs Hgw Hrun2)
      as [unSnat2 [snat2 [base2 [mangles2 [Hu2 [Hs2 [Hb2 [Hm2 ->]]]]]]]].
    rewrite Hb in Hb2. injection Hb2 as <-.
    cbn [filterTables mangleTables natTables] in Hm2 |- *.
    assert (HPu : Permutation unSnat unSnat2).
    { pose proof (refreshPolicies_perm env false
        (rangeBy (policyRank o LoopUnSnat 0) (fst (partitionPolicies (cfgNodeName env) (g :: gs))))
        (rangeBy (policyRank o' LoopUnSnat 0) (fst (partitionPolicies (cfgNodeName env) (g :: gs)))))
        as HP.
      rewrite Hu, Hu2 in HP. apply HP.
      eapply perm_trans; [apply rangeBy_perm|]. apply Permutation_sym, rangeBy_perm. }
    assert (HPs : Permutation snat snat2).
    { pose proof (refreshPolicies_perm env true
        (rangeBy (policyRank o LoopSnat 0) (snd (partitionPolicies (cfgNodeName env) (g :: gs))))
        (rangeBy (policyRank o' LoopSnat 0) (snd (partitionPolicies (cfgNodeName env) (g :: gs)))))
        as HP.
      rewrite Hs, Hs2 in HP. apply HP.
      eapply perm_trans; [apply rangeBy_perm|]. apply Permutation_sym, rangeBy_perm. }
    split; [apply filterStatic_rerun|]. split.
    + exact (mangles_rerun o o' env base unSnat unSnat2 (mangleTables ts) HPu 0 mangles mangles2
               Hm Hm2).
    + apply nats_rerun. exact HPs.
Qed.

Lemma initApplyPolicy_glue_rules_witness :
  match initApplyPolicyIn listOrder (envOf [gatewayTwoOn "nodeB"] (Some "0x26000001"))
          emptyTables with
  | Some ts' =>
      initApplyPolicyIn webFirst (envOf [gatewayTwoOn "nodeB"] (Some "0x26000001")) ts'
        <> Some ts' /\
      (forall ts'', initApplyPolicyIn webFirst (envOf [gatewayTwoOn "nodeB"] (Some "0x26000001"))
                      ts' = Some ts'' ->
         filterTables ts'' = filterTables ts' /\
         Forall2 sameUpToRuleOrder (mangleTables ts'') (mangleTables ts') /\
         Forall2 sameUpToRuleOrder (natTables ts'') (natTables ts'))
  | None => False
  end.
Proof.
  destruct (initApplyPolicyIn listOrder (envOf [gatewayTwoOn "nodeB"] (Some "0x26000001"))
              emptyTables) as [ts'|] eqn:E; [|vm_compute in E; discriminate].
  assert (Hne : [gatewayTwoOn "nodeB"] <> []) by discriminate.
  destruct (initApplyPolicy_glue_rules listOrder webFirst
              (envOf [gatewayTwoOn "nodeB"] (Some "0x26000001")) emptyTables ts'
              [gatewayTwoOn "nodeB"] eq_refl Hne E) as [base [_ [_ [_ [_ H]]]]].
  split; [|exact H].
  vm_compute in E. injection E as <-. intros Heq. vm_compute in Heq. congruence.
Defined.

(** ** Claim C2: the cluster-ignore reconciler *)

(** C2 (code bug). The ignore set of IPv4 already holds exactly what is
    wanted, 10.244.0.0/16 (the pod CIDR). The claim asks for no addition and
    no removal; [process] deletes every member read from the set, so the
    entry is deleted and the set is left empty. *)
Theorem reconcileClusterInfo_deletes_wanted_entry :
  let status := mkEgressIgnoreCIDR [] [] ["10.244.0.0/16"] [] [] [] in
  let st := mkSetBackend [(EgressClusterCIDRIPv4, ["10.244.0.0/16"]);
                          (EgressClusterCIDRIPv6, [])] [] in
  wantLists status [] = (["10.244.0.0/16"], []) /\
  ListEntries EgressClusterCIDRIPv4 st = Some ["10.244.0.0/16"] /\
  match reconcileClusterInfo (InfoFound false status) [] st with
  | Some st' =>
      ListEntries EgressClusterCIDRIPv4 st' = Some [] /\
      In (DelEntry "10.244.0.0/16" EgressClusterCIDRIPv4) (backendCalls st')
  | None => False
  end.
Proof.
  split; [vm_compute; reflexivity|]. split; [vm_compute; reflexivity|].
  vm_compute. split; [reflexivity|]. repeat first [left; reflexivity | right].
Qed.

(** ** Claim C3: the delete path of the policy reconciler *)

Lemma map_load_delete_other (k k' : string) (m : list (string * IPSet)) :
  k' <> k -> map_load k (map_delete k' m) = map_load k m.
Proof.
  intros Hne. unfold map_load, map_delete. induction m as [|[k0 v0] m IH]; simpl;
    [reflexivity|].
  destruct (String.eqb k0 k') eqn:E; simpl.
  - apply String.eqb_eq in E. subst k0.
    apply String.eqb_neq in Hne. rewrite Hne. exact IH.
  - destruct (String.eqb k0 k); [reflexivity|exact IH].
Qed.

(** One [removeIPSet]: the cache, the kernel and the calls. *)
Lemma removeIPSet_step (destroy_err : string -> bool) (n : string) (st : IpsetState) :
  (forall k, map_load k (ipsetMap (removeIPSet destroy_err n st)) =
             if string_dec k n then None else map_load k (ipsetMap st)) /\
  (forall k, In k (kernelSets (removeIPSet destroy_err n st)) <->
             In k (kernelSets st) /\
             ~ (k = n /\ map_load n (ipsetMap st) <> None /\ destroy_err n = false)) /\
  ipsetCalls (removeIPSet destroy_err n st) =
    (ipsetCalls st ++ match map_load n (ipsetMap st) with
                      | Some _ => [DestroySet n]
                      | None => []
                      end)%list.
Proof.
  unfold removeIPSet. destruct (map_load n (ipsetMap st)) as [v|] eqn:Hl.
  - unfold backendDestroySet. destruct (destroy_err n) eqn:Hd; simpl.
    + split; [|split; [|reflexivity]].
      * intros k. destruct (string_dec k n) as [->|Hne]; [apply map_load_delete|].
        apply map_load_delete_other. congruence.
      * intros k. split; [intros H; split; [exact H|intros [_ [_ H']]; discriminate]
                         |intros [H _]; exact H].
    + split; [|split; [|reflexivity]].
      * intros k. destruct (string_dec k n) as [->|Hne]; [apply map_load_delete|].
        apply map_load_delete_other. congruence.
      * intros k. rewrite filter_In. split.
        -- intros [H Hk]. split; [exact H|]. intros [-> _].
           rewrite String.eqb_refl in Hk. discriminate.
        -- intros [H Hn]. split; [exact H|].
           destruct (String.eqb k n) eqn:E; [|reflexivity].
           apply String.eqb_eq in E. exfalso. apply Hn.
           split; [exact E|]. split; [congruence|reflexivity].
  - split; [|split].
    + intros k. destruct (string_dec k n) as [->|_]; [exact Hl|reflexivity].
    + intros k. split; [intros H; split; [exact H|intros [_ [H' _]]; contradiction]
                       |intros [H _]; exact H].
    + rewrite app_nil_r. reflexivity.
Qed.

(** [removeIPSet] over a list of names. *)
Lemma removeIPSet_fold (destroy_err : string -> bool) (names : list string)
    (st : IpsetState) :
  let st' := fold_left (fun s n => removeIPSet destroy_err n s) names st in
  (forall k, map_load k (ipsetMap st') =
             if in_dec string_dec k names then None else map_load k (ipsetMap st)) /\
  (forall k, In k (kernelSets st') <->
             In k (kernelSets st) /\
             ~ (In k names /\ map_load k (ipsetMap st) <> None /\ destroy_err k = false)) /\
  (exists calls, ipsetCalls st' = (ipsetCalls st ++ calls)%list /\
     (forall c, In c calls -> exists k, c = DestroySet k) /\
     (forall k, In (DestroySet k) calls <-> In k names /\ map_load k (ipsetMap st) <> None)).
Proof.
  revert st. induction names as [|n names IH]; intros st; cbn [fold_left].
  - split; [intros k; reflexivity|]. split.
    + intros k. split; [intros H; split; [exact H|intros [[] _]]|intros [H _]; exact H].
    + exists []. rewrite app_nil_r. split; [reflexivity|].
      split; [intros c []|]. intros k. split; [intros []|intros [[] _]].
  - destruct (removeIPSet_step destroy_err n st) as [Hm [Hk Hc]].
    destruct (IH (removeIPSet destroy_err n st)) as [Hm' [Hk' [calls [Hc' [Hd Hcs]]]]].
    split; [|split].
    + intros k. rewrite Hm', Hm.
      destruct (string_dec k n) as [->|Hne].
      * destruct (in_dec string_dec n names);
          destruct (in_dec string_dec n (n :: names)) as [_|H]; try reflexivity;
          exfalso; apply H; left; reflexivity.
      * destruct (in_dec string_dec k names) as [Hin|Hin];
          destruct (in_dec string_dec k (n :: names)) as [Hin'|Hin']; try reflexivity.
        -- exfalso. apply Hin'. right. exact Hin.
        -- exfalso. destruct Hin' as [E|E]; [apply Hne; symmetry; exact E|contradiction].
    + intros k. rewrite Hk', Hk. rewrite Hm.
      destruct (string_dec k n) as [->|Hne].
      * split.
        -- intros [[H1 H2] _]. split; [exact H1|]. intros [_ H]. apply H2. split; [reflexivity|].
           exact H.
        -- intros [H1 H2]. split; [split; [exact H1|]|].
           ++ intros [_ H]. apply H2. split; [left; reflexivity|exact H].
           ++ intros [_ [H _]]. apply H. reflexivity.
      * split.
        -- intros [[H1 H2] H3]. split; [exact H1|]. intros [[E|Hin] H].
           ++ apply Hne. symmetry. exact E.
           ++ apply H3. split; [exact Hin|exact H].
        -- intros [H1 H2]. split; [split; [exact H1|]|].
           ++ intros [E _]. contradiction.
           ++ intros [Hin H]. apply H2. split; [right; exact Hin|exact H].
    + exists ((match map_load n (ipsetMap st) with
               | Some _ => [DestroySet n]
               | None => []
               end) ++ calls)%list.
      split; [rewrite Hc', Hc, app_assoc; reflexivity|]. split.
      * intros c Hin. apply in_app_or in Hin. destruct Hin as [Hin|Hin]; [|apply Hd; exact Hin].
        destruct (map_load n (ipsetMap st)); [|destruct Hin].
        destruct Hin as [<-|[]]. exists n. reflexivity.
      * intros k. rewrite in_app_iff, Hcs, Hm.
        destruct (map_load n (ipsetMap st)) as [v|] eqn:Hn; simpl.
        -- split.
           ++ intros [[E|[]]|[Hin Hl]].
              ** injection E as ->. split; [left; reflexivity|congruence].
              ** destruct (string_dec k n) as [_|Hne]; [contradiction|].
                 split; [right; exact Hin|exact Hl].
           ++ intros [[E|Hin] Hl]; [left; left; rewrite E; reflexivity|].
              destruct (string_dec k n) as [->|Hne]; [left; left; reflexivity|].
              right. split; [exact Hin|exact Hl].
        -- split.
           ++ intros [[]|[Hin Hl]].
              destruct (string_dec k n) as [_|Hne]; [contradiction|].
              split; [right; exact Hin|exact Hl].
           ++ intros [[E|Hin] Hl]; [subst k; contradiction|].
              right. destruct (string_dec k n) as [->|Hne]; [contradiction|].
              split; [exact Hin|exact Hl].
Qed.

Lemma fold_left_removeIPSet_map (destroy_err : string -> bool) (sets : list SetName)
    (st : IpsetState) :
  fold_left (fun s set => removeIPSet destroy_err (Name set) s) sets st =
  fold_left (fun s n => removeIPSet destroy_err n s) (map Name sets) st.
Proof.
  revert st. induction sets as [|x sets IH]; intros st; simpl; [reflexivity|apply IH].
Qed.

(** C3 (counterexample). [initApplyPolicy] has installed the SNAT rule of
    [app] (its EIP is on this node), and the four sets of [app] are in the
    cache and in the kernel. The policy is deleted: [reconcilePolicy]
    returns success, yet the SNAT rule is still in the nat table and its
    source set is still in the kernel, which refuses to destroy a set a
    rule uses. *)
Lemma reconcilePolicy_delete_leaves_rule_and_set :
  match initApplyPolicy (envOf [gatewayOn "nodeA"] None) emptyTables with
  | Some ts =>
      let names := map Name (buildIPSetNamesByPolicy "ns1" "app" true true) in
      let st := mkAgentState
                  (mkIpsetState (map (fun n => (n, mkIPSet n "hash:net" "inet")) names) names [])
                  ts in
      let '(st', ok) := reconcilePolicy (referencedBy ts) PolicyAbsent (fun s => (s, true))
                          "ns1" "app" st in
      ok = true /\
      existsb (String.eqb (srcSetOf 4 app)) (kernelSets (ipsets st')) = true /\
      map (fun t => rulesMatchingSrc (srcSetOf 4 app) (assoc_get SnatChain (chains t)))
        (natTables (ruleTables st')) = [1%nat]
  | None => False
  end.
Proof. vm_compute. split; [reflexivity|split; reflexivity]. Qed.

(** C3 (amended). When the policy is absent or carries a deletion
    timestamp, [reconcilePolicy] returns success and leaves the rule tables
    as they are. It calls [removeIPSet] on the four set names built from
    the request's namespace and name: afterwards none of them is in the
    cache and the other cache entries are unchanged; the calls added are
    exactly one [DestroySet] of each of these names that was in the cache;
    a kernel set disappears exactly when it is one of these names, was in
    the cache, and its destroy succeeded. *)
Theorem reconcilePolicy_delete_path (destroy_err : string -> bool) (lookup : PolicyLookup)
    (updatePath : AgentState -> AgentState * bool) (ns name : string) (st : AgentState) :
  lookup = PolicyAbsent \/ lookup = PolicyFound true ->
  let names := map Name (buildIPSetNamesByPolicy ns name true true) in
  let '(st', ok) := reconcilePolicy destroy_err lookup updatePath ns name st in
  ok = true /\ ruleTables st' = ruleTables st /\
  (forall k, map_load k (ipsetMap (ipsets st')) =
             if in_dec string_dec k names then None else map_load k (ipsetMap (ipsets st))) /\
  (forall k, In k (kernelSets (ipsets st')) <->
             In k (kernelSets (ipsets st)) /\
             ~ (In k names /\ map_load k (ipsetMap (ipsets st)) <> None /\ destroy_err k = false)) /\
  (exists calls, ipsetCalls (ipsets st') = (ipsetCalls (ipsets st) ++ calls)%list /\
     (forall c, In c calls -> exists k, c = DestroySet k) /\
     (forall k, In (DestroySet k) calls <->
                In k names /\ map_load k (ipsetMap (ipsets st)) <> None)).
Proof.
  intros Hl names.
  assert (Hd : reconcilePolicy destroy_err lookup updatePath ns name st =
               (mkAgentState (fold_left (fun s n => removeIPSet destroy_err n s) names (ipsets st))
                             (ruleTables st), true)).
  { unfold reconcilePolicy, names. rewrite <- fold_left_removeIPSet_map.
    destruct Hl as [->| ->]; reflexivity. }
  rewrite Hd. cbn [ipsets ruleTables].
  destruct (removeIPSet_fold destroy_err names (ipsets st)) as [Hm [Hk Hc]].
  split; [reflexivity|]. split; [reflexivity|]. split; [exact Hm|]. split; [exact Hk|exact Hc].
Qed.

Lemma reconcilePolicy_delete_path_witness :
  snd (reconcilePolicy (fun _ => false) PolicyAbsent (fun s => (s, false)) "ns1" "app"
         (mkAgentState (mkIpsetState [] [] []) (mkTables [] [] []))) = true.
Proof.
  pose proof (reconcilePolicy_delete_path (fun _ => false) PolicyAbsent (fun s => (s, false))
                "ns1" "app" (mkAgentState (mkIpsetState [] [] []) (mkTables [] [] []))
                (or_introl eq_refl)) as H.
  cbv zeta in H.
  destruct (reconcilePolicy (fun _ => false) PolicyAbsent (fun s => (s, false)) "ns1" "app"
              (mkAgentState (mkIpsetState [] [] []) (mkTables [] [] []))) as [st' ok].
  destruct H as [H _]. exact H.
Defined.

(** * Further properties of the policy reconciler *)

Section FurtherProperties.

Import PolicyIPSet.

(** ** Set names *)

Lemma firstn_length_le_eq {A : Type} (n : nat) (l : list A) :
  (n <= length l)%nat -> length (firstn n l) = n.
Proof. intros H. rewrite length_firstn. lia. Qed.

Theorem formatIPSetName_total (prefix name : string) :
  formatIPSetName prefix name =
    (if (String.length prefix <=? 31)%nat
     then Some (prefix ++ of_chars (firstn (31 - String.length prefix) (sha1_hex name)))
     else None) /\
  (forall s, formatIPSetName prefix name = Some s -> String.length s = 31%nat).
Proof.
  assert (Heq : formatIPSetName prefix name =
    (if (String.length prefix <=? 31)%nat
     then Some (prefix ++ of_chars (firstn (31 - String.length prefix) (sha1_hex name)))
     else None)).
  { unfold formatIPSetName. cbv zeta. rewrite sha1_hex_length.
    destruct (Nat.leb_spec (String.length prefix) 31) as [Hle|Hgt].
    - replace ((31 - Z.of_nat (String.length prefix) <? 0)%Z) with false
        by (symmetry; apply Z.ltb_ge; lia).
      replace ((Z.of_nat 40 <? 31 - Z.of_nat (String.length prefix))%Z) with false
        by (symmetry; apply Z.ltb_ge; lia).
      cbn [orb]. do 4 f_equal. lia.
    - replace ((31 - Z.of_nat (String.length prefix) <? 0)%Z) with true
        by (symmetry; apply Z.ltb_lt; lia).
      reflexivity. }
  split; [exact Heq|]. intros s Hs. rewrite Heq in Hs.
  destruct (Nat.leb_spec (String.length prefix) 31) as [Hle|Hgt]; [|discriminate].
  assert (Hs' : prefix ++ of_chars (firstn (31 - String.length prefix) (sha1_hex name)) = s)
    by congruence. subst s.
  rewrite string_length_append, string_length_of_chars, firstn_length_le_eq;
    [lia|]. rewrite sha1_hex_length. lia.
Qed.

Lemma string_app_same_length (p1 p2 a b : string) :
  String.length p1 = String.length p2 -> p1 ++ a = p2 ++ b -> p1 = p2.
Proof.
  revert p2. induction p1 as [|c p1 IH]; intros p2 Hl He; destruct p2 as [|c' p2];
    simpl in *; try discriminate; [reflexivity|].
  injection He as -> He. injection Hl as Hl. f_equal. exact (IH p2 Hl He).
Qed.

Lemma ipsetName_prefix_inj (s1 s2 : IPStack) (k1 k2 : IPKind) (x : string) :
  ipsetName (set_prefix s1 k1) x = ipsetName (set_prefix s2 k2) x -> s1 = s2 /\ k1 = k2.
Proof.
  unfold ipsetName. rewrite !formatIPSetName_prefix. intros H.
  apply string_app_same_length in H; [|destruct s1, k1, s2, k2; reflexivity].
  destruct s1, k1, s2, k2; simpl in H; try discriminate; split; reflexivity.
Qed.

Lemma ipset_names_nodup (ns name : string) (enableIPv4 enableIPv6 : bool) :
  NoDup (map Name (buildIPSetNamesByPolicy ns name enableIPv4 enableIPv6)).
Proof.
  unfold buildIPSetNamesByPolicy. cbv zeta.
  set (x := if negb (String.eqb ns "") then ns ++ "-" ++ name else name).
  change "egress-src-v4-" with (set_prefix IPv4 IPSrc).
  change "egress-dst-v4-" with (set_prefix IPv4 IPDst).
  change "egress-src-v6-" with (set_prefix IPv6 IPSrc).
  change "egress-dst-v6-" with (set_prefix IPv6 IPDst).
  destruct enableIPv4, enableIPv6; cbn [app map Name]; repeat constructor;
    intros H; cbn [In] in H;
    repeat (destruct H as [H|H]; [apply ipsetName_prefix_inj in H; destruct H; discriminate|]);
    exact H.
Qed.

(** The four set names of a policy are pairwise distinct, whatever
    families are enabled. *)
Theorem ipset_names_distinct (ns name : string) (enableIPv4 enableIPv6 : bool) :
  NoDup (map Name (buildIPSetNamesByPolicy ns name enableIPv4 enableIPv6)).
Proof. apply ipset_names_nodup. Qed.

(** A namespaced policy [ns/name] and a cluster policy named [ns-name]
    get the same set names. *)
Theorem ipset_names_namespace_collision (ns name : string) (enableIPv4 enableIPv6 : bool) :
  ns <> "" ->
  buildIPSetNamesByPolicy ns name enableIPv4 enableIPv6 =
  buildIPSetNamesByPolicy "" (ns ++ "-" ++ name) enableIPv4 enableIPv6.
Proof.
  intros Hns. unfold buildIPSetNamesByPolicy. cbv zeta.
  apply String.eqb_neq in Hns. rewrite Hns. reflexivity.
Qed.

Lemma ipset_names_namespace_collision_witness :
  "default" <> "" /\
  buildIPSetNamesByPolicy "default" "app" true true =
  buildIPSetNamesByPolicy "" ("default" ++ "-" ++ "app") true true.
Proof.
  split; [discriminate|].
  apply (ipset_names_namespace_collision "default" "app" true true). discriminate.
Defined.

(** ** Marks *)

Lemma hex_digits_nonneg (s : list ascii) (n u : Z) :
  (0 <= n)%Z -> hex_digits s n = Some u -> (0 <= u)%Z.
Proof.
  revert n. induction s as [|c s IH]; intros n Hn H; simpl in H.
  - injection H as <-. exact Hn.
  - destruct (GoNet.hex_val c) as [d|] eqn:Hd; [|discriminate].
    apply (IH (n * 16 + d)%Z); [|exact H].
    unfold GoNet.hex_val in Hd.
    destruct ((48 <=? GoNet.code c)%Z && (GoNet.code c <=? 57)%Z) eqn:H1;
      [injection Hd as <-; apply andb_true_iff in H1; destruct H1 as [H1 _];
       apply Z.leb_le in H1; lia|].
    destruct ((97 <=? GoNet.code c)%Z && (GoNet.code c <=? 102)%Z) eqn:H2;
      [injection Hd as <-; apply andb_true_iff in H2; destruct H2 as [H2 _];
       apply Z.leb_le in H2; lia|].
    destruct ((65 <=? GoNet.code c)%Z && (GoNet.code c <=? 70)%Z) eqn:H3;
      [injection Hd as <-; apply andb_true_iff in H3; destruct H3 as [H3 _];
       apply Z.leb_le in H3; lia|discriminate].
Qed.

Lemma ParseInt16_32_range (s : list ascii) (i : Z) :
  ParseInt16_32 s = Some i -> (- 2 ^ 31 <= i < 2 ^ 31)%Z.
Proof.
  unfold ParseInt16_32.
  destruct (match s with
            | c :: t => if GoNet.is_char c 45 then (true, t)
                        else if GoNet.is_char c 43 then (false, t) else (false, s)
            | [] => (false, s)
            end) as [neg body].
  destruct body as [|c b]; [discriminate|].
  destruct (hex_digits (c :: b) 0) as [u|] eqn:Hu; [|discriminate].
  apply hex_digits_nonneg in Hu; [|lia].
  destruct neg.
  - destruct (Z.ltb_spec (2 ^ 31) u); [discriminate|]. intros Hi; injection Hi as <-. lia.
  - destruct (Z.leb_spec (2 ^ 31) u); [discriminate|]. intros Hi; injection Hi as <-. lia.
Qed.

(** [parseMark] and [parseMarkToInt] fail together; the signed value is
    in [[-2^31, 2^31)] and [parseMark] is its unsigned 32-bit form, equal
    to it when it is not negative. *)
Theorem parseMark_parseMarkToInt (mark : string) :
  match parseMarkToInt mark with
  | Some i =>
      (- 2 ^ 31 <= i < 2 ^ 31)%Z /\ parseMark mark = Some (i mod 2 ^ 32)%Z /\
      (0 <= i -> parseMark mark = Some i)%Z
  | None => parseMark mark = None
  end.
Proof.
  unfold parseMarkToInt, parseMark.
  destruct (ParseInt16_32 (remove_0x (GoNet.chars mark))) as [i|] eqn:H; [|reflexivity].
  apply ParseInt16_32_range in H.
  split; [exact H|]. split; [reflexivity|]. intros Hi. f_equal. apply Z.mod_small. lia.
Qed.

(** ** [findElements] and [findDiff] *)

Lemma mem_repeat_empty (s : string) (n : nat) :
  mem s (repeat "" n) = negb (Nat.eqb n 0) && String.eqb s "".
Proof.
  induction n as [|n IH]; [reflexivity|]. simpl. unfold mem in *. simpl.
  rewrite IH. destruct (String.eqb s ""), n; reflexivity.
Qed.

(** [findElements] ignores the values of [parent]: with an empty parent
    it keeps nothing (include) or everything (exclude) of [sub], otherwise
    exactly the empty strings of [sub] (include) or the others (exclude). *)
Theorem findElements_ignores_parent (parent sub : list string) :
  findElements true parent sub =
    (match parent with [] => [] | _ => filter (fun s => String.eqb s "") sub end) /\
  findElements false parent sub =
    (match parent with [] => sub | _ => filter (fun s => negb (String.eqb s "")) sub end).
Proof.
  unfold findElements.
  split; (induction sub as [|s sub IH]; [destruct parent; reflexivity|]);
    simpl; rewrite mem_repeat_empty, IH; destruct parent; simpl;
    destruct (String.eqb s ""); reflexivity.
Qed.

(** What [findDiff] returns: [toAdd] holds the normalized new entries not
    in the old list, [toDel] the old entries missing from the normalized
    new list, and no entry is in both. *)
Theorem findDiff_members (oldList newList : list string) (x : string) :
  (In x (fst (findDiff oldList newList)) <->
     In x (map findDiff_normalize newList) /\ ~ In x oldList) /\
  (In x (snd (findDiff oldList newList)) <->
     In x oldList /\ ~ In x (map findDiff_normalize newList)) /\
  ~ (In x (fst (findDiff oldList newList)) /\ In x (snd (findDiff oldList newList))).
Proof.
  unfold findDiff. cbv zeta. simpl. rewrite !In_filter_not_mem. tauto.
Qed.

(** ** The mark rules of [updatePolicyRule] and [removePolicyRule] *)

Lemma rm_load_store_same (k : string) (v : Rule) (m : RuleMap) :
  rm_load k (rm_store k v m) = Some v.
Proof.
  unfold rm_load. induction m as [|[k' v'] m IH]; simpl.
  - rewrite String.eqb_refl. reflexivity.
  - destruct (String.eqb k' k) eqn:E; simpl; [rewrite String.eqb_refl; reflexivity|].
    rewrite E. exact IH.
Qed.

Lemma rm_load_none_filter (k : string) (m : RuleMap) :
  rm_load k m = None -> rm_delete k m = m.
Proof.
  unfold rm_load, rm_delete. induction m as [|[k' v'] m IH]; simpl; [reflexivity|].
  destruct (String.eqb k' k) eqn:E; [discriminate|]. simpl.
  intros H. f_equal. apply IH. exact H.
Qed.

Lemma rm_delete_store_absent (k : string) (v : Rule) (m : RuleMap) :
  rm_load k m = None -> rm_delete k (rm_store k v m) = m.
Proof.
  unfold rm_load, rm_delete. induction m as [|[k' v'] m IH]; simpl.
  - rewrite String.eqb_refl. reflexivity.
  - destruct (String.eqb k' k) eqn:E; [discriminate|]. simpl. rewrite E. simpl.
    intros H. f_equal. apply IH. exact H.
Qed.

Lemma In_buildRuleList_store (k : string) (v : Rule) (m : RuleMap) :
  In v (buildRuleList (rm_store k v m)).
Proof.
  unfold buildRuleList. induction m as [|[k' v'] m IH]; simpl; [left; reflexivity|].
  destruct (String.eqb k' k); simpl; [left; reflexivity|right; exact IH].
Qed.

(** On a version other than 4 and 6 both functions panic; adding a rule
    already stored, or removing one not stored, returns no rules and
    [false] and changes nothing. *)
Theorem policyRule_edge_cases (policyName : string) (mark version : Z) (st : RuleMaps) :
  ((version <> 4 /\ version <> 6)%Z ->
     updatePolicyRule policyName mark version st = None /\
     removePolicyRule policyName version st = None) /\
  ((version = 4 \/ version = 6)%Z -> rm_load policyName (ruleMapOf version st) <> None ->
     updatePolicyRule policyName mark version st = Some ([], false, st)) /\
  ((version = 4 \/ version = 6)%Z -> rm_load policyName (ruleMapOf version st) = None ->
     removePolicyRule policyName version st = Some ([], false, st)).
Proof.
  unfold updatePolicyRule, removePolicyRule, ruleMapOf. split; [|split].
  - intros [H4 H6]. apply Z.eqb_neq in H4, H6. rewrite H4, H6. split; reflexivity.
  - intros [->| ->] H; simpl; destruct (rm_load _ _); congruence.
  - intros [->| ->] H; simpl in *; rewrite H; reflexivity.
Qed.

Lemma policyRule_edge_cases_witness :
  ((7 <> 4 /\ 7 <> 6)%Z /\
   updatePolicyRule "p" 1 7 (mkRuleMaps [] []) = None /\
   removePolicyRule "p" 7 (mkRuleMaps [] []) = None) /\
  ((4 = 4 \/ 4 = 6)%Z /\
   rm_load "p" (ruleMapOf 4 (mkRuleMaps [("p", mkRule [] AcceptAction [])] [])) <> None /\
   updatePolicyRule "p" 1 4 (mkRuleMaps [("p", mkRule [] AcceptAction [])] []) =
     Some ([], false, mkRuleMaps [("p", mkRule [] AcceptAction [])] [])) /\
  ((6 = 4 \/ 6 = 6)%Z /\ rm_load "p" (ruleMapOf 6 (mkRuleMaps [] [])) = None /\
   removePolicyRule "p" 6 (mkRuleMaps [] []) = Some ([], false, mkRuleMaps [] [])).
Proof.
  destruct (policyRule_edge_cases "p" 1 7 (mkRuleMaps [] [])) as [Ha _].
  destruct (policyRule_edge_cases "p" 1 4 (mkRuleMaps [("p", mkRule [] AcceptAction [])] []))
    as [_ [Hb _]].
  destruct (policyRule_edge_cases "p" 1 6 (mkRuleMaps [] [])) as [_ [_ Hc]].
  split; [|split].
  - split; [split; discriminate|]. apply Ha. split; discriminate.
  - split; [left; reflexivity|]. split; [discriminate|].
    apply Hb; [left; reflexivity|discriminate].
  - split; [right; reflexivity|]. split; [reflexivity|].
    apply Hc; [right; reflexivity|reflexivity].
Defined.

(** Adding the rule of a policy not yet in the map of version 4 or 6
    stores the mark rule (source and destination sets of the policy with
    the family's prefix, connection-tracking original direction,
    [SetMaskedMarkAction mark 0xffffffff]), returns [true] and a list that
    holds it, leaves the other version's map alone; removing it again
    returns the previous list and restores the maps. *)
Theorem updatePolicyRule_removePolicyRule (policyName : string) (mark version : Z)
    (st : RuleMaps) :
  (version = 4 \/ version = 6)%Z -> rm_load policyName (ruleMapOf version st) = None ->
  let tmp := if (version =? 4)%Z then "v4-" else "v6-" in
  let rule := mkRule [SourceIPSet (ipsetName ("egress-src-" ++ tmp) policyName);
                      DestIPSet (ipsetName ("egress-dst-" ++ tmp) policyName);
                      CTDirectionOriginal]
                     (SetMaskedMarkAction mark 4294967295) [] in
  exists rules st',
    updatePolicyRule policyName mark version st = Some (rules, true, st') /\
    In rule rules /\
    rm_load policyName (ruleMapOf version st') = Some rule /\
    ruleMapOf (if (version =? 4)%Z then 6 else 4) st' =
      ruleMapOf (if (version =? 4)%Z then 6 else 4) st /\
    removePolicyRule policyName version st' =
      Some (buildRuleList (ruleMapOf version st), true, st).
Proof.
  intros Hv Hnone. cbv zeta. unfold updatePolicyRule, removePolicyRule.
  unfold ruleMapOf in Hnone.
  destruct Hv as [->| ->]; simpl in *; rewrite Hnone;
    eexists; eexists; (split; [reflexivity|]); unfold ruleMapOf; simpl;
    (split; [apply In_buildRuleList_store|]);
    (split; [apply rm_load_store_same|]); (split; [reflexivity|]);
    rewrite rm_load_store_same, rm_delete_store_absent by exact Hnone;
    destruct st; reflexivity.
Qed.

Lemma updatePolicyRule_removePolicyRule_witness :
  (6 = 4 \/ 6 = 6)%Z /\ rm_load "app" (ruleMapOf 6 (mkRuleMaps [] [])) = None /\
  exists rules st',
    updatePolicyRule "app" 1 6 (mkRuleMaps [] []) = Some (rules, true, st') /\
    removePolicyRule "app" 6 st' = Some ([], true, mkRuleMaps [] []).
Proof.
  split; [right; reflexivity|]. split; [reflexivity|].
  destruct (updatePolicyRule_removePolicyRule "app" 1 6 (mkRuleMaps [] [])
              (or_intror eq_refl) eq_refl) as [rules [st' [H1 [_ [_ [_ H2]]]]]].
  exists rules, st'. split; [exact H1|exact H2].
Defined.

(** ** The node of a policy in [reconcilePolicy] *)

Lemma fold_policies_node (pName pNamespace nn : string) (ps : list Policy) (acc : string) :
  fold_left (fun nodeName p =>
      if String.eqb (PName p) pName && String.eqb (PNamespace p) pNamespace
      then nn else nodeName) ps acc =
  if existsb (fun p => String.eqb (PName p) pName && String.eqb (PNamespace p) pNamespace) ps
  then nn else acc.
Proof.
  revert acc. induction ps as [|p ps IH]; intros acc; simpl; [reflexivity|].
  rewrite IH. destruct (String.eqb (PName p) pName && String.eqb (PNamespace p) pNamespace);
    simpl; [destruct existsb|]; reflexivity.
Qed.

Lemma fold_eips_node (pName pNamespace nn : string) (es : list Eip) (acc : string) :
  fold_left (fun nodeName eip =>
      fold_left (fun nodeName p =>
          if String.eqb (PName p) pName && String.eqb (PNamespace p) pNamespace
          then nn else nodeName) (EPolicies eip) nodeName) es acc =
  if existsb (fun eip => existsb (fun p => String.eqb (PName p) pName &&
                                           String.eqb (PNamespace p) pNamespace)
                           (EPolicies eip)) es
  then nn else acc.
Proof.
  revert acc. induction es as [|e es IH]; intros acc; simpl; [reflexivity|].
  rewrite IH, fold_policies_node.
  destruct (existsb _ (EPolicies e)), (existsb _ es); reflexivity.
Qed.

Lemma policyNodeName_eq (pName pNamespace : string) (gateway : EgressGateway) :
  policyNodeName pName pNamespace gateway =
  last (map NName (filter (listsPolicy pName pNamespace) (NodeList gateway))) "".
Proof.
  unfold policyNodeName.
  assert (Hgen : forall nodes acc,
    fold_left (fun nodeName node =>
      fold_left (fun nodeName eip =>
          fold_left (fun nodeName p =>
              if String.eqb (PName p) pName && String.eqb (PNamespace p) pNamespace
              then NName node else nodeName) (EPolicies eip) nodeName)
        (NEips node) nodeName) nodes acc =
    last (map NName (filter (listsPolicy pName pNamespace) nodes)) acc).
  { induction nodes as [|node nodes IH]; intros acc; simpl; [reflexivity|].
    rewrite IH.
    assert (Hn : fold_left (fun nodeName eip =>
                   fold_left (fun nodeName p =>
                     if String.eqb (PName p) pName && String.eqb (PNamespace p) pNamespace
                     then NName node else nodeName) (EPolicies eip) nodeName)
                   (NEips node) acc =
                 if listsPolicy pName pNamespace node then NName node else acc).
    { unfold listsPolicy. apply fold_eips_node. }
    rewrite Hn. destruct (listsPolicy pName pNamespace node); simpl; [|reflexivity].
    destruct (map NName (filter (listsPolicy pName pNamespace) nodes)) as [|x l] eqn:E;
      [reflexivity|].
    clear. revert x. induction l as [|y l IH]; intros x; [reflexivity|].
    simpl. destruct l; [reflexivity|]. apply (IH y). }
  apply Hgen.
Qed.

(** The node that [reconcilePolicy] and [reconcileClusterPolicy] take for
    a policy is the last node of the gateway status listing it (the empty
    string when none does). *)
Theorem policyNodeName_last (pName pNamespace : string) (gateway : EgressGateway) :
  policyNodeName pName pNamespace gateway =
  last (map NName (filter (listsPolicy pName pNamespace) (NodeList gateway))) "".
Proof. apply policyNodeName_eq. Qed.

(** ** Sets of the kernel: [createIPSet] *)

Lemma map_load_store (n m : string) (v : IPSet) (c : list (string * IPSet)) :
  map_load n (map_store m v c) = if String.eqb n m then Some v else map_load n c.
Proof.
  unfold map_load. induction c as [|[k w] c IH]; simpl.
  - destruct (String.eqb_spec m n), (String.eqb_spec n m); congruence.
  - destruct (String.eqb_spec k m); simpl.
    + subst k. destruct (String.eqb_spec m n), (String.eqb_spec n m); congruence.
    + destruct (String.eqb_spec k n); [|exact IH].
      subst k. destruct (String.eqb_spec n m); congruence.
Qed.

Lemma map_delete_store (n : string) (v : IPSet) (c : list (string * IPSet)) :
  map_delete n (map_store n v c) = map_delete n c.
Proof.
  unfold map_delete. induction c as [|[k w] c IH]; simpl.
  - rewrite String.eqb_refl. reflexivity.
  - destruct (String.eqb k n) eqn:E; simpl.
    + rewrite String.eqb_refl. reflexivity.
    + rewrite ?E. simpl. f_equal. exact IH.
Qed.

Lemma map_delete_absent (n : string) (c : list (string * IPSet)) :
  map_load n c = None -> map_delete n c = c.
Proof.
  unfold map_load, map_delete. induction c as [|[k w] c IH]; simpl; [reflexivity|].
  destruct (String.eqb k n); [discriminate|]. simpl. intros H. f_equal. exact (IH H).
Qed.

(** What [createIPSet] does: nothing for a set already in the cache or of
    a family that is not enabled; otherwise exactly one [CreateSet] of a
    [hash:net] set of the set's family, an error exactly when the kernel
    refuses (the cache then unchanged), and on success the set cached
    under its name and present in the kernel. *)
Theorem createIPSet_behaviour (create_err : string -> bool) (enableIPv4 enableIPv6 : bool)
    (set : SetName) (k : Kernel) :
  let r := createIPSet create_err enableIPv4 enableIPv6 set k in
  let ipSet := mkIPSet (Name set) "hash:net" (HashFamily (Stack set)) in
  if (match map_load (Name set) (ipsetMap (kstate k)) with Some _ => true | None => false end)
     || negb (familyEnabled (Stack set) enableIPv4 enableIPv6)
  then r = (k, false)
  else ipsetCalls (kstate (fst r)) = (ipsetCalls (kstate k) ++ [CreateSet ipSet])%list /\
       snd r = create_err (Name set) /\
       (snd r = true -> ipsetMap (kstate (fst r)) = ipsetMap (kstate k)) /\
       (snd r = false -> map_load (Name set) (ipsetMap (kstate (fst r))) = Some ipSet /\
                         In (Name set) (kernelSets (kstate (fst r)))).
Proof.
  cbv zeta. unfold createIPSet.
  destruct (map_load (Name set) (ipsetMap (kstate k))) as [v|] eqn:Hc; [reflexivity|].
  simpl. unfold backendCreateSet, withCalls.
  destruct (Stack set), enableIPv4, enableIPv6; simpl; try reflexivity;
    destruct (create_err (Name set)) eqn:He; simpl;
    destruct (mem (Name set) (kernelSets (kstate k))) eqn:Hm; simpl;
    (split; [reflexivity|]); (split; [reflexivity|]);
    (split; [intros; first [reflexivity | discriminate] |]);
    intros Hok; try discriminate Hok;
    rewrite map_load_store, String.eqb_refl; (split; [reflexivity|]);
    first [apply mem_In; exact Hm | apply in_or_app; right; left; reflexivity].
Qed.

(** Creating a set that is not cached, then removing it, both succeeding,
    leaves the cache as it was and the set out of the kernel (also when
    the kernel had it before), after one [CreateSet] and one
    [DestroySet]. *)
Theorem createIPSet_removeIPSet (create_err destroy_err : string -> bool)
    (enableIPv4 enableIPv6 : bool) (set : SetName) (k : Kernel) :
  map_load (Name set) (ipsetMap (kstate k)) = None ->
  familyEnabled (Stack set) enableIPv4 enableIPv6 = true ->
  create_err (Name set) = false -> destroy_err (Name set) = false ->
  let k' := removeIPSetK destroy_err (Name set)
              (fst (createIPSet create_err enableIPv4 enableIPv6 set k)) in
  snd (createIPSet create_err enableIPv4 enableIPv6 set k) = false /\
  ipsetMap (kstate k') = ipsetMap (kstate k) /\
  kernelSets (kstate k') = filter (fun s => negb (String.eqb s (Name set)))
                             (kernelSets (kstate k)) /\
  ipsetCalls (kstate k') = (ipsetCalls (kstate k) ++
     [CreateSet (mkIPSet (Name set) "hash:net" (HashFamily (Stack set)));
      DestroySet (Name set)])%list.
Proof.
  intros Hc Hf He Hd. cbv zeta. unfold createIPSet. rewrite Hc.
  unfold familyEnabled in Hf.
  replace ((match Stack set with IPv4 => true | IPv6 => false end && negb enableIPv4))
    with false by (destruct (Stack set); subst; reflexivity).
  replace ((match Stack set with IPv4 => false | IPv6 => true end && negb enableIPv6))
    with false by (destruct (Stack set); subst; reflexivity).
  unfold backendCreateSet, withCalls. simpl. rewrite He.
  destruct (mem (Name set) (kernelSets (kstate k))) eqn:Hm; simpl;
    unfold removeIPSetK, removeIPSet; simpl; rewrite map_load_store, String.eqb_refl;
    unfold backendDestroySet; simpl; rewrite Hd; simpl;
    rewrite map_delete_store, map_delete_absent by exact Hc;
    (split; [reflexivity|]); (split; [reflexivity|]);
    rewrite <- ?app_assoc; (split; [|reflexivity]).
  - reflexivity.
  - rewrite filter_app. simpl. rewrite String.eqb_refl, app_nil_r. reflexivity.
Qed.

Lemma createIPSet_removeIPSet_witness :
  map_load "s" (ipsetMap (kstate (mkKernel (mkIpsetState [] ["s"] []) []))) = None /\
  familyEnabled (Stack (mkSetName "s" IPv6 IPSrc)) true true = true /\
  kernelSets (kstate (removeIPSetK (fun _ => false) "s"
     (fst (createIPSet (fun _ => false) true true (mkSetName "s" IPv6 IPSrc)
             (mkKernel (mkIpsetState [] ["s"] []) []))))) = [].
Proof.
  destruct (createIPSet_removeIPSet (fun _ => false) (fun _ => false) true true
              (mkSetName "s" IPv6 IPSrc) (mkKernel (mkIpsetState [] ["s"] []) [])
              eq_refl eq_refl eq_refl eq_refl) as [_ [_ [H _]]].
  split; [reflexivity|]. split; [reflexivity|]. exact H.
Defined.

(** ** [getPolicySrcIPs] and [updatePolicyIPSet] *)

Lemma fold_endpoints (f : EgressEndpoint -> bool) (es : list EgressEndpoint)
    (a b : list string) :
  fold_left (fun '(ipv4List, ipv6List) e =>
      if f e then ((ipv4List ++ EpIPv4 e)%list, (ipv6List ++ EpIPv6 e)%list)
      else (ipv4List, ipv6List)) es (a, b) =
  ((a ++ flat_map (fun e => if f e then EpIPv4 e else []) es)%list,
   (b ++ flat_map (fun e => if f e then EpIPv6 e else []) es)%list).
Proof.
  revert a b. induction es as [|e es IH]; intros a b; simpl.
  - rewrite !app_nil_r. reflexivity.
  - destruct (f e); rewrite IH, ?app_assoc, ?app_nil_r; reflexivity.
Qed.

Lemma getPolicySrcIPs_eq (env : IPSetEnv) (policyNs policyName : string)
    (filter : EgressEndpoint -> bool) :
  getPolicySrcIPs env policyNs policyName filter =
  match listSlices env (String.eqb policyNs "") with
  | None => None
  | Some items =>
      let live := List.filter (fun ep =>
                    match SlicePolicyLabel ep with
                    | Some l => String.eqb l policyName
                    | None => false
                    end && negb (SliceDeleting ep)) items in
      Some (flat_map (fun ep => flat_map (fun e => if filter e then EpIPv4 e else [])
                                  (Endpoints ep)) live,
            flat_map (fun ep => flat_map (fun e => if filter e then EpIPv6 e else [])
                                  (Endpoints ep)) live)
  end.
Proof.
  unfold getPolicySrcIPs, listByLabel.
  destruct (listSlices env (String.eqb policyNs "")) as [items|]; [|reflexivity].
  cbv zeta. f_equal.
  assert (Hgen : forall (a b : list string),
    fold_left (fun acc ep =>
      if negb (SliceDeleting ep) then
        fold_left (fun '(ipv4List, ipv6List) e =>
            if filter e then ((ipv4List ++ EpIPv4 e)%list, (ipv6List ++ EpIPv6 e)%list)
            else (ipv4List, ipv6List)) (Endpoints ep) acc
      else acc)
      (List.filter (fun ep => match SlicePolicyLabel ep with
                              | Some l => String.eqb l policyName
                              | None => false
                              end) items) (a, b) =
    ((a ++ flat_map (fun ep => flat_map (fun e => if filter e then EpIPv4 e else [])
                                  (Endpoints ep))
            (List.filter (fun ep => match SlicePolicyLabel ep with
                    | Some l => String.eqb l policyName
                    | None => false
                    end && negb (SliceDeleting ep)) items))%list,
     (b ++ flat_map (fun ep => flat_map (fun e => if filter e then EpIPv6 e else [])
                                  (Endpoints ep))
            (List.filter (fun ep => match SlicePolicyLabel ep with
                    | Some l => String.eqb l policyName
                    | None => false
                    end && negb (SliceDeleting ep)) items))%list)).
  { induction items as [|ep items IH]; intros a b; simpl; [rewrite !app_nil_r; reflexivity|].
    destruct (match SlicePolicyLabel ep with
              | Some l => String.eqb l policyName
              | None => false
              end); simpl; [|apply IH].
    destruct (SliceDeleting ep); simpl; [apply IH|].
    rewrite fold_endpoints, IH, !app_assoc. reflexivity. }
  apply Hgen.
Qed.

(** [getPolicySrcIPs] lists the endpoint slices (the cluster-scoped kind
    for a cluster policy) by the policy-name label alone, whatever their
    namespace, and concatenates the IPv4 and the IPv6 addresses of the
    endpoints the filter keeps, over every slice not being deleted. *)
Theorem getPolicySrcIPs_collects (env : IPSetEnv) (policyNs policyName : string)
    (filter : EgressEndpoint -> bool) :
  getPolicySrcIPs env policyNs policyName filter =
  match listSlices env (String.eqb policyNs "") with
  | None => None
  | Some items =>
      let live := List.filter (fun ep =>
                    match SlicePolicyLabel ep with
                    | Some l => String.eqb l policyName
                    | None => false
                    end && negb (SliceDeleting ep)) items in
      Some (flat_map (fun ep => flat_map (fun e => if filter e then EpIPv4 e else [])
                                  (Endpoints ep)) live,
            flat_map (fun ep => flat_map (fun e => if filter e then EpIPv6 e else [])
                                  (Endpoints ep)) live)
  end.
Proof. apply getPolicySrcIPs_eq. Qed.

Lemma lookup_set_members (n m : string) (v : list string) (ms : list (string * list string)) :
  lookup_members n (set_members m v ms) =
  if String.eqb n m then v else lookup_members n ms.
Proof.
  unfold lookup_members. induction ms as [|[k w] ms IH]; simpl.
  - destruct (String.eqb_spec m n), (String.eqb_spec n m); congruence.
  - destruct (String.eqb_spec k m); simpl.
    + subst k. destruct (String.eqb_spec m n), (String.eqb_spec n m); congruence.
    + destruct (String.eqb_spec k n); [|exact IH].
      subst k. destruct (String.eqb_spec n m); congruence.
Qed.

Lemma addLoop_spec (v : IPSet) (ips : list string) (k k' : Kernel) :
  mapErr (fun ip k => backendAddEntry ip v k) ips k = (k', false) ->
  ipsetMap (kstate k') = ipsetMap (kstate k) /\
  kernelSets (kstate k') = kernelSets (kstate k) /\
  forall n, lookup_members n (members k') =
    if String.eqb n (SetNameOf v)
    then fold_left (fun m x => set_add x m) ips (lookup_members n (members k))
    else lookup_members n (members k).
Proof.
  revert k. induction ips as [|ip ips IH]; intros k H; simpl in H.
  - injection H as <-. split; [reflexivity|]. split; [reflexivity|].
    intros n. destruct (String.eqb n (SetNameOf v)); reflexivity.
  - unfold backendAddEntry, withCalls in H. simpl in H.
    destruct (mem (SetNameOf v) (kernelSets (kstate k))); [|discriminate].
    apply IH in H. simpl in H. destruct H as [H1 [H2 H3]].
    split; [exact H1|]. split; [exact H2|]. intros n. rewrite H3, !lookup_set_members.
    destruct (String.eqb_spec n (SetNameOf v)); [subst n|]; reflexivity.
Qed.

Lemma delLoop_spec (name : string) (ips : list string) (k k' : Kernel) :
  mapErr (fun ip k => backendDelEntry ip name k) ips k = (k', false) ->
  ipsetMap (kstate k') = ipsetMap (kstate k) /\
  kernelSets (kstate k') = kernelSets (kstate k) /\
  forall n, lookup_members n (members k') =
    if String.eqb n name
    then fold_left (fun m x => set_del x m) ips (lookup_members n (members k))
    else lookup_members n (members k).
Proof.
  revert k. induction ips as [|ip ips IH]; intros k H; simpl in H.
  - injection H as <-. split; [reflexivity|]. split; [reflexivity|].
    intros n. destruct (String.eqb n name); reflexivity.
  - unfold backendDelEntry, withCalls in H. simpl in H.
    destruct (mem name (kernelSets (kstate k)) && mem ip (lookup_members name (members k)));
      [|discriminate].
    apply IH in H. simpl in H. destruct H as [H1 [H2 H3]].
    split; [exact H1|]. split; [exact H2|]. intros n. rewrite H3, !lookup_set_members.
    destruct (String.eqb_spec n name); [subst n|]; reflexivity.
Qed.

Lemma assocL_notin (n : string) (l : list (string * list string)) :
  ~ In n (map fst l) -> assocL n l = [].
Proof.
  unfold assocL. induction l as [|[m ips] l IH]; simpl; intros H; [reflexivity|].
  destruct (String.eqb_spec m n); [exfalso; apply H; left; exact e|].
  apply IH. intros H'. apply H. right. exact H'.
Qed.

Lemma assocL_cons (n m : string) (ips : list string) (l : list (string * list string)) :
  assocL n ((m, ips) :: l) = if String.eqb m n then ips else assocL n l.
Proof. unfold assocL. simpl. destruct (String.eqb m n); reflexivity. Qed.

Lemma assocL_In (n : string) (ips : list string) (l : list (string * list string)) :
  NoDup (map fst l) -> In (n, ips) l -> assocL n l = ips.
Proof.
  induction l as [|[m ips'] l IH]; simpl; intros Hd Hin; [contradiction|].
  inversion Hd as [|? ? Hm Hd']; subst. rewrite assocL_cons.
  destruct Hin as [Heq|Hin].
  - injection Heq as -> ->. rewrite String.eqb_refl. reflexivity.
  - destruct (String.eqb_spec m n); [|exact (IH Hd' Hin)].
    subst m. exfalso. apply Hm. apply (in_map fst) in Hin. exact Hin.
Qed.

Lemma addEntries_spec (L : list (string * list string)) (k k' : Kernel) :
  NoDup (map fst L) ->
  (forall n ips, In (n, ips) L ->
     exists v, map_load n (ipsetMap (kstate k)) = Some v /\ SetNameOf v = n) ->
  addEntries L k = (k', false) ->
  ipsetMap (kstate k') = ipsetMap (kstate k) /\
  kernelSets (kstate k') = kernelSets (kstate k) /\
  forall n, lookup_members n (members k') =
    fold_left (fun m x => set_add x m) (assocL n L) (lookup_members n (members k)).
Proof.
  unfold addEntries. revert k. induction L as [|[m ips] L IH]; intros k Hd Hc H; simpl in H.
  - injection H as <-. split; [reflexivity|]. split; [reflexivity|]. reflexivity.
  - inversion Hd as [|? ? Hm Hd']; subst.
    destruct (Hc m ips (or_introl eq_refl)) as [v [Hv Hvn]]. rewrite Hv in H.
    destruct (mapErr (fun ip k => backendAddEntry ip v k) ips k) as [k1 e] eqn:Hi.
    destruct e; [discriminate|].
    apply addLoop_spec in Hi. destruct Hi as [Hi1 [Hi2 Hi3]].
    apply IH in H; [|exact Hd'|].
    + destruct H as [H1 [H2 H3]].
      split; [congruence|]. split; [congruence|]. intros n.
      rewrite H3, Hi3, assocL_cons, Hvn.
      destruct (String.eqb_spec n m), (String.eqb_spec m n); try congruence.
      subst n. rewrite assocL_notin by exact Hm. reflexivity.
    + intros n ips' Hin. rewrite Hi1. apply (Hc n ips'). right. exact Hin.
Qed.

Lemma delEntries_spec (L : list (string * list string)) (k k' : Kernel) :
  NoDup (map fst L) ->
  delEntries L k = (k', false) ->
  ipsetMap (kstate k') = ipsetMap (kstate k) /\
  kernelSets (kstate k') = kernelSets (kstate k) /\
  forall n, lookup_members n (members k') =
    fold_left (fun m x => set_del x m) (assocL n L) (lookup_members n (members k)).
Proof.
  unfold delEntries. revert k. induction L as [|[m ips] L IH]; intros k Hd H; simpl in H.
  - injection H as <-. split; [reflexivity|]. split; [reflexivity|]. reflexivity.
  - inversion Hd as [|? ? Hm Hd']; subst.
    destruct (mapErr (fun ip k => backendDelEntry ip m k) ips k) as [k1 e] eqn:Hi.
    destruct e; [discriminate|].
    apply delLoop_spec in Hi. destruct Hi as [Hi1 [Hi2 Hi3]].
    apply IH in H; [|exact Hd']. destruct H as [H1 [H2 H3]].
    split; [congruence|]. split; [congruence|]. intros n.
    rewrite H3, Hi3, assocL_cons.
    destruct (String.eqb_spec n m), (String.eqb_spec m n); try congruence.
    subst n. rewrite assocL_notin by exact Hm. reflexivity.
Qed.

Lemma createIPSet_step (create_err : string -> bool) (enableIPv4 enableIPv6 : bool)
    (set : SetName) (k k' : Kernel) :
  cacheOK k -> createIPSet create_err enableIPv4 enableIPv6 set k = (k', false) ->
  cacheOK k' /\
  (forall n, map_load n (ipsetMap (kstate k)) <> None ->
             map_load n (ipsetMap (kstate k')) <> None) /\
  (familyEnabled (Stack set) enableIPv4 enableIPv6 = true ->
     map_load (Name set) (ipsetMap (kstate k')) <> None).
Proof.
  intros Hok H. unfold createIPSet in H.
  destruct (map_load (Name set) (ipsetMap (kstate k))) as [v|] eqn:Hc.
  { injection H as <-. split; [exact Hok|]. split; [tauto|]. intros _. congruence. }
  assert (Hnew : forall k1,
    backendCreateSet create_err (mkIPSet (Name set) "hash:net" (HashFamily (Stack set))) k =
      (k1, false) ->
    cacheOK (mkKernel (mkIpsetState
      (map_store (Name set) (mkIPSet (Name set) "hash:net" (HashFamily (Stack set)))
         (ipsetMap (kstate k1))) (kernelSets (kstate k1)) (ipsetCalls (kstate k1)))
      (members k1)) /\
    (forall n, map_load n (ipsetMap (kstate k)) <> None ->
       map_load n (map_store (Name set) (mkIPSet (Name set) "hash:net" (HashFamily (Stack set)))
         (ipsetMap (kstate k1))) <> None) /\
    map_load (Name set) (map_store (Name set) (mkIPSet (Name set) "hash:net"
       (HashFamily (Stack set))) (ipsetMap (kstate k1))) <> None).
  { intros k1 Hb. unfold backendCreateSet, withCalls in Hb. simpl in Hb.
    destruct (create_err (Name set)); [discriminate|].
    assert (Hk1 : ipsetMap (kstate k1) = ipsetMap (kstate k) /\
                  In (Name set) (kernelSets (kstate k1)) /\
                  forall n, In n (kernelSets (kstate k)) -> In n (kernelSets (kstate k1))).
    { destruct (mem (Name set) (kernelSets (kstate k))) eqn:Hm; injection Hb as <-; simpl.
      - split; [reflexivity|]. split; [apply mem_In; exact Hm|tauto].
      - split; [reflexivity|]. split; [apply in_or_app; right; left; reflexivity|].
        intros n Hn. apply in_or_app. left. exact Hn. }
    destruct Hk1 as [Hk1a [Hk1b Hk1c]].
    split; [|split].
    - intros n w Hw. simpl in Hw. rewrite map_load_store in Hw. simpl.
      destruct (String.eqb_spec n (Name set)).
      + injection Hw as <-. subst n. split; [reflexivity|exact Hk1b].
      + rewrite Hk1a in Hw. destruct (Hok n w Hw) as [Hw1 Hw2].
        split; [exact Hw1|apply Hk1c; exact Hw2].
    - intros n Hn. rewrite map_load_store, Hk1a.
      destruct (String.eqb n (Name set)); [discriminate|exact Hn].
    - rewrite map_load_store, String.eqb_refl. discriminate. }
  revert Hnew. destruct (Stack set) eqn:Hs, enableIPv4, enableIPv6; intros Hnew; simpl in H;
    try (injection H as <-; split; [exact Hok|]; split; [tauto|];
         unfold familyEnabled; intros Hf; discriminate);
    destruct (backendCreateSet create_err _ k) as [k1 e] eqn:Hb;
    (destruct e; [discriminate|]); injection H as <-;
    destruct (Hnew k1 eq_refl) as [Hn1 [Hn2 Hn3]];
    (split; [exact Hn1|]); (split; [exact Hn2|]); intros _; exact Hn3.
Qed.

Lemma createIPSets_spec (create_err : string -> bool) (enableIPv4 enableIPv6 : bool)
    (l : list SetName) (k k' : Kernel) :
  cacheOK k ->
  (forall set, In set l -> familyEnabled (Stack set) enableIPv4 enableIPv6 = true) ->
  mapErr (createIPSet create_err enableIPv4 enableIPv6) l k = (k', false) ->
  cacheOK k' /\ forall set, In set l -> map_load (Name set) (ipsetMap (kstate k')) <> None.
Proof.
  revert k. induction l as [|set l IH]; intros k Hok Hf H; simpl in H.
  - injection H as <-. split; [exact Hok|]. intros _ [].
  - destruct (createIPSet create_err enableIPv4 enableIPv6 set k) as [k1 e] eqn:Hc.
    destruct e; [discriminate|].
    destruct (createIPSet_step _ _ _ _ _ _ Hok Hc) as [Hk1 [Hpers Hnew]].
    assert (Hmono : forall k2 k3 l',
      mapErr (createIPSet create_err enableIPv4 enableIPv6) l' k2 = (k3, false) ->
      cacheOK k2 -> forall n, map_load n (ipsetMap (kstate k2)) <> None ->
                              map_load n (ipsetMap (kstate k3)) <> None).
    { intros k2 k3 l'. revert k2. induction l' as [|s' l' IH']; intros k2 H2 Hok2 n Hn;
        simpl in H2; [injection H2 as <-; exact Hn|].
      destruct (createIPSet create_err enableIPv4 enableIPv6 s' k2) as [k4 e4] eqn:Hc4.
      destruct e4; [discriminate|].
      destruct (createIPSet_step _ _ _ _ _ _ Hok2 Hc4) as [Hk4 [Hp4 _]].
      apply (IH' k4 H2 Hk4). apply Hp4. exact Hn. }
    split.
    + apply (IH k1 Hk1); [|exact H]. intros s Hs. apply Hf. right. exact Hs.
    + intros s [<-|Hs].
      * apply (Hmono k1 k' l H Hk1). apply Hnew. apply Hf. left. reflexivity.
      * apply (IH k1 Hk1); [|exact H|exact Hs]. intros s' Hs'. apply Hf. right. exact Hs'.
Qed.

Lemma buildIPSetNames_enabled (ns name : string) (enableIPv4 enableIPv6 : bool)
    (set : SetName) :
  In set (buildIPSetNamesByPolicy ns name enableIPv4 enableIPv6) ->
  familyEnabled (Stack set) enableIPv4 enableIPv6 = true.
Proof.
  unfold buildIPSetNamesByPolicy. cbv zeta.
  destruct enableIPv4, enableIPv6; simpl; intros H;
    repeat (destruct H as [<-|H]; [reflexivity|]); contradiction.
Qed.

Lemma diffs_of_cached (env : IPSetEnv) (src4 src6 dst4 dst6 : list string) (k : Kernel)
    (l : list SetName) :
  cacheOK k ->
  (forall set, In set l ->
     familyEnabled (Stack set) (envEnableIPv4 env) (envEnableIPv6 env) = true /\
     map_load (Name set) (ipsetMap (kstate k)) <> None) ->
  filter_some (map (diffOf env src4 src6 dst4 dst6 k) l) =
  map (fun set => (Name set, findDiff (lookup_members (Name set) (members k))
                                      (desiredOf src4 src6 dst4 dst6 set))) l.
Proof.
  intros Hok. induction l as [|set l IH]; intros Hl; simpl; [reflexivity|].
  destruct (Hl set (or_introl eq_refl)) as [Hf Hc].
  assert (Hin : ListEntries (Name set) k = Some (lookup_members (Name set) (members k))).
  { unfold ListEntries.
    destruct (map_load (Name set) (ipsetMap (kstate k))) as [v|] eqn:Hv; [|congruence].
    destruct (Hok _ _ Hv) as [_ Hk]. apply mem_In in Hk. rewrite Hk. reflexivity. }
  unfold diffOf at 1. rewrite Hin. unfold desiredOf, familyEnabled in *.
  rewrite IH by (intros s Hs; apply Hl; right; exact Hs).
  destruct (Stack set), (Kind set); simpl; rewrite ?Hf; reflexivity.
Qed.

Lemma updatePolicyIPSet_spec (env : IPSetEnv) (policyNs policyName : string)
    (isEipNodeSet : bool) (destSubnet : list string) (k k' : Kernel)
    (src4 src6 dst4 dst6 : list string) :
  cacheOK k ->
  getPolicySrcIPs env policyNs policyName
    (srcFilter (envNodeName env) isEipNodeSet) = Some (src4, src6) ->
  getDstCIDR destSubnet = Some (dst4, dst6) ->
  updatePolicyIPSet env policyNs policyName isEipNodeSet destSubnet k = (k', false) ->
  forall set, In set (buildIPSetNamesByPolicy policyNs policyName
                        (envEnableIPv4 env) (envEnableIPv6 env)) ->
  exists l, ListEntries (Name set) k' = Some l /\
    forall x, In x l <-> In x (map findDiff_normalize (desiredOf src4 src6 dst4 dst6 set)).
Proof.
  intros Hok Hsrc Hdst H set Hset. unfold updatePolicyIPSet in H.
  rewrite Hsrc, Hdst in H.
  set (setNames := buildIPSetNamesByPolicy policyNs policyName
                     (envEnableIPv4 env) (envEnableIPv6 env)) in *.
  destruct (mapErr (createIPSet (envCreateErr env) (envEnableIPv4 env) (envEnableIPv6 env))
              setNames k) as [k1 e1] eqn:Hc.
  destruct e1; [discriminate|].
  assert (Hfam : forall s, In s setNames ->
            familyEnabled (Stack s) (envEnableIPv4 env) (envEnableIPv6 env) = true)
    by (intros s Hs; exact (buildIPSetNames_enabled _ _ _ _ _ Hs)).
  destruct (createIPSets_spec _ _ _ _ _ _ Hok Hfam Hc) as [Hok1 Hcached].
  rewrite (diffs_of_cached env src4 src6 dst4 dst6 k1 setNames Hok1
             (fun s Hs => conj (Hfam s Hs) (Hcached s Hs))) in H.
  rewrite !map_map in H. cbn [fst snd] in H.
  set (des := desiredOf src4 src6 dst4 dst6) in *.
  assert (Hnd : forall f : SetName -> list string,
            NoDup (map fst (map (fun s => (Name s, f s)) setNames))).
  { intros f. rewrite map_map. apply ipset_names_nodup. }
  destruct (addEntries (map (fun s => (Name s, fst (findDiff (lookup_members (Name s) (members k1)) (des s)))) setNames) k1)
    as [k2 e2] eqn:Ha.
  destruct e2; [discriminate|].
  assert (Hcache : forall n ips,
    In (n, ips) (map (fun s => (Name s, fst (findDiff (lookup_members (Name s) (members k1)) (des s)))) setNames) ->
    exists v, map_load n (ipsetMap (kstate k1)) = Some v /\ SetNameOf v = n).
  { intros n ips Hin. apply in_map_iff in Hin. destruct Hin as [s [Hs Hin]].
    injection Hs as <- _.
    destruct (map_load (Name s) (ipsetMap (kstate k1))) as [v|] eqn:Hv;
      [|exfalso; exact (Hcached s Hin Hv)].
    exists v. split; [reflexivity|]. exact (proj1 (Hok1 _ _ Hv)). }
  apply (addEntries_spec _ _ _ (Hnd (fun s => fst (findDiff (lookup_members (Name s) (members k1)) (des s)))) Hcache) in Ha.
  apply (delEntries_spec _ _ _ (Hnd (fun s => snd (findDiff (lookup_members (Name s) (members k1)) (des s))))) in H.
  destruct Ha as [_ [Ha2 Ha3]]. destruct H as [_ [H2 H3]].
  exists (lookup_members (Name set) (members k')).
  split.
  - unfold ListEntries. rewrite H2, Ha2.
    destruct (map_load (Name set) (ipsetMap (kstate k1))) as [v|] eqn:Hv;
      [|exfalso; exact (Hcached set Hset Hv)].
    destruct (Hok1 _ _ Hv) as [_ Hk]. apply mem_In in Hk. rewrite Hk. reflexivity.
  - intros x. rewrite H3, Ha3.
    rewrite (assocL_In (Name set) (snd (findDiff (lookup_members (Name set) (members k1)) (des set)))
               (map (fun s => (Name s, snd (findDiff (lookup_members (Name s) (members k1)) (des s))))
                  setNames))
      by (first [apply (Hnd (fun s => snd (findDiff (lookup_members (Name s) (members k1)) (des s))))
                | apply (in_map (fun s => (Name s, snd (findDiff (lookup_members (Name s) (members k1)) (des s))))); exact Hset]).
    rewrite (assocL_In (Name set) (fst (findDiff (lookup_members (Name set) (members k1)) (des set)))
               (map (fun s => (Name s, fst (findDiff (lookup_members (Name s) (members k1)) (des s))))
                  setNames))
      by (first [apply (Hnd (fun s => fst (findDiff (lookup_members (Name s) (members k1)) (des s))))
                | apply (in_map (fun s => (Name s, fst (findDiff (lookup_members (Name s) (members k1)) (des s))))); exact Hset]).
    rewrite In_fold_set_del, In_fold_set_add. unfold findDiff. cbv zeta. simpl.
    rewrite !In_filter_not_mem.
    destruct (In_dec_string x (lookup_members (Name set) (members k1))), (In_dec_string x (map findDiff_normalize (des set)));
      tauto.
Qed.

(** After [updatePolicyIPSet] succeeds, from a cache that only holds sets
    of the kernel under their own names, every set of the policy exists
    in the kernel and holds exactly the normalized entries wanted for it:
    the source addresses of its family for a source set, the destination
    CIDRs of its family for a destination set. *)
Theorem updatePolicyIPSet_sets_match (env : IPSetEnv) (policyNs policyName : string)
    (isEipNodeSet : bool) (destSubnet : list string) (k k' : Kernel)
    (src4 src6 dst4 dst6 : list string) :
  cacheOK k ->
  getPolicySrcIPs env policyNs policyName
    (srcFilter (envNodeName env) isEipNodeSet) = Some (src4, src6) ->
  getDstCIDR destSubnet = Some (dst4, dst6) ->
  updatePolicyIPSet env policyNs policyName isEipNodeSet destSubnet k = (k', false) ->
  forall set, In set (buildIPSetNamesByPolicy policyNs policyName
                        (envEnableIPv4 env) (envEnableIPv6 env)) ->
  exists l, ListEntries (Name set) k' = Some l /\
    forall x, In x l <-> In x (map findDiff_normalize (desiredOf src4 src6 dst4 dst6 set)).
Proof. apply updatePolicyIPSet_spec. Qed.

Lemma updatePolicyIPSet_sets_match_witness :
  let env := mkIPSetEnv "nodeA" true false (fun _ => false)
               (fun cluster => if cluster then Some []
                               else Some [mkEndpointSlice "other" (Some "app") false
                                            [mkEgressEndpoint "nodeA" ["10.0.0.5"] []]]) in
  let k := mkKernel (mkIpsetState [] [] []) [] in
  let set := mkSetName (ipsetName "egress-src-v4-" "default-app") IPv4 IPSrc in
  cacheOK k /\
  In set (buildIPSetNamesByPolicy "default" "app" true false) /\
  exists l, ListEntries (Name set)
              (fst (updatePolicyIPSet env "default" "app" false ["10.6.0.0/16"] k)) = Some l /\
    forall x, In x l <-> In x (map findDiff_normalize
                                (desiredOf ["10.0.0.5"] [] ["10.6.0.0/16"] [] set)).
Proof.
  intros env k set.
  assert (Hok : cacheOK k) by (intros n v H; discriminate H).
  assert (Hin : In set (buildIPSetNamesByPolicy "default" "app" true false))
    by (vm_compute; left; reflexivity).
  split; [exact Hok|]. split; [exact Hin|].
  apply (updatePolicyIPSet_sets_match env "default" "app" false ["10.6.0.0/16"] k
           (fst (updatePolicyIPSet env "default" "app" false ["10.6.0.0/16"] k))
           ["10.0.0.5"] [] ["10.6.0.0/16"] [] Hok); [vm_compute; reflexivity
                                                   | vm_compute; reflexivity
                                                   | vm_compute; reflexivity
                                                   | exact Hin].
Defined.

Lemma flat_map_filter_endpoints (f : EgressEndpoint -> bool)
    (g : EgressEndpoint -> list string) (L : list EndpointSlice) :
  flat_map (fun ep => flat_map (fun e => if f e then g e else []) (Endpoints ep)) L =
  flat_map g (filter f (flat_map Endpoints L)).
Proof.
  assert (Hin : forall es : list EgressEndpoint,
            flat_map (fun e => if f e then g e else []) es = flat_map g (filter f es)).
  { induction es as [|e es IH]; simpl; [reflexivity|].
    destruct (f e); simpl; rewrite IH; reflexivity. }
  induction L as [|ep L IH]; simpl; [reflexivity|].
  rewrite filter_app, flat_map_app, Hin, IH. reflexivity.
Qed.

(** On a live policy whose EgressGateway (fetched under the policy's own
    name) lists it, a successful update leaves each source set of the
    policy holding exactly the normalized addresses of its family of the
    endpoints, in the live slices labelled with the policy's name, that
    run on this node, or of all those endpoints when the last node listing
    the policy in the gateway status is this node. *)
Theorem reconcilePolicyUpdate_src_sets (env : IPSetEnv)
    (getGateway : string -> string -> option EgressGateway)
    (policyNs policyName : string) (destSubnet : list string) (k k' : Kernel)
    (gateway : EgressGateway) (items : list EndpointSlice) :
  cacheOK k ->
  getGateway policyNs policyName = Some gateway ->
  listSlices env (String.eqb policyNs "") = Some items ->
  reconcilePolicyUpdate env getGateway policyNs policyName destSubnet k = (k', false) ->
  let onEipNode :=
    String.eqb (last (map NName (filter (listsPolicy policyName policyNs) (NodeList gateway))) "")
               (envNodeName env) in
  let live := filter (fun ep => match SlicePolicyLabel ep with
                                | Some l => String.eqb l policyName
                                | None => false
                                end && negb (SliceDeleting ep)) items in
  let kept := filter (fun e => String.eqb (EpNode e) (envNodeName env) || onEipNode)
                (flat_map Endpoints live) in
  forall set, In set (buildIPSetNamesByPolicy policyNs policyName
                        (envEnableIPv4 env) (envEnableIPv6 env)) ->
  Kind set = IPSrc ->
  exists l, ListEntries (Name set) k' = Some l /\
    forall x, In x l <-> In x (map findDiff_normalize
                (flat_map (match Stack set with IPv4 => EpIPv4 | IPv6 => EpIPv6 end) kept)).
Proof.
  intros Hok Hg Hl H onEipNode live kept set Hset Hkind.
  unfold reconcilePolicyUpdate in H. rewrite Hg, policyNodeName_eq in H.
  assert (Hflag : (if onEipNode then true else false) = onEipNode)
    by (destruct onEipNode; reflexivity).
  change (updatePolicyIPSet env policyNs policyName (if onEipNode then true else false)
            destSubnet k = (k', false)) in H.
  rewrite Hflag in H.
  destruct (getPolicySrcIPs env policyNs policyName (srcFilter (envNodeName env) onEipNode))
    as [[src4 src6]|] eqn:Hs;
    [|unfold updatePolicyIPSet in H; rewrite Hs in H; discriminate].
  destruct (getDstCIDR destSubnet) as [[dst4 dst6]|] eqn:Hd;
    [|unfold updatePolicyIPSet in H; rewrite Hs, Hd in H; discriminate].
  destruct (updatePolicyIPSet_spec env policyNs policyName onEipNode destSubnet k k'
              src4 src6 dst4 dst6 Hok Hs Hd H set Hset) as [l [Hl1 Hl2]].
  exists l. split; [exact Hl1|]. intros x. rewrite Hl2.
  rewrite getPolicySrcIPs_eq, Hl in Hs. injection Hs as Hs4 Hs6.
  assert (Hf : forall e, srcFilter (envNodeName env) onEipNode e =
                         String.eqb (EpNode e) (envNodeName env) || onEipNode)
    by (intros e; unfold srcFilter; destruct (String.eqb (EpNode e) (envNodeName env)), onEipNode;
        reflexivity).
  unfold desiredOf. rewrite Hkind.
  destruct (Stack set).
  - rewrite <- Hs4, flat_map_filter_endpoints. unfold kept.
    rewrite (filter_ext _ _ Hf). reflexivity.
  - rewrite <- Hs6, flat_map_filter_endpoints. unfold kept.
    rewrite (filter_ext _ _ Hf). reflexivity.
Qed.

Lemma reconcilePolicyUpdate_src_sets_witness :
  let env := mkIPSetEnv "nodeA" true false (fun _ => false)
               (fun cluster => if cluster then Some []
                               else Some [mkEndpointSlice "other" (Some "app") false
                                            [mkEgressEndpoint "nodeA" ["10.0.0.5"] [];
                                             mkEgressEndpoint "nodeB" ["10.0.0.6"] []]]) in
  let gateway := mkEgressGateway [mkEgressIPStatus "nodeB"
                   [mkEip "172.18.0.10" "" [mkPolicy "app" "default"]]] in
  let getGateway := fun ns name => if String.eqb ns "default" && String.eqb name "app"
                                   then Some gateway else None in
  let k := mkKernel (mkIpsetState [] [] []) [] in
  let set := mkSetName (ipsetName "egress-src-v4-" "default-app") IPv4 IPSrc in
  let k' := fst (reconcilePolicyUpdate env getGateway "default" "app" [] k) in
  reconcilePolicyUpdate env getGateway "default" "app" [] k = (k', false) /\
  exists l, ListEntries (Name set) k' = Some l /\
    forall x, In x l <-> In x (map findDiff_normalize ["10.0.0.5"]).
Proof.
  intros env gateway getGateway k set k'.
  assert (Hok : cacheOK k) by (intros n v H; discriminate H).
  assert (Hr : reconcilePolicyUpdate env getGateway "default" "app" [] k = (k', false))
    by (vm_compute; reflexivity).
  split; [exact Hr|].
  exact (reconcilePolicyUpdate_src_sets env getGateway "default" "app" [] k k' gateway
           (match listSlices env false with Some l => l | None => [] end)
           Hok eq_refl eq_refl Hr set (or_introl eq_refl) eq_refl).
Defined.

(** [updatePolicyIPSet] reads the endpoint slices and parses the
    destination subnets before touching the kernel: when the listing fails
    or a destination is not a CIDR, it returns an error and makes no
    backend call. *)
Theorem updatePolicyIPSet_validates_first (env : IPSetEnv) (policyNs policyName : string)
    (isEipNodeSet : bool) (destSubnet : list string) (k : Kernel) :
  getPolicySrcIPs env policyNs policyName (srcFilter (envNodeName env) isEipNodeSet) = None \/
  getDstCIDR destSubnet = None ->
  updatePolicyIPSet env policyNs policyName isEipNodeSet destSubnet k = (k, true).
Proof.
  intros H. unfold updatePolicyIPSet.
  destruct (getPolicySrcIPs env policyNs policyName (srcFilter (envNodeName env) isEipNodeSet))
    as [[src4 src6]|]; [|reflexivity].
  destruct H as [H|H]; [discriminate|]. rewrite H. reflexivity.
Qed.

Lemma updatePolicyIPSet_validates_first_witness :
  let env := mkIPSetEnv "nodeA" true true (fun _ => false) (fun _ => Some []) in
  let k := mkKernel (mkIpsetState [] ["s"] []) [("s", ["10.0.0.1"])] in
  (getPolicySrcIPs env "default" "app" (srcFilter "nodeA" false) = None \/
   getDstCIDR ["10.6.1.92"] = None) /\
  updatePolicyIPSet env "default" "app" false ["10.6.1.92"] k = (k, true).
Proof.
  intros env k.
  assert (H : getPolicySrcIPs env "default" "app" (srcFilter "nodeA" false) = None \/
              getDstCIDR ["10.6.1.92"] = None) by (right; vm_compute; reflexivity).
  split; [exact H|]. exact (updatePolicyIPSet_validates_first env "default" "app" false
                              ["10.6.1.92"] k H).
Defined.

(** ** The [process] closure of [reconcileClusterInfo] *)

Lemma filter_filter_and {A : Type} (p q : A -> bool) (l : list A) :
  filter p (filter q l) = filter (fun x => q x && p x) l.
Proof.
  induction l as [|x l IH]; simpl; [reflexivity|].
  destruct (q x); simpl; [destruct (p x); simpl; rewrite IH|rewrite IH]; reflexivity.
Qed.

Lemma fold_delete_has (got exp : list string) :
  fold_left (fun exp key => if Has exp key then Delete key exp else exp) got exp =
  filter (fun x => negb (Has got x)) exp.
Proof.
  revert exp. induction got as [|key got IH]; intros exp; simpl.
  - symmetry. apply forallb_filter_id. apply forallb_forall. reflexivity.
  - assert (Hd : (if Has exp key then Delete key exp else exp) = Delete key exp).
    { destruct (Has exp key) eqn:Hh; [reflexivity|].
      unfold Delete. symmetry. apply forallb_filter_id, forallb_forall.
      intros y Hy. apply negb_true_iff, String.eqb_neq. intros ->.
      unfold Has in Hh.
      assert (Ht : existsb (String.eqb key) exp = true)
        by (apply existsb_exists; exists key; split; [exact Hy|apply String.eqb_refl]).
      congruence. }
    rewrite Hd, IH. unfold Delete. rewrite filter_filter_and.
    apply filter_ext. intros x. unfold Has. simpl.
    destruct (String.eqb x key), (existsb _ got); reflexivity.
Qed.

Lemma fold_delete_none (got L exp : list string) :
  (forall k, In k L -> Has got k = false) ->
  fold_left (fun exp' key => if Has got key then Delete key exp' else exp') L exp = exp.
Proof.
  revert exp. induction L as [|key L IH]; intros exp H; simpl; [reflexivity|].
  rewrite (H key (or_introl eq_refl)). apply IH. intros k Hk. apply H. right. exact Hk.
Qed.

Lemma process_eq {S : Type} (gotList expList : list string)
    (toAdd toDel : string -> S -> option S) (st : S) :
  process gotList expList toAdd toDel st =
  match forEach toAdd (filter (fun x => negb (Has (NewString gotList) x))
                              (NewString expList)) st with
  | Some st' => forEach toDel (NewString gotList) st'
  | None => None
  end.
Proof.
  unfold process. cbv zeta. rewrite fold_delete_has, fold_delete_none; [reflexivity|].
  intros k Hk. apply filter_In in Hk. destruct Hk as [_ Hk].
  apply negb_true_iff in Hk. exact Hk.
Qed.

(** [process] adds, in sorted order, the wanted entries that are not
    already in the set, stopping at the first error, then deletes every
    entry that was in the set, the wanted ones included: its second
    [Delete] loop never removes anything. *)
Theorem process_adds_then_deletes_all {S : Type} (gotList expList : list string)
    (toAdd toDel : string -> S -> option S) (st : S) :
  process gotList expList toAdd toDel st =
  match forEach toAdd (filter (fun x => negb (Has (NewString gotList) x))
                              (NewString expList)) st with
  | Some st' => forEach toDel (NewString gotList) st'
  | None => None
  end.
Proof. apply process_eq. Qed.

End FurtherProperties.

Section ClusterInfoProperties.

Lemma find_app_pair (n : string) (l r : list (string * list string)) :
  find (fun kv => String.eqb (fst kv) n) (l ++ r) =
  match find (fun kv => String.eqb (fst kv) n) l with
  | Some kv => Some kv
  | None => find (fun kv => String.eqb (fst kv) n) r
  end.
Proof.
  induction l as [|[k w] l IH]; simpl; [reflexivity|].
  destruct (String.eqb k n); [reflexivity|exact IH].
Qed.

Lemma lookupSet_create (n : string) (s : IPSet) (st st' : SetBackend) :
  backendCreateSet s st = Some st' ->
  lookupSet n st' =
  if String.eqb n (SetNameOf s)
  then Some (match lookupSet n st with Some l => l | None => [] end)
  else lookupSet n st.
Proof.
  unfold backendCreateSet. intros H.
  destruct (lookupSet (SetNameOf s) st) as [l|] eqn:Hl; injection H as <-.
  - unfold lookupSet at 1. simpl. fold (lookupSet n st).
    destruct (String.eqb_spec n (SetNameOf s)); [subst n; rewrite Hl|]; reflexivity.
  - unfold lookupSet in *. simpl. rewrite find_app_pair.
    destruct (String.eqb_spec n (SetNameOf s)).
    + subst n. destruct (find _ (setEntries st)) as [[k v]|]; [discriminate|].
      simpl. rewrite String.eqb_refl. reflexivity.
    + destruct (find (fun kv => String.eqb (fst kv) n) (setEntries st)) as [[k v]|];
        [reflexivity|]. simpl.
      destruct (String.eqb_spec (SetNameOf s) n); congruence.
Qed.

Lemma lookupSet_replace (n m : string) (v : list string) (l : list (string * list string)) :
  find (fun kv => String.eqb (fst kv) n) (replaceSet m v l) =
  if String.eqb n m
  then match find (fun kv => String.eqb (fst kv) n) l with
       | Some (k, _) => Some (k, v)
       | None => None
       end
  else find (fun kv => String.eqb (fst kv) n) l.
Proof.
  induction l as [|[k w] l IH]; simpl.
  - destruct (String.eqb n m); reflexivity.
  - destruct (String.eqb_spec k m); simpl.
    + subst k. destruct (String.eqb_spec m n), (String.eqb_spec n m); congruence.
    + rewrite IH. destruct (String.eqb_spec k n); [|reflexivity].
      subst k. destruct (String.eqb_spec n m); congruence.
Qed.

Lemma lookupSet_replace_get (n m : string) (v : list string) (st : SetBackend)
    (calls : list IpsetCall) :
  lookupSet n (mkSetBackend (replaceSet m v (setEntries st)) calls) =
  if String.eqb n m
  then match lookupSet n st with Some _ => Some v | None => None end
  else lookupSet n st.
Proof.
  unfold lookupSet. simpl. rewrite lookupSet_replace.
  destruct (String.eqb n m); [|reflexivity].
  destruct (find _ (setEntries st)) as [[k w]|]; reflexivity.
Qed.

Lemma forEach_add_spec (m : string) (A : list string) (st st' : SetBackend) :
  forEach (fun item => backendAddEntry item m) A st = Some st' ->
  (forall n, n <> m -> lookupSet n st' = lookupSet n st) /\
  (forall M, lookupSet m st = Some M ->
     lookupSet m st' = Some (fold_left (fun ms x => set_add x ms) A M)).
Proof.
  revert st. induction A as [|x A IH]; intros st H; simpl in H.
  - injection H as <-. split; [reflexivity|]. intros M HM. exact HM.
  - unfold backendAddEntry in H.
    destruct (lookupSet m st) as [M0|] eqn:Hm; [|discriminate].
    apply IH in H. destruct H as [H1 H2].
    split.
    + intros n Hn. rewrite H1 by exact Hn. rewrite lookupSet_replace_get.
      apply String.eqb_neq in Hn. rewrite Hn. reflexivity.
    + intros M HM. injection HM as <-. simpl. apply H2.
      rewrite lookupSet_replace_get, String.eqb_refl, Hm. reflexivity.
Qed.

Lemma forEach_del_spec (m : string) (D : list string) (st st' : SetBackend) :
  forEach (fun item => backendDelEntry item m) D st = Some st' ->
  (forall n, n <> m -> lookupSet n st' = lookupSet n st) /\
  (forall M, lookupSet m st = Some M ->
     lookupSet m st' = Some (fold_left (fun ms x => set_del x ms) D M)).
Proof.
  revert st. induction D as [|x D IH]; intros st H; simpl in H.
  - injection H as <-. split; [reflexivity|]. intros M HM. exact HM.
  - unfold backendDelEntry in H.
    destruct (lookupSet m st) as [M0|] eqn:Hm; [|discriminate].
    destruct (existsb (String.eqb x) M0); [|discriminate].
    apply IH in H. destruct H as [H1 H2].
    split.
    + intros n Hn. rewrite H1 by exact Hn. rewrite lookupSet_replace_get.
      apply String.eqb_neq in Hn. rewrite Hn. reflexivity.
    + intros M HM. injection HM as <-. simpl. apply H2.
      rewrite lookupSet_replace_get, String.eqb_refl, Hm. reflexivity.
Qed.

Lemma In_set_insert (x y : string) (s : list string) :
  In x (set_insert y s) <-> x = y \/ In x s.
Proof.
  induction s as [|z s IH]; simpl; [intuition congruence|].
  destruct (String.eqb_spec y z); [subst z; simpl; intuition congruence|].
  destruct (str_ltb y z); simpl; [intuition congruence|]. rewrite IH. intuition congruence.
Qed.

Lemma In_NewString (x : string) (l : list string) : In x (NewString l) <-> In x l.
Proof.
  unfold NewString.
  assert (Hgen : forall acc, In x (fold_left (fun s y => set_insert y s) l acc) <->
                             In x acc \/ In x l).
  { induction l as [|y l IH]; intros acc; simpl; [tauto|].
    rewrite IH, In_set_insert. intuition. }
  rewrite Hgen. simpl. tauto.
Qed.

Lemma process_members (m : string) (gotList expList : list string) (st st' : SetBackend) :
  lookupSet m st = Some gotList ->
  process gotList expList (fun item => backendAddEntry item m)
    (fun item => backendDelEntry item m) st = Some st' ->
  (forall n, n <> m -> lookupSet n st' = lookupSet n st) /\
  exists l, lookupSet m st' = Some l /\
    forall x, In x l <-> In x expList /\ ~ In x gotList.
Proof.
  intros Hm H. rewrite process_eq in H.
  destruct (forEach _ _ st) as [st1|] eqn:Ha; [|discriminate].
  apply forEach_add_spec in Ha. apply forEach_del_spec in H.
  destruct Ha as [Ha1 Ha2]. destruct H as [H1 H2].
  split; [intros n Hn; rewrite H1, Ha1 by exact Hn; reflexivity|].
  eexists. split; [apply H2, Ha2, Hm|].
  intros x. rewrite In_fold_set_del, In_fold_set_add, filter_In, negb_true_iff, !In_NewString.
  assert (Hh : Has (NewString gotList) x = false <-> ~ In x gotList).
  { unfold Has. rewrite <- In_NewString. fold (mem x (NewString gotList)).
    apply mem_false_not_In. }
  rewrite Hh. destruct (In_dec_string x gotList); tauto.
Qed.

(** After [reconcileClusterInfo] succeeds on a live EgressClusterInfo, each
    cluster set exists and holds exactly the wanted entries of its family
    that it did not hold before: entries it already held are deleted,
    wanted or not. *)
Theorem reconcileClusterInfo_final_sets (status : EgressIgnoreCIDR) (custom : list string)
    (st st' : SetBackend) :
  reconcileClusterInfo (InfoFound false status) custom st = Some st' ->
  (exists l, lookupSet EgressClusterCIDRIPv4 st' = Some l /\
     forall x, In x l <-> In x (fst (wantLists status custom)) /\
       ~ In x (match lookupSet EgressClusterCIDRIPv4 st with Some g => g | None => [] end)) /\
  (exists l, lookupSet EgressClusterCIDRIPv6 st' = Some l /\
     forall x, In x l <-> In x (snd (wantLists status custom)) /\
       ~ In x (match lookupSet EgressClusterCIDRIPv6 st with Some g => g | None => [] end)).
Proof.
  unfold reconcileClusterInfo. destruct (wantLists status custom) as [ipv4 ipv6]. simpl.
  destruct (backendCreateSet (mkIPSet EgressClusterCIDRIPv4 "hash:net" "inet") st)
    as [st1|] eqn:Hc1; [|discriminate].
  destruct (backendCreateSet (mkIPSet EgressClusterCIDRIPv6 "hash:net" "inet6") st1)
    as [st2|] eqn:Hc2; [|discriminate].
  assert (Hne : EgressClusterCIDRIPv4 <> EgressClusterCIDRIPv6) by discriminate.
  assert (H4 : lookupSet EgressClusterCIDRIPv4 st2 =
               Some (match lookupSet EgressClusterCIDRIPv4 st with Some g => g | None => [] end)).
  { rewrite (lookupSet_create _ _ _ _ Hc2). simpl.
    rewrite (lookupSet_create _ _ _ _ Hc1). reflexivity. }
  assert (H6 : lookupSet EgressClusterCIDRIPv6 st2 =
               Some (match lookupSet EgressClusterCIDRIPv6 st with Some g => g | None => [] end)).
  { rewrite (lookupSet_create _ _ _ _ Hc2). simpl.
    rewrite (lookupSet_create _ _ _ _ Hc1). reflexivity. }
  unfold ListEntries. rewrite H4, H6.
  destruct (process _ ipv4 _ _ st2) as [st3|] eqn:Hp4; [|discriminate].
  intros Hp6.
  destruct (process_members _ _ _ _ _ H4 Hp4) as [Hp4a [l4 [Hl4 Hl4']]].
  assert (H6' : lookupSet EgressClusterCIDRIPv6 st3 =
                Some (match lookupSet EgressClusterCIDRIPv6 st with Some g => g | None => [] end)).
  { rewrite Hp4a by (intros E; apply Hne; symmetry; exact E). exact H6. }
  destruct (process_members _ _ _ _ _ H6' Hp6) as [Hp6a [l6 [Hl6 Hl6']]].
  split.
  - exists l4. split; [|exact Hl4']. rewrite Hp6a by exact Hne. exact Hl4.
  - exists l6. split; [exact Hl6|exact Hl6'].
Qed.

Lemma reconcileClusterInfo_final_sets_witness :
  let status := mkEgressIgnoreCIDR ["172.18.0.2"] [] ["10.244.0.0/16"] [] [] [] in
  let st := mkSetBackend [(EgressClusterCIDRIPv4, ["172.18.0.2"; "10.1.0.0/16"])] [] in
  let st' := match reconcileClusterInfo (InfoFound false status) [] st with
             | Some x => x | None => st end in
  reconcileClusterInfo (InfoFound false status) [] st = Some st' /\
  exists l, lookupSet EgressClusterCIDRIPv4 st' = Some l /\
    forall x, In x l <-> In x (fst (wantLists status [])) /\
                         ~ In x ["172.18.0.2"; "10.1.0.0/16"].
Proof.
  intros status st st'.
  assert (H : reconcileClusterInfo (InfoFound false status) [] st = Some st')
    by (vm_compute; reflexivity).
  split; [exact H|].
  exact (proj1 (reconcileClusterInfo_final_sets status [] st st' H)).
Defined.

End ClusterInfoProperties.
